(** * A shallow embedding of the command execution core

    The development follows the Python sources of the terminal:

    - [filesystem/virtual_fs.py]   the in-memory file system,
    - [commands/file_operations.py] the commands [mkdir] and [touch],
    - [commands/ai_commands.py]    the rule based natural-language interpreter,
    - [utils/command_parser.py]    the command line parser,
    - [terminal_core.py]           the dispatcher.

    Python [str] values are modelled by [string]: a character is a code
    point below 256, and the character predicates ([str.lower],
    [str.isspace], the classes of [re]) are those of Python on that range.
    Time stamps produced by [datetime.now().strftime] are inputs of the
    operations that read the clock.  The definitions come first, the
    properties after them. *)

From Stdlib Require Import Bool Arith Lia List Ascii String DecimalString.
From Stdlib Require Import Permutation Sorted.
Import ListNotations.

Open Scope string_scope.
Open Scope list_scope.

Set Warnings "-register-all".

(** ** Python strings *)

Module PyStr.

Fixpoint startswith (s p : string) {struct p} : bool :=
  match p, s with
  | EmptyString, _ => true
  | String _ _, EmptyString => false
  | String x p', String y s' => Ascii.eqb x y && startswith s' p'
  end.

Fixpoint rev_string (s : string) : string :=
  match s with
  | EmptyString => EmptyString
  | String c s' => rev_string s' ++ String c EmptyString
  end.

Definition endswith (s p : string) : bool :=
  startswith (rev_string s) (rev_string p).

(** [s.split(sep)] for a one-character separator: every occurrence
    splits, and the empty string yields one empty field. *)
Fixpoint split_on (sep : ascii) (s : string) : list string :=
  match s with
  | EmptyString => [EmptyString]
  | String c s' =>
      if Ascii.eqb c sep then EmptyString :: split_on sep s'
      else match split_on sep s' with
           | h :: t => String c h :: t
           | [] => [String c EmptyString]
           end
  end.

(** [sep.join(parts)] *)
Fixpoint join (sep : string) (parts : list string) : string :=
  match parts with
  | [] => EmptyString
  | [p] => p
  | p :: ps => p ++ sep ++ join sep ps
  end.

(** [s.lstrip(chars)], [s.rstrip(chars)] and [s.strip(chars)] for a
    set of characters given as a predicate. *)
Fixpoint lstrip_by (f : ascii -> bool) (s : string) : string :=
  match s with
  | EmptyString => EmptyString
  | String c s' => if f c then lstrip_by f s' else s
  end.

Definition rstrip_by (f : ascii -> bool) (s : string) : string :=
  rev_string (lstrip_by f (rev_string s)).

Definition strip_by (f : ascii -> bool) (s : string) : string :=
  rstrip_by f (lstrip_by f s).

Definition is_char (c : ascii) : ascii -> bool := fun d => Ascii.eqb d c.

Definition in_range (lo hi : nat) (c : ascii) : bool :=
  Nat.leb lo (nat_of_ascii c) && Nat.leb (nat_of_ascii c) hi.

(** [str.isspace] on code points below 256. *)
Definition isspace (c : ascii) : bool :=
  in_range 9 13 c || in_range 28 32 c
  || Nat.eqb (nat_of_ascii c) 133 || Nat.eqb (nat_of_ascii c) 160.

(** [str.lower] on code points below 256: the ASCII capitals and the
    Latin-1 capitals (all of 192..222 but the multiplication sign). *)
Definition lower_char (c : ascii) : ascii :=
  if in_range 65 90 c
     || (in_range 192 222 c && negb (Nat.eqb (nat_of_ascii c) 215))
  then ascii_of_nat (nat_of_ascii c + 32)
  else c.

Fixpoint lower (s : string) : string :=
  match s with
  | EmptyString => EmptyString
  | String c s' => String (lower_char c) (lower s')
  end.

Definition strip (s : string) : string := strip_by isspace s.

(** [s.split()]: fields separated by runs of white space, no empty
    field.  [cur] is the field being read, in reverse. *)
Fixpoint split_ws_aux (s : string) (cur : string) : list string :=
  match s with
  | EmptyString =>
      match cur with
      | EmptyString => []
      | _ => [rev_string cur]
      end
  | String c s' =>
      if isspace c then
        match cur with
        | EmptyString => split_ws_aux s' EmptyString
        | _ => rev_string cur :: split_ws_aux s' EmptyString
        end
      else split_ws_aux s' (String c cur)
  end.

Definition split_ws (s : string) : list string := split_ws_aux s EmptyString.

(** Comparison of strings by code points, as [<] and [<=] on [str]. *)
Fixpoint ltb (a b : string) : bool :=
  match a, b with
  | EmptyString, EmptyString => false
  | EmptyString, String _ _ => true
  | String _ _, EmptyString => false
  | String x a', String y b' =>
      if Nat.ltb (nat_of_ascii x) (nat_of_ascii y) then true
      else if Nat.ltb (nat_of_ascii y) (nat_of_ascii x) then false
      else ltb a' b'
  end.

Definition leb (a b : string) : bool := negb (ltb b a).

Definition mem (x : string) (l : list string) : bool :=
  existsb (String.eqb x) l.

Fixpoint contains_char (c : ascii) (s : string) : bool :=
  match s with
  | EmptyString => false
  | String d s' => Ascii.eqb d c || contains_char c s'
  end.

End PyStr.

(** ** [posixpath]: the three functions the file system uses *)

Module PosixPath.
Import PyStr.

(** [os.path.join(a, b)] *)
Definition join2 (a b : string) : string :=
  if startswith b "/" then b
  else if String.eqb a "" || endswith a "/" then a ++ b
  else a ++ "/" ++ b.

(** [p.rfind('/') + 1], the index after the last slash. *)
Fixpoint after_last_slash (p : string) : nat :=
  match p with
  | EmptyString => 0
  | String c p' =>
      if contains_char "/" p' then S (after_last_slash p')
      else if Ascii.eqb c "/" then 1 else 0
  end.

Definition all_slashes (s : string) : bool :=
  String.eqb (lstrip_by (is_char "/") s) "".

(** [os.path.dirname(p)] *)
Definition dirname (p : string) : string :=
  let i := after_last_slash p in
  let head := substring 0 i p in
  if negb (String.eqb head "") && negb (all_slashes head)
  then rstrip_by (is_char "/") head
  else head.

(** [os.path.basename(p)] *)
Definition basename (p : string) : string :=
  let i := after_last_slash p in
  substring i (String.length p - i) p.

End PosixPath.

(** ** Python dictionaries

    A [dict] with string keys keeps its entries in insertion order and
    has no repeated key. *)

Module PyDict.

Section Dict.
Context {V : Type}.

Definition t := list (string * V).

Fixpoint get (k : string) (d : t) : option V :=
  match d with
  | [] => None
  | (k', v) :: d' => if String.eqb k' k then Some v else get k d'
  end.

Definition mem (k : string) (d : t) : bool :=
  match get k d with Some _ => true | None => false end.

(** [d[k] = v]: an existing entry keeps its place, a new one goes last. *)
Fixpoint set (k : string) (v : V) (d : t) : t :=
  match d with
  | [] => [(k, v)]
  | (k', v') :: d' =>
      if String.eqb k' k then (k, v) :: d' else (k', v') :: set k v d'
  end.

(** [del d[k]]; the dictionary holds [k] at most once. *)
Definition del (k : string) (d : t) : t :=
  filter (fun e => negb (String.eqb (fst e) k)) d.

End Dict.

Arguments t : clear implicits.

End PyDict.

(** ** [utils/colors.py] *)

Module Colors.

Definition ESC : string := String (ascii_of_nat 27) "".
Definition RESET : string := ESC ++ "[0m".
Definition BOLD : string := ESC ++ "[1m".
Definition RED : string := ESC ++ "[31m".
Definition GREEN : string := ESC ++ "[32m".
Definition YELLOW : string := ESC ++ "[33m".
Definition BLUE : string := ESC ++ "[34m".
Definition CYAN : string := ESC ++ "[36m".

End Colors.

(** ** [filesystem/virtual_fs.py] *)

Module VirtualFS.
Import PyStr PosixPath.

(** A node is the dictionary the source builds: its ['type'] is either
    ['file'] (with ['content'] and ['size']) or ['directory'] (with
    ['children']). *)
Inductive Node : Type :=
| File (content created modified permissions : string) (size : nat)
| Directory (created modified permissions : string)
            (children : PyDict.t Node).

Definition is_dir_node (n : Node) : bool :=
  match n with Directory _ _ _ _ => true | File _ _ _ _ _ => false end.

Definition is_file_node (n : Node) : bool :=
  match n with File _ _ _ _ _ => true | Directory _ _ _ _ => false end.

(** [node.get('children', {})] *)
Definition children_of (n : Node) : PyDict.t Node :=
  match n with Directory _ _ _ ch => ch | File _ _ _ _ _ => [] end.

Definition content_of (n : Node) : string :=
  match n with File c _ _ _ _ => c | Directory _ _ _ _ => "" end.

Definition size_of (n : Node) : nat :=
  match n with File _ _ _ _ s => s | Directory _ _ _ _ => 0 end.

Definition modified_of (n : Node) : string :=
  match n with File _ _ m _ _ => m | Directory _ m _ _ => m end.

Definition created_of (n : Node) : string :=
  match n with File _ c _ _ _ => c | Directory c _ _ _ => c end.

(** [node['modified'] = t] and [node['created'] = t] *)
Definition set_modified (t : string) (n : Node) : Node :=
  match n with
  | File c cr _ p s => File c cr t p s
  | Directory cr _ p ch => Directory cr t p ch
  end.

Definition set_created (t : string) (n : Node) : Node :=
  match n with
  | File c _ m p s => File c t m p s
  | Directory _ m p ch => Directory t m p ch
  end.

(** [node.setdefault('children', {})[name] = child] and
    [del node['children'][name]] on a directory node. *)
Definition set_child (name : string) (child : Node) (n : Node) : Node :=
  match n with
  | Directory cr m p ch => Directory cr m p (PyDict.set name child ch)
  | File _ _ _ _ _ => n
  end.

Definition del_child (name : string) (n : Node) : Node :=
  match n with
  | Directory cr m p ch => Directory cr m p (PyDict.del name ch)
  | File _ _ _ _ _ => n
  end.

(** The state of a [VirtualFileSystem] object: [root] is
    [self.virtual_fs['/']]. *)
Record VirtualFileSystem : Type := mkVFS {
  root : Node;
  current_path : string
}.

Definition with_root (fs : VirtualFileSystem) (r : Node) : VirtualFileSystem :=
  mkVFS r (current_path fs).

Definition seed_time : string := "2024-01-01 00:00:00".

Definition seed_dir (perm : string) (ch : PyDict.t Node) : Node :=
  Directory seed_time seed_time perm ch.

Definition LF : string := String (ascii_of_nat 10) "".
Definition DQ : string := String (ascii_of_nat 34) "".

(** [__init__] *)
Definition init : VirtualFileSystem :=
  mkVFS
    (seed_dir "drwxr-xr-x"
      [ ("home", seed_dir "drwxr-xr-x"
          [ ("user", seed_dir "drwxr-xr-x"
              [ ("documents", seed_dir "drwxr-xr-x"
                  [ ("readme.txt",
                     File ("Welcome to the virtual file system!" ++ LF ++
                           "This is a safe environment for testing commands.")
                          seed_time seed_time "-rw-r--r--" 89) ]);
                ("downloads", seed_dir "drwxr-xr-x" []);
                ("projects", seed_dir "drwxr-xr-x"
                  [ ("script.py",
                     File ("#!/usr/bin/env python3" ++ LF ++
                           "print(" ++ DQ ++ "Hello, Virtual World!" ++ DQ
                           ++ ")" ++ LF)
                          seed_time seed_time "-rwxr-xr-x" 46) ]) ]) ]);
        ("tmp", seed_dir "drwxrwxrwx" []);
        ("etc", seed_dir "drwxr-xr-x"
          [ ("hosts",
             File ("127.0.0.1 localhost" ++ LF ++ "::1 localhost" ++ LF)
                  seed_time seed_time "-rw-r--r--" 26) ]) ])
    "/home/user".

(** *** [normalize_path] *)

(** The loop over [path.split('/')]; [parts.pop()] is [removelast]. *)
Fixpoint normalize_loop (segs parts : list string) : list string :=
  match segs with
  | [] => parts
  | part :: rest =>
      if String.eqb part "" || String.eqb part "." then
        normalize_loop rest parts
      else if String.eqb part ".." then
        match parts with
        | [] => normalize_loop rest parts
        | _ :: _ =>
            if negb (String.eqb (last parts "") "..")
            then normalize_loop rest (removelast parts)
            else normalize_loop rest parts
        end
      else normalize_loop rest (parts ++ [part])
  end.

Definition normalize_from (cur path : string) : string :=
  let path := if negb (startswith path "/") then join2 cur path else path in
  let parts := normalize_loop (split_on "/" path) [] in
  let result := ("/" ++ join "/" parts)%string in
  if negb (String.eqb result "/") || Nat.eqb (List.length parts) 0
  then result
  else rstrip_by (is_char "/") result.

Definition normalize_path (fs : VirtualFileSystem) (path : string) : string :=
  normalize_from (current_path fs) path.

(** The same loop with the failure of [list.pop] on an empty list made
    explicit: [None] stands for the [IndexError]. *)
Definition py_pop {A : Type} (l : list A) : option (list A) :=
  match l with
  | [] => None
  | _ :: _ => Some (removelast l)
  end.

Fixpoint normalize_loop_exc (segs parts : list string)
  : option (list string) :=
  match segs with
  | [] => Some parts
  | part :: rest =>
      if String.eqb part "" || String.eqb part "." then
        normalize_loop_exc rest parts
      else if String.eqb part ".." then
        if negb (Nat.eqb (List.length parts) 0)
           && negb (String.eqb (last parts "") "..")
        then match py_pop parts with
             | Some parts' => normalize_loop_exc rest parts'
             | None => None
             end
        else normalize_loop_exc rest parts
      else normalize_loop_exc rest (parts ++ [part])
  end.

Definition normalize_from_exc (cur path : string) : option string :=
  let path := if negb (startswith path "/") then join2 cur path else path in
  match normalize_loop_exc (split_on "/" path) [] with
  | None => None
  | Some parts =>
      let result := ("/" ++ join "/" parts)%string in
      Some (if negb (String.eqb result "/") || Nat.eqb (List.length parts) 0
            then result
            else rstrip_by (is_char "/") result)
  end.

(** *** Nodes and their addresses *)

(** The loop of [get_node]. *)
Fixpoint walk (parts : list string) (current : Node) : option Node :=
  match parts with
  | [] => Some current
  | part :: rest =>
      match current with
      | Directory _ _ _ ch =>
          match PyDict.get part ch with
          | Some child => walk rest child
          | None => None
          end
      | File _ _ _ _ _ => None
      end
  end.

Definition get_node (fs : VirtualFileSystem) (path : string) : option Node :=
  let path := normalize_path fs path in
  if String.eqb path "/" then Some (root fs)
  else walk (split_on "/" (strip_by (is_char "/") path)) (root fs).

Definition get_parent_node (fs : VirtualFileSystem) (path : string)
  : option Node * string :=
  let path := normalize_path fs path in
  let parent_path := dirname path in
  let item_name := basename path in
  (get_node fs parent_path, item_name).

(** The source mutates the dictionaries that [get_node] returns.  In the
    tree a node object is designated by its address, the names that lead
    to it from the root; [address fs path] is the address of the object
    [get_node fs path] returns. *)
Definition address (fs : VirtualFileSystem) (path : string) : list string :=
  let path := normalize_path fs path in
  if String.eqb path "/" then []
  else split_on "/" (strip_by (is_char "/") path).

Definition parent_address (fs : VirtualFileSystem) (path : string)
  : list string :=
  address fs (dirname (normalize_path fs path)).

(** [update addr f r]: the tree [r] after the node object at [addr] was
    mutated by [f]; a tree without a node at [addr] is left as it is. *)
Fixpoint update (addr : list string) (f : Node -> Node) (r : Node) : Node :=
  match addr with
  | [] => f r
  | part :: rest =>
      match r with
      | Directory cr m p ch =>
          match PyDict.get part ch with
          | Some child =>
              Directory cr m p (PyDict.set part (update rest f child) ch)
          | None => r
          end
      | File _ _ _ _ _ => r
      end
  end.

Definition exists_ (fs : VirtualFileSystem) (path : string) : bool :=
  match get_node fs path with Some _ => true | None => false end.

Definition is_directory (fs : VirtualFileSystem) (path : string) : bool :=
  match get_node fs path with
  | Some n => is_dir_node n
  | None => false
  end.

Definition is_file (fs : VirtualFileSystem) (path : string) : bool :=
  match get_node fs path with
  | Some n => is_file_node n
  | None => false
  end.

(** *** Mutating operations

    [now] is the reading of the clock,
    [datetime.datetime.now().strftime('%Y-%m-%d %H:%M:%S')]. *)

Definition create_directory (now : string) (fs : VirtualFileSystem)
  (path : string) : bool * VirtualFileSystem :=
  let path := normalize_path fs path in
  let '(parent, dir_name) := get_parent_node fs path in
  match parent with
  | Some (Directory _ _ _ ch) =>
      if negb (PyDict.mem dir_name ch) then
        (true,
         with_root fs
           (update (parent_address fs path)
              (set_child dir_name (Directory now now "drwxr-xr-x" []))
              (root fs)))
      else (false, fs)
  | _ => (false, fs)
  end.

Definition create_file (now : string) (fs : VirtualFileSystem)
  (path content : string) : bool * VirtualFileSystem :=
  let path := normalize_path fs path in
  let '(parent, file_name) := get_parent_node fs path in
  match parent with
  | Some (Directory _ _ _ _) =>
      (true,
       with_root fs
         (update (parent_address fs path)
            (set_child file_name
               (File content now now "-rw-r--r--" (String.length content)))
            (root fs)))
  | _ => (false, fs)
  end.

(** The three assignments of [write_file] to a file node. *)
Definition overwrite (now content : string) (n : Node) : Node :=
  match n with
  | File _ cr _ p _ => File content cr now p (String.length content)
  | Directory _ _ _ _ => n
  end.

Definition write_file (now : string) (fs : VirtualFileSystem)
  (path content : string) : bool * VirtualFileSystem :=
  match get_node fs path with
  | Some (File _ _ _ _ _) =>
      (true,
       with_root fs (update (address fs path) (overwrite now content) (root fs)))
  | _ => create_file now fs path content
  end.

Definition read_file (fs : VirtualFileSystem) (path : string)
  : option string :=
  match get_node fs path with
  | Some (File c _ _ _ _) => Some c
  | _ => None
  end.

Definition remove_item (fs : VirtualFileSystem) (path : string)
  : bool * VirtualFileSystem :=
  let path := normalize_path fs path in
  let '(parent, item_name) := get_parent_node fs path in
  match parent with
  | Some (Directory _ _ _ ch) =>
      if PyDict.mem item_name ch then
        (true,
         with_root fs
           (update (parent_address fs path) (del_child item_name) (root fs)))
      else (false, fs)
  | _ => (false, fs)
  end.

Fixpoint is_prefix (p l : list string) : bool :=
  match p, l with
  | [], _ => true
  | _ :: _, [] => false
  | x :: p', y :: l' => String.eqb x y && is_prefix p' l'
  end.

(** [move_item] performs three mutations on objects it fetched before
    the first of them: [dst_parent] receives [item] under [dst_name],
    [src_parent] loses [src_name], and [item] gets a new time stamp.
    The first mutation may overwrite the entry through which
    [src_parent] was reached (the destination entry lies on the way to
    [src_parent]); the deletion then acts on an object that is no longer
    part of the tree and is not seen from the root. *)
Definition move_item (now : string) (fs : VirtualFileSystem)
  (src_path dst_path : string) : bool * VirtualFileSystem :=
  let src_path := normalize_path fs src_path in
  let dst_path := normalize_path fs dst_path in
  let '(src_parent, src_name) := get_parent_node fs src_path in
  let '(dst_parent, dst_name) := get_parent_node fs dst_path in
  match src_parent, dst_parent with
  | Some (Directory _ _ _ src_ch), Some (Directory _ _ _ _) =>
      match PyDict.get src_name src_ch with
      | Some item =>
          let src_addr := parent_address fs src_path in
          let dst_addr := parent_address fs dst_path in
          let r1 := update dst_addr (set_child dst_name item) (root fs) in
          let r2 :=
            if is_prefix (dst_addr ++ [dst_name]) src_addr then r1
            else update src_addr (del_child src_name) r1 in
          let r3 := update (dst_addr ++ [dst_name]) (set_modified now) r2 in
          (true, with_root fs r3)
      | None => (false, fs)
      end
  | _, _ => (false, fs)
  end.

(** [copy.deepcopy] is the identity on a tree of values. *)
Definition copy_item (now : string) (fs : VirtualFileSystem)
  (src_path dst_path : string) : bool * VirtualFileSystem :=
  let src_path := normalize_path fs src_path in
  let dst_path := normalize_path fs dst_path in
  let src_node := get_node fs src_path in
  let '(dst_parent, dst_name) := get_parent_node fs dst_path in
  match src_node, dst_parent with
  | Some src, Some (Directory _ _ _ _) =>
      let item_copy := set_modified now (set_created now src) in
      (true,
       with_root fs
         (update (parent_address fs dst_path) (set_child dst_name item_copy)
            (root fs)))
  | _, _ => (false, fs)
  end.

(** *** Listing *)

(** The sort key of [list_directory], [(x.endswith('/'), x.lower())],
    and the order of Python tuples on it. *)
Definition list_key (x : string) : bool * string :=
  (endswith x "/", lower x).

Definition key_ltb (a b : bool * string) : bool :=
  match fst a, fst b with
  | false, true => true
  | true, false => false
  | _, _ => ltb (snd a) (snd b)
  end.

Definition key_leb (a b : bool * string) : bool := negb (key_ltb b a).

(** [sorted(items, key=...)]: Python sorts stably, so the result is the
    one of any stable sort; this is insertion from the right. *)
Fixpoint insert_by {A K : Type} (lt : K -> K -> bool) (key : A -> K)
  (x : A) (l : list A) : list A :=
  match l with
  | [] => [x]
  | y :: l' =>
      if lt (key y) (key x) then y :: insert_by lt key x l'
      else x :: l
  end.

Definition sorted_by {A K : Type} (lt : K -> K -> bool) (key : A -> K)
  (l : list A) : list A :=
  fold_right (insert_by lt key) [] l.

Definition display_name (entry : string * Node) : string :=
  if is_dir_node (snd entry) then (fst entry ++ "/")%string else fst entry.

Definition list_directory (fs : VirtualFileSystem) (path : string)
  : list string :=
  match get_node fs path with
  | Some (Directory _ _ _ ch) =>
      sorted_by key_ltb list_key (map display_name ch)
  | _ => []
  end.

(** The listing as the specification words it: the children sorted by
    the key (is a directory, lower-case name), then shown.  It is
    compared with [list_directory] below and is not part of the
    program. *)
Definition name_key (entry : string * Node) : bool * string :=
  (is_dir_node (snd entry), lower (fst entry)).

Definition list_directory_by_name (fs : VirtualFileSystem) (path : string)
  : list string :=
  match get_node fs path with
  | Some (Directory _ _ _ ch) =>
      map display_name (sorted_by key_ltb name_key ch)
  | _ => []
  end.

Definition change_directory (fs : VirtualFileSystem) (path : string)
  : bool * VirtualFileSystem :=
  let path := if String.eqb path "~" then "/home/user" else path in
  let target_path := normalize_path fs path in
  if is_directory fs target_path
  then (true, mkVFS (root fs) target_path)
  else (false, fs).


(** *** The detailed listing *)

Definition permissions_of (n : Node) : string :=
  match n with File _ _ _ p _ => p | Directory _ _ p _ => p end.

(** One dictionary of [get_detailed_listing]. *)
Record Detail : Type := mkDetail {
  d_name : string;
  d_type : string;
  d_permissions : string;
  d_size : nat;
  d_modified : string;
  d_is_directory : bool
}.

Definition detail_of (entry : string * Node) : Detail :=
  let '(name, item) := entry in
  mkDetail name
    (if is_dir_node item then "directory" else "file")
    (permissions_of item)
    (size_of item)
    (modified_of item)
    (is_dir_node item).

(** The sort key [(not x['is_directory'], x['name'].lower())]. *)
Definition detail_key (x : Detail) : bool * string :=
  (negb (d_is_directory x), lower (d_name x)).

Definition get_detailed_listing (fs : VirtualFileSystem) (path : string)
  : list Detail :=
  match get_node fs path with
  | Some (Directory _ _ _ ch) =>
      sorted_by key_ltb detail_key (map detail_of ch)
  | _ => []
  end.

End VirtualFS.

(** ** [commands/file_operations.py]

    [cmd_mkdir] on both backends, and [cmd_touch] in a session that was
    built with a virtual file system ([use_virtual] is true). *)

Module FileOperations.
Import PyStr VirtualFS.

(** [cmd_mkdir].  The session is either sandboxed, with its virtual file
    system, or works on the host, whose state [World] and whose
    [os.makedirs(name, exist_ok=True)] are not part of the program:
    [os_makedirs] returns the text of the exception it raised, if any. *)
Section Mkdir.
Variable World : Type.
Variable os_makedirs : string -> World -> option string * World.

Inductive Backend : Type :=
| Sandbox (fs : VirtualFileSystem)
| Host (w : World).

Definition mkdir_one (now : string) (b : Backend) (dir_name : string)
  : string * Backend :=
  match b with
  | Sandbox fs =>
      let '(ok, fs') := create_directory now fs dir_name in
      if ok then
        ((Colors.GREEN ++ "Directory created: " ++ dir_name
          ++ Colors.RESET)%string, Sandbox fs')
      else
        ((Colors.RED ++ "Failed to create directory: " ++ dir_name
          ++ Colors.RESET)%string, Sandbox fs')
  | Host w =>
      match os_makedirs dir_name w with
      | (None, w') =>
          ((Colors.GREEN ++ "Directory created: " ++ dir_name
            ++ Colors.RESET)%string, Host w')
      | (Some e, w') =>
          ((Colors.RED ++ "Error creating directory: " ++ e
            ++ Colors.RESET)%string, Host w')
      end
  end.

(** The loop over [args]: a name that starts with ['-'] is skipped, and
    every other path through the body returns. *)
Fixpoint mkdir_loop (now : string) (b : Backend) (args : list string)
  : string * Backend :=
  match args with
  | [] => ("", b)
  | dir_name :: rest =>
      if startswith dir_name "-" then mkdir_loop now b rest
      else mkdir_one now b dir_name
  end.

Definition cmd_mkdir (now : string) (b : Backend) (args : list string)
  : string * Backend :=
  match args with
  | [] =>
      ((Colors.YELLOW ++ "Usage: mkdir <directory_name>" ++ Colors.RESET)%string,
       b)
  | _ :: _ => mkdir_loop now b args
  end.

End Mkdir.

Arguments Sandbox {World} fs.
Arguments Host {World} w.

(** [cmd_touch]: one turn of the loop over [args], on the file system
    and the list [results].  [now] is the clock at this turn. *)
Definition touch_one (now : string) (file_name : string)
  (st : VirtualFileSystem * list string) : VirtualFileSystem * list string :=
  let '(fs, results) := st in
  if exists_ fs file_name then
    match get_node fs file_name with
    | Some (File _ _ _ _ _) =>
        (with_root fs
           (update (address fs file_name) (set_modified now) (root fs)),
         results ++ [(Colors.GREEN ++ "Updated timestamp: " ++ file_name
                      ++ Colors.RESET)%string])
    | _ => (fs, results)
    end
  else
    let '(ok, fs') := create_file now fs file_name "" in
    if ok then
      (fs', results ++ [(Colors.GREEN ++ "File created: " ++ file_name
                         ++ Colors.RESET)%string])
    else
      (fs', results ++ [(Colors.RED ++ "Failed to create file: " ++ file_name
                         ++ Colors.RESET)%string]).

(** [clock i] is the reading of the clock at the turn for [args[i]]. *)
Fixpoint touch_loop (clock : nat -> string) (i : nat) (args : list string)
  (st : VirtualFileSystem * list string) : VirtualFileSystem * list string :=
  match args with
  | [] => st
  | file_name :: rest =>
      touch_loop clock (S i) rest (touch_one (clock i) file_name st)
  end.

Definition cmd_touch (clock : nat -> string) (fs : VirtualFileSystem)
  (args : list string) : string * VirtualFileSystem :=
  match args with
  | [] =>
      ((Colors.YELLOW ++ "Usage: touch <filename>" ++ Colors.RESET)%string, fs)
  | _ :: _ =>
      let '(fs', results) := touch_loop clock 0 args (fs, []) in
      (join LF results, fs')
  end.


(** The other commands, in a sandboxed session. *)

(** [s.rjust(n)] *)
Fixpoint blanks (n : nat) : string :=
  match n with O => "" | S n' => String " " (blanks n') end.

Definition rjust (n : nat) (s : string) : string :=
  (blanks (n - String.length s) ++ s)%string.

Definition str_nat (n : nat) : string :=
  NilEmpty.string_of_uint (Nat.to_uint n).

Definition empty_directory : string :=
  (Colors.YELLOW ++ "(empty directory)" ++ Colors.RESET)%string.

Definition ls_line (item : Detail) : string :=
  let size_str :=
    if String.eqb (d_type item) "file" then rjust 8 (str_nat (d_size item))
    else "     dir" in
  let color := if d_is_directory item then Colors.BLUE else Colors.RESET in
  let name :=
    (d_name item ++ (if d_is_directory item then "/" else ""))%string in
  (d_permissions item ++ " " ++ size_str ++ " " ++ d_modified item ++ " "
   ++ color ++ name ++ Colors.RESET)%string.

Definition ls_item (item : string) : string :=
  if endswith item "/" then (Colors.BLUE ++ item ++ Colors.RESET)%string
  else item.

(** [cmd_ls] *)
Definition cmd_ls (fs : VirtualFileSystem) (args : list string) : string :=
  let path := match args with a :: _ => a | [] => "." end in
  let detailed := mem "-l" args || mem "--long" args in
  let current_path := if String.eqb path "." then current_path fs else path in
  if detailed then
    match get_detailed_listing fs current_path with
    | [] => empty_directory
    | items => join LF (map ls_line items)
    end
  else
    match list_directory fs current_path with
    | [] => empty_directory
    | items => join "  " (map ls_item items)
    end.

(** [cmd_cd] *)
Definition cmd_cd (fs : VirtualFileSystem) (args : list string)
  : string * VirtualFileSystem :=
  let path := match args with a :: _ => a | [] => "~" end in
  let '(ok, fs') := change_directory fs path in
  if ok then ("", fs')
  else ((Colors.RED ++ "Directory not found: " ++ path ++ Colors.RESET)%string,
        fs').

(** [cmd_pwd] *)
Definition cmd_pwd (fs : VirtualFileSystem) (args : list string) : string :=
  current_path fs.

(** [cmd_rmdir]: when [remove_item] fails on an empty directory the
    method goes on to its last line. *)
Definition cmd_rmdir (fs : VirtualFileSystem) (args : list string)
  : string * VirtualFileSystem :=
  match args with
  | [] =>
      ((Colors.YELLOW ++ "Usage: rmdir <directory_name>" ++ Colors.RESET)%string,
       fs)
  | dir_name :: _ =>
      let not_found :=
        (Colors.RED ++ "Directory not found: " ++ dir_name
         ++ Colors.RESET)%string in
      if is_directory fs dir_name then
        match list_directory fs dir_name with
        | _ :: _ =>
            ((Colors.RED ++ "Directory not empty: " ++ dir_name
              ++ Colors.RESET)%string, fs)
        | [] =>
            let '(ok, fs') := remove_item fs dir_name in
            if ok then
              ((Colors.GREEN ++ "Directory removed: " ++ dir_name
                ++ Colors.RESET)%string, fs')
            else (not_found, fs')
        end
      else (not_found, fs)
  end.

(** One turn of the loop of [cmd_rm]. *)
Definition rm_one (recursive force : bool) (item_name : string)
  (st : VirtualFileSystem * list string) : VirtualFileSystem * list string :=
  let '(fs, results) := st in
  if exists_ fs item_name then
    if is_directory fs item_name && negb recursive then
      (fs, results ++ [(Colors.RED ++ "Cannot remove directory '" ++ item_name
                        ++ "': use -r for recursive" ++ Colors.RESET)%string])
    else
      let '(ok, fs') := remove_item fs item_name in
      if ok then
        (fs', results ++ [(Colors.GREEN ++ "Removed: " ++ item_name
                           ++ Colors.RESET)%string])
      else
        (fs', results ++ [(Colors.RED ++ "Failed to remove: " ++ item_name
                           ++ Colors.RESET)%string])
  else if negb force then
    (fs, results ++ [(Colors.RED ++ "File not found: " ++ item_name
                      ++ Colors.RESET)%string])
  else (fs, results).

(** [cmd_rm] *)
Definition cmd_rm (fs : VirtualFileSystem) (args : list string)
  : string * VirtualFileSystem :=
  match args with
  | [] =>
      ((Colors.YELLOW ++ "Usage: rm <file_or_directory>" ++ Colors.RESET)%string,
       fs)
  | _ :: _ =>
      let recursive := mem "-r" args || mem "--recursive" args in
      let force := mem "-f" args || mem "--force" args in
      let items_to_remove :=
        filter (fun arg => negb (startswith arg "-")) args in
      match items_to_remove with
      | [] =>
          ((Colors.YELLOW ++ "No items specified for removal"
            ++ Colors.RESET)%string, fs)
      | _ :: _ =>
          let '(fs', results) :=
            fold_left (fun st item => rm_one recursive force item st)
              items_to_remove (fs, []) in
          (join LF results, fs')
      end
  end.

(** [cmd_cat] *)
Definition cat_one (fs : VirtualFileSystem) (file_name : string) : string :=
  match read_file fs file_name with
  | Some content => content
  | None =>
      (Colors.RED ++ "File not found or is not a file: " ++ file_name
       ++ Colors.RESET)%string
  end.

Definition cmd_cat (fs : VirtualFileSystem) (args : list string) : string :=
  match args with
  | [] => (Colors.YELLOW ++ "Usage: cat <filename>" ++ Colors.RESET)%string
  | _ :: _ => join LF (map (cat_one fs) args)
  end.

Definition cp_usage : string :=
  (Colors.YELLOW ++ "Usage: cp <source> <destination>" ++ Colors.RESET)%string.

(** [cmd_cp] *)
Definition cmd_cp (now : string) (fs : VirtualFileSystem) (args : list string)
  : string * VirtualFileSystem :=
  match args with
  | [] | [_] => (cp_usage, fs)
  | _ :: _ :: _ =>
      let recursive := mem "-r" args || mem "--recursive" args in
      let file_args := filter (fun arg => negb (startswith arg "-")) args in
      match file_args with
      | [] | [_] => (cp_usage, fs)
      | source :: dest :: _ =>
          if negb (exists_ fs source) then
            ((Colors.RED ++ "Source not found: " ++ source
              ++ Colors.RESET)%string, fs)
          else if is_directory fs source && negb recursive then
            ((Colors.RED ++ "Cannot copy directory '" ++ source
              ++ "': use -r for recursive" ++ Colors.RESET)%string, fs)
          else
            let '(ok, fs') := copy_item now fs source dest in
            if ok then
              ((Colors.GREEN ++ "Copied " ++ source ++ " to " ++ dest
                ++ Colors.RESET)%string, fs')
            else
              ((Colors.RED ++ "Failed to copy " ++ source ++ " to " ++ dest
                ++ Colors.RESET)%string, fs')
      end
  end.

(** [cmd_mv] *)
Definition cmd_mv (now : string) (fs : VirtualFileSystem) (args : list string)
  : string * VirtualFileSystem :=
  match args with
  | [] | [_] =>
      ((Colors.YELLOW ++ "Usage: mv <source> <destination>"
        ++ Colors.RESET)%string, fs)
  | source :: dest :: _ =>
      if negb (exists_ fs source) then
        ((Colors.RED ++ "Source not found: " ++ source
          ++ Colors.RESET)%string, fs)
      else
        let '(ok, fs') := move_item now fs source dest in
        if ok then
          ((Colors.GREEN ++ "Moved " ++ source ++ " to " ++ dest
            ++ Colors.RESET)%string, fs')
        else
          ((Colors.RED ++ "Failed to move " ++ source ++ " to " ++ dest
            ++ Colors.RESET)%string, fs')
  end.

End FileOperations.

(** ** The size invariant of the data model

    [sizes_ok n]: every file node of the tree [n] has its ['size'] equal
    to the length of its ['content']. *)

Module Invariant.
Import VirtualFS.

Fixpoint sizes_ok (n : Node) : bool :=
  match n with
  | File c _ _ _ s => Nat.eqb s (String.length c)
  | Directory _ _ _ ch =>
      (fix all (d : PyDict.t Node) : bool :=
         match d with
         | [] => true
         | (_, child) :: d' => sizes_ok child && all d'
         end) ch
  end.

Definition all_sizes_ok (d : PyDict.t Node) : bool :=
  forallb (fun e => sizes_ok (snd e)) d.

(** The content and the ['size'] of every file node of the tree [n]. *)
Fixpoint files (n : Node) : list (string * nat) :=
  match n with
  | File c _ _ _ s => [(c, s)]
  | Directory _ _ _ ch =>
      (fix all (d : PyDict.t Node) : list (string * nat) :=
         match d with
         | [] => []
         | (_, child) :: d' => files child ++ all d'
         end) ch
  end.

Definition all_files (d : PyDict.t Node) : list (string * nat) :=
  flat_map (fun e => files (snd e)) d.

End Invariant.

(** ** Python values and exceptions

    The values the interpreter handles: [None], strings, lists and
    tuples.  A computation that may raise returns a [pyres]. *)

Module Py.

Inductive pyval : Type :=
| VNone
| VStr (s : string)
| VList (l : list pyval)
| VTuple (l : list pyval).

Inductive pyres (A : Type) : Type :=
| Ok (a : A)
| Raise (exn : string).

Arguments Ok {A} a.
Arguments Raise {A} exn.

(** Truth value of an object. *)
Definition truthy (v : pyval) : bool :=
  match v with
  | VNone => false
  | VStr s => negb (String.eqb s "")
  | VList l | VTuple l => negb (Nat.eqb (List.length l) 0)
  end.

(** [a or b] *)
Definition py_or (a b : pyval) : pyval := if truthy a then a else b.

End Py.

(** ** Regular expressions

    The part of Python's [re] the patterns of the interpreter use, with
    the flag [IGNORECASE]: literal characters, character classes,
    sequence, alternation, greedy and lazy repetition, numbered groups
    and back-references.  Matching is the backtracking search of [re]:
    alternatives are tried from left to right, a greedy repetition tries
    one more turn before it tries to go on, a lazy one the other way
    round, and the first success is the match. *)

Module Re.
Import PyStr.

Inductive regex : Type :=
| Eps
| Chr (c : ascii)
| Cls (f : ascii -> bool)
| Seq (r1 r2 : regex)
| Alt (r1 r2 : regex)
| Star (greedy : bool) (r : regex)
| Group (n : nat) (r : regex)
| Backref (n : nat).

(** [r+], [r?] and their lazy forms, as [re] compiles them. *)
Definition Plus (greedy : bool) (r : regex) : regex := Seq r (Star greedy r).
Definition Opt (r : regex) : regex := Alt r Eps.

(** The text of the groups matched so far, latest first. *)
Definition captures := list (nat * string).

Fixpoint group (n : nat) (caps : captures) : option string :=
  match caps with
  | [] => None
  | (i, v) :: caps' => if Nat.eqb i n then Some v else group n caps'
  end.

Fixpoint drop (n : nat) (s : string) : string :=
  match n, s with
  | O, _ => s
  | S n', String _ s' => drop n' s'
  | S _, EmptyString => EmptyString
  end.

(** The part of [s] consumed when [s'] is what is left of it. *)
Definition taken (s s' : string) : string :=
  substring 0 (String.length s - String.length s') s.

(** The turns of a repetition whose body is matched by [body]: [k] is
    what follows the repetition.  A turn has to consume a character;
    as each turn shortens the input, a count of [String.length s] turns
    is never exhausted before the input is. *)
Fixpoint star_loop
  (body : string -> captures -> (string -> captures -> option captures)
          -> option captures)
  (greedy : bool) (k : string -> captures -> option captures)
  (turns : nat) (s : string) (caps : captures) : option captures :=
  let more :=
    match turns with
    | O => None
    | S turns' =>
        body s caps
          (fun s' caps' =>
             if Nat.ltb (String.length s') (String.length s)
             then star_loop body greedy k turns' s' caps'
             else None)
    end in
  if greedy then
    match more with
    | Some res => Some res
    | None => k s caps
    end
  else
    match k s caps with
    | Some res => Some res
    | None => more
    end.

(** [m r s caps k]: match [r] at the head of [s] and go on with [k] on
    the rest; [None] when every way of matching fails. *)
Fixpoint m (r : regex) (s : string) (caps : captures)
  (k : string -> captures -> option captures) : option captures :=
  match r with
  | Eps => k s caps
  | Chr c =>
      match s with
      | String d s' =>
          if Ascii.eqb (lower_char d) (lower_char c) then k s' caps else None
      | EmptyString => None
      end
  | Cls f =>
      match s with
      | String d s' => if f d then k s' caps else None
      | EmptyString => None
      end
  | Seq r1 r2 => m r1 s caps (fun s' caps' => m r2 s' caps' k)
  | Alt r1 r2 =>
      match m r1 s caps k with
      | Some res => Some res
      | None => m r2 s caps k
      end
  | Star greedy r' => star_loop (m r') greedy k (String.length s) s caps
  | Group n r' =>
      m r' s caps (fun s' caps' => k s' ((n, taken s s') :: caps'))
  | Backref n =>
      match group n caps with
      | Some g =>
          if startswith (lower s) (lower g)
          then k (drop (String.length g) s) caps
          else None
      | None => None
      end
  end.

Definition match_here (r : regex) (s : string) : option captures :=
  m r s [] (fun _ caps => Some caps).

(** [re.search]: the match at the leftmost position that has one. *)
Fixpoint search_from (r : regex) (s : string) : option captures :=
  match match_here r s with
  | Some caps => Some caps
  | None =>
      match s with
      | EmptyString => None
      | String _ s' => search_from r s'
      end
  end.

(** The number of groups of a pattern. *)
Fixpoint ngroups (r : regex) : nat :=
  match r with
  | Eps | Chr _ | Cls _ | Backref _ => 0
  | Seq r1 r2 | Alt r1 r2 => Nat.max (ngroups r1) (ngroups r2)
  | Star _ r' => ngroups r'
  | Group n r' => Nat.max n (ngroups r')
  end.

(** [match.groups()]: the groups 1 to [n], [None] for one that took no
    part in the match. *)
Definition groups_of (n : nat) (caps : captures) : list Py.pyval :=
  map (fun i => match group i caps with
                | Some v => Py.VStr v
                | None => Py.VNone
                end) (seq 1 n).

(** [re.search(pattern, query, re.IGNORECASE)], as the groups of the
    match. *)
Definition search (r : regex) (s : string) : option (list Py.pyval) :=
  match search_from r s with
  | Some caps => Some (groups_of (ngroups r) caps)
  | None => None
  end.

(** *** Writing patterns *)

Fixpoint lit (s : string) : regex :=
  match s with
  | EmptyString => Eps
  | String c EmptyString => Chr c
  | String c s' => Seq (Chr c) (lit s')
  end.

Fixpoint seqs (rs : list regex) : regex :=
  match rs with
  | [] => Eps
  | r :: rs' => Seq r (seqs rs')
  end.

Fixpoint alts (rs : list regex) : regex :=
  match rs with
  | [] => Cls (fun _ => false)
  | [r] => r
  | r :: rs' => Alt r (alts rs')
  end.

Definition one_of (ws : list string) : regex := alts (map lit ws).

(** [.] matches all but a line feed; [\s] and [\w] are the classes of
    [str] patterns. *)
Definition dot : regex := Cls (fun c => negb (Nat.eqb (nat_of_ascii c) 10)).

Definition isword (c : ascii) : bool :=
  in_range 48 57 c || in_range 65 90 c || in_range 97 122 c
  || Nat.eqb (nat_of_ascii c) 95
  || Nat.eqb (nat_of_ascii c) 170 || in_range 178 179 c
  || Nat.eqb (nat_of_ascii c) 181 || in_range 185 186 c
  || in_range 188 190 c || in_range 192 214 c || in_range 216 246 c
  || in_range 248 255 c.

Definition isquote (c : ascii) : bool :=
  Nat.eqb (nat_of_ascii c) 34 || Nat.eqb (nat_of_ascii c) 39.

(** [.*?] *)
Definition any_lazy : regex := Star false dot.
(** [\s+] *)
Definition spaces : regex := Plus true (Cls isspace).
(** [\w+] *)
Definition word : regex := Plus true (Cls isword).
(** A run of characters that are neither quotes nor white space. *)
Definition bare : regex :=
  Plus true (Cls (fun c => negb (isquote c || isspace c))).
(** An optional quote, as a group. *)
Definition quote (n : nat) : regex := Group n (Opt (Cls isquote)).
(** An optional apostrophe. *)
Definition apostrophe : regex := Opt (Chr (ascii_of_nat 39)).

(** The tail shared by most patterns: white space, an optional quote
    as group [n], the name as group [n+1], and the quote again. *)
Definition quoted (n : nat) (name : regex) : list regex :=
  [quote n; Group (S n) name; Backref n].

End Re.

(** ** [commands/ai_commands.py]: the interpreter *)

Module AICommandInterpreter.
Import PyStr Py Re.

(** [self.command_patterns], in the order of the dictionary.  In the
    comments Q stands for the class of the two quote characters and N
    for the class of all characters but quotes and white space. *)
Definition command_patterns : list (string * list regex) :=
  [ ("create_dir",
      [ (* (?:create|make).*?(?:folder|directory).*?(?:called|named)?\s+(Q?)(\w+)\1 *)
        seqs ([one_of ["create"; "make"]; any_lazy;
               one_of ["folder"; "directory"]; any_lazy;
               Opt (one_of ["called"; "named"]); spaces] ++ quoted 1 word);
        (* mkdir\s+(Q?)(\w+)\1 *)
        seqs ([lit "mkdir"; spaces] ++ quoted 1 word);
        (* new\s+(?:folder|directory)\s+(Q?)(\w+)\1 *)
        seqs ([lit "new"; spaces; one_of ["folder"; "directory"]; spaces]
              ++ quoted 1 word) ]);
    ("create_file",
      [ (* (?:create|make).*?file.*?(?:called|named)?\s+(Q?)(N+)\1 *)
        seqs ([one_of ["create"; "make"]; any_lazy; lit "file"; any_lazy;
               Opt (one_of ["called"; "named"]); spaces] ++ quoted 1 bare);
        (* touch\s+(Q?)(N+)\1 *)
        seqs ([lit "touch"; spaces] ++ quoted 1 bare);
        (* new\s+file\s+(Q?)(N+)\1 *)
        seqs ([lit "new"; spaces; lit "file"; spaces] ++ quoted 1 bare) ]);
    ("list",
      [ (* (?:list|show).*?(?:files|directories|contents|what\'?s here) *)
        seqs [one_of ["list"; "show"]; any_lazy;
              alts [lit "files"; lit "directories"; lit "contents";
                    seqs [lit "what"; apostrophe; lit "s here"]]];
        (* what.*?(?:here|directory|folder) *)
        seqs [lit "what"; any_lazy; one_of ["here"; "directory"; "folder"]];
        lit "ls";
        lit "dir";
        (* show\s+me.*?(?:files|contents) *)
        seqs [lit "show"; spaces; lit "me"; any_lazy;
              one_of ["files"; "contents"]] ]);
    ("list_detailed",
      [ (* (?:list|show).*?(?:detailed|details|long) *)
        seqs [one_of ["list"; "show"]; any_lazy;
              one_of ["detailed"; "details"; "long"]];
        (* ls.*?-l *)
        seqs [lit "ls"; any_lazy; lit "-l"];
        (* detailed.*?(?:list|listing) *)
        seqs [lit "detailed"; any_lazy; one_of ["list"; "listing"]] ]);
    ("change_dir",
      [ (* (?:go|navigate|change).*?(?:to|into)\s+(Q?)(N+)\1 *)
        seqs ([one_of ["go"; "navigate"; "change"]; any_lazy;
               one_of ["to"; "into"]; spaces] ++ quoted 1 bare);
        (* cd\s+(Q?)(N+)\1 *)
        seqs ([lit "cd"; spaces] ++ quoted 1 bare);
        (* enter\s+(?:folder|directory)\s+(Q?)(N+)\1 *)
        seqs ([lit "enter"; spaces; one_of ["folder"; "directory"]; spaces]
              ++ quoted 1 bare) ]);
    ("go_home",
      [ seqs [lit "go"; spaces; lit "home"];
        seqs [lit "cd"; spaces; lit "~"];
        seqs [lit "home"; spaces; lit "directory"] ]);
    ("go_back",
      [ seqs [lit "go"; spaces; lit "back"];
        (* cd\s+\.\. *)
        seqs [lit "cd"; spaces; lit ".."];
        seqs [lit "parent"; spaces; lit "directory"];
        (* up\s+(?:one\s+)?(?:level|directory) *)
        seqs [lit "up"; spaces; Opt (seqs [lit "one"; spaces]);
              one_of ["level"; "directory"]] ]);
    ("current_dir",
      [ (* where.*?am.*?i *)
        seqs [lit "where"; any_lazy; lit "am"; any_lazy; lit "i"];
        (* current.*?(?:directory|folder|location|path) *)
        seqs [lit "current"; any_lazy;
              one_of ["directory"; "folder"; "location"; "path"]];
        lit "pwd";
        (* print.*?working.*?directory *)
        seqs [lit "print"; any_lazy; lit "working"; any_lazy;
              lit "directory"] ]);
    ("remove_file",
      [ (* (?:delete|remove).*?file\s+(Q?)(N+)\1 *)
        seqs ([one_of ["delete"; "remove"]; any_lazy; lit "file"; spaces]
              ++ quoted 1 bare);
        (* rm\s+(Q?)(N+)\1 *)
        seqs ([lit "rm"; spaces] ++ quoted 1 bare) ]);
    ("remove_dir",
      [ (* (?:delete|remove).*?(?:folder|directory)\s+(Q?)(N+)\1 *)
        seqs ([one_of ["delete"; "remove"]; any_lazy;
               one_of ["folder"; "directory"]; spaces] ++ quoted 1 bare);
        (* rmdir\s+(Q?)(N+)\1 *)
        seqs ([lit "rmdir"; spaces] ++ quoted 1 bare);
        (* rm\s+-r\s+(Q?)(N+)\1 *)
        seqs ([lit "rm"; spaces; lit "-r"; spaces] ++ quoted 1 bare) ]);
    ("copy",
      [ (* copy\s+(Q?)(N+)\1.*?(?:to|into)\s+(Q?)(N+)\3 *)
        seqs ([lit "copy"; spaces] ++ quoted 1 bare
              ++ [any_lazy; one_of ["to"; "into"]; spaces] ++ quoted 3 bare);
        (* cp\s+(Q?)(N+)\1\s+(Q?)(N+)\3 *)
        seqs ([lit "cp"; spaces] ++ quoted 1 bare ++ [spaces]
              ++ quoted 3 bare) ]);
    ("move",
      [ (* move\s+(Q?)(N+)\1.*?(?:to|into)\s+(Q?)(N+)\3 *)
        seqs ([lit "move"; spaces] ++ quoted 1 bare
              ++ [any_lazy; one_of ["to"; "into"]; spaces] ++ quoted 3 bare);
        (* mv\s+(Q?)(N+)\1\s+(Q?)(N+)\3 *)
        seqs ([lit "mv"; spaces] ++ quoted 1 bare ++ [spaces]
              ++ quoted 3 bare);
        (* rename\s+(Q?)(N+)\1.*?(?:to)\s+(Q?)(N+)\3 *)
        seqs ([lit "rename"; spaces] ++ quoted 1 bare
              ++ [any_lazy; lit "to"; spaces] ++ quoted 3 bare) ]);
    ("show_file",
      [ (* (?:show|display|cat|read).*?file\s+(Q?)(N+)\1 *)
        seqs ([one_of ["show"; "display"; "cat"; "read"]; any_lazy;
               lit "file"; spaces] ++ quoted 1 bare);
        (* cat\s+(Q?)(N+)\1 *)
        seqs ([lit "cat"; spaces] ++ quoted 1 bare);
        (* what\'?s\s+in\s+(Q?)(N+)\1 *)
        seqs ([lit "what"; apostrophe; lit "s"; spaces; lit "in"; spaces]
              ++ quoted 1 bare) ]);
    ("find_file",
      [ (* find.*?file.*?(?:called|named)\s+(Q?)(N+)\1 *)
        seqs ([lit "find"; any_lazy; lit "file"; any_lazy;
               one_of ["called"; "named"]; spaces] ++ quoted 1 bare);
        (* search.*?for.*?(Q?)(N+)\1 *)
        seqs ([lit "search"; any_lazy; lit "for"; any_lazy] ++ quoted 1 bare);
        (* locate.*?(Q?)(N+)\1 *)
        seqs ([lit "locate"; any_lazy] ++ quoted 1 bare) ]);
    ("system_info",
      [ (* (?:show|display).*?system.*?(?:info|information) *)
        seqs [one_of ["show"; "display"]; any_lazy; lit "system"; any_lazy;
              one_of ["info"; "information"]];
        lit "sysinfo";
        seqs [lit "system"; spaces; lit "details"];
        seqs [lit "computer"; spaces; lit "info"] ]);
    ("processes",
      [ (* (?:show|list).*?(?:processes|running\s+programs) *)
        seqs [one_of ["show"; "list"]; any_lazy;
              alts [lit "processes";
                    seqs [lit "running"; spaces; lit "programs"]]];
        lit "ps";
        (* what.*?running *)
        seqs [lit "what"; any_lazy; lit "running"];
        seqs [lit "active"; spaces; lit "processes"] ]);
    ("memory",
      [ (* (?:show|check).*?memory.*?usage *)
        seqs [one_of ["show"; "check"]; any_lazy; lit "memory"; any_lazy;
              lit "usage"];
        seqs [lit "free"; spaces; lit "memory"];
        seqs [lit "ram"; spaces; lit "usage"];
        seqs [lit "memory"; spaces; lit "info"] ]);
    ("disk_space",
      [ (* (?:show|check).*?disk.*?(?:space|usage) *)
        seqs [one_of ["show"; "check"]; any_lazy; lit "disk"; any_lazy;
              one_of ["space"; "usage"]];
        lit "df";
        seqs [lit "storage"; spaces; lit "info"];
        seqs [lit "free"; spaces; lit "space"] ]);
    ("clear_screen",
      [ (* clear.*?(?:screen|terminal) *)
        seqs [lit "clear"; any_lazy; one_of ["screen"; "terminal"]];
        lit "cls";
        (* clean.*?screen *)
        seqs [lit "clean"; any_lazy; lit "screen"] ]);
    ("help",
      [ lit "help";
        (* what.*?can.*?do *)
        seqs [lit "what"; any_lazy; lit "can"; any_lazy; lit "do"];
        (* available.*?commands *)
        seqs [lit "available"; any_lazy; lit "commands"];
        (* show.*?commands *)
        seqs [lit "show"; any_lazy; lit "commands"] ]) ].

(** [self.shortcuts] *)
Definition shortcuts : PyDict.t string :=
  [ ("desktop", "Desktop"); ("documents", "Documents");
    ("downloads", "Downloads"); ("home", "~"); ("root", "/");
    ("temp", "/tmp"); ("temporary", "/tmp") ].

(** [normalize_path]: [path.lower()] raises on [None]. *)
Definition normalize_path (path : pyval) : pyres pyval :=
  match path with
  | VStr p =>
      match PyDict.get (lower p) shortcuts with
      | Some target => Ok (VStr target)
      | None => Ok (VStr p)
      end
  | _ => Raise "'NoneType' object has no attribute 'lower'"
  end.

(** The choice every branch of [_process_match] makes among
    [match.groups()]: [groups[1] or groups[0]] when there are two
    groups or more, else [groups[0]] if there is one, else a default. *)
Definition pick (groups : list pyval) (default : pyval) : pyval :=
  match groups with
  | g0 :: g1 :: _ => py_or g1 g0
  | [g0] => g0
  | [] => default
  end.

(** The branches for [copy] and [move]. *)
Definition pick_pair (cmd : string) (groups : list pyval)
  : option string * pyval :=
  match groups with
  | g0 :: g1 :: g2 :: g3 :: _ =>
      (Some cmd, VList [py_or g1 g0; py_or g3 g2])
  | _ => (None, VList [])
  end.

(** [_process_match(command_type, match, query)]; [groups] is
    [match.groups()].  The command is a string or [None]; the
    arguments are any value: in the branches for [remove_file],
    [remove_dir] and [show_file] the conditional expression is the
    second component of the returned pair. *)
Definition _process_match (command_type : string) (groups : list pyval)
  : pyres (option string * pyval) :=
  if String.eqb command_type "create_dir" then
    match normalize_path (pick groups (VStr "newfolder")) with
    | Ok d => Ok (Some "mkdir", VList [d])
    | Raise e => Raise e
    end
  else if String.eqb command_type "create_file" then
    Ok (Some "touch", VList [pick groups (VStr "newfile.txt")])
  else if String.eqb command_type "list" then Ok (Some "ls", VList [])
  else if String.eqb command_type "list_detailed" then
    Ok (Some "ls", VList [VStr "-l"])
  else if String.eqb command_type "change_dir" then
    match normalize_path (pick groups (VStr ".")) with
    | Ok d => Ok (Some "cd", VList [d])
    | Raise e => Raise e
    end
  else if String.eqb command_type "go_home" then
    Ok (Some "cd", VList [VStr "~"])
  else if String.eqb command_type "go_back" then
    Ok (Some "cd", VList [VStr ".."])
  else if String.eqb command_type "current_dir" then Ok (Some "pwd", VList [])
  else if String.eqb command_type "remove_file" then
    let file_name := pick groups (VStr "") in
    Ok (Some "rm",
        if truthy file_name then VList [file_name]
        else VTuple [VStr "rm"; VList []])
  else if String.eqb command_type "remove_dir" then
    let dir_name := pick groups (VStr "") in
    Ok (Some "rm",
        if truthy dir_name then VList [VStr "-r"; dir_name]
        else VTuple [VStr "rm"; VList [VStr "-r"]])
  else if String.eqb command_type "copy" then Ok (pick_pair "cp" groups)
  else if String.eqb command_type "move" then Ok (pick_pair "mv" groups)
  else if String.eqb command_type "show_file" then
    let file_name := pick groups (VStr "") in
    Ok (Some "cat",
        if truthy file_name then VList [file_name]
        else VTuple [VStr "cat"; VList []])
  else if String.eqb command_type "find_file" then
    Ok (Some "find", VList [pick groups (VStr "*")])
  else if String.eqb command_type "system_info" then
    Ok (Some "sysinfo", VList [])
  else if String.eqb command_type "processes" then Ok (Some "ps", VList [])
  else if String.eqb command_type "memory" then Ok (Some "free", VList [])
  else if String.eqb command_type "disk_space" then Ok (Some "df", VList [])
  else if String.eqb command_type "clear_screen" then
    Ok (Some "clear", VList [])
  else if String.eqb command_type "help" then Ok (Some "help", VList [])
  else Ok (None, VList []).

(** [if cmd:] on a string or [None]. *)
Definition nonempty (cmd : option string) : option string :=
  match cmd with
  | Some c => if String.eqb c "" then None else Some c
  | None => None
  end.

(** The two loops of [interpret]: the first pattern that matches and
    whose command is not empty ends them. *)
Fixpoint try_patterns (command_type : string) (patterns : list regex)
  (query : string) : pyres (option (string * pyval)) :=
  match patterns with
  | [] => Ok None
  | pattern :: rest =>
      match search pattern query with
      | Some groups =>
          match _process_match command_type groups with
          | Raise e => Raise e
          | Ok (cmd, args) =>
              match nonempty cmd with
              | Some c => Ok (Some (c, args))
              | None => try_patterns command_type rest query
              end
          end
      | None => try_patterns command_type rest query
      end
  end.

Fixpoint try_types (table : list (string * list regex)) (query : string)
  : pyres (option (string * pyval)) :=
  match table with
  | [] => Ok None
  | (command_type, patterns) :: rest =>
      match try_patterns command_type patterns query with
      | Raise e => Raise e
      | Ok (Some c) => Ok (Some c)
      | Ok None => try_types rest query
      end
  end.

(** [for word in words: if word not in stop: ...; break] *)
Definition first_other (stop words : list string) : option string :=
  find (fun w => negb (mem w stop)) words.

(** The part of [interpret] after the loops. *)
Definition fallback (query : string) : list (string * pyval) :=
  let words := split_ws (lower query) in
  if mem "create" words || mem "make" words then
    if mem "folder" words || mem "directory" words then
      match first_other ["create"; "make"; "a"; "folder"; "directory";
                         "called"; "named"] words with
      | Some w => [("mkdir", VList [VStr w])]
      | None => []
      end
    else if mem "file" words then
      match first_other ["create"; "make"; "a"; "file"; "called"; "named"]
              words with
      | Some w => [("touch", VList [VStr w])]
      | None => []
      end
    else []
  else [].

Definition interpret (query : string) : pyres (list (string * pyval)) :=
  let query := strip query in
  if String.eqb query "" then Ok []
  else
    match try_types command_patterns query with
    | Raise e => Raise e
    | Ok (Some c) => Ok [c]
    | Ok None => Ok (fallback query)
    end.

End AICommandInterpreter.

(** ** [shlex.split] and [utils/command_parser.py]

    [shlex.split(s)] runs the tokenizer of the standard library in POSIX
    mode, splitting on white space only and without comment characters.
    [lex] is its loop [read_token], run over the whole input: a token
    that [read_token] returns goes in front of the tokens read after
    it. *)

Module CommandParser.
Import PyStr Py.

(** [self.state]: [' '], ['a'], a quote character or the escape
    character. *)
Inductive state : Type :=
| InSpace
| InWord
| InQuote (q : ascii)
| InEscape.

(** [self.whitespace], [self.quotes], [self.escape], [self.escapedquotes] *)
Definition is_whitespace (c : ascii) : bool :=
  Nat.eqb (nat_of_ascii c) 32 || Nat.eqb (nat_of_ascii c) 9
  || Nat.eqb (nat_of_ascii c) 13 || Nat.eqb (nat_of_ascii c) 10.

Definition is_quote (c : ascii) : bool :=
  Nat.eqb (nat_of_ascii c) 39 || Nat.eqb (nat_of_ascii c) 34.

Definition is_escape (c : ascii) : bool := Nat.eqb (nat_of_ascii c) 92.

Definition is_escapedquote (c : ascii) : bool := Nat.eqb (nat_of_ascii c) 34.

Definition backslash : ascii := ascii_of_nat 92.

Definition snoc (token : string) (c : ascii) : string :=
  (token ++ String c "")%string.

(** What [read_token] returns at a [break]: the token, or the end of
    the input when the token is empty and nothing was quoted. *)
Definition emit (token : string) (quoted : bool) (rest : pyres (list string))
  : pyres (list string) :=
  if negb quoted && String.eqb token "" then Ok []
  else match rest with
       | Ok toks => Ok (token :: toks)
       | Raise e => Raise e
       end.

(** [esc] is [escapedstate]. *)
Fixpoint lex (s : string) (st esc : state) (token : string) (quoted : bool)
  : pyres (list string) :=
  match s with
  | EmptyString =>
      match st with
      | InSpace | InWord => emit token quoted (Ok [])
      | InQuote _ => Raise "No closing quotation"
      | InEscape => Raise "No escaped character"
      end
  | String c s' =>
      match st with
      | InSpace =>
          if is_whitespace c then
            if negb (String.eqb token "") || quoted
            then emit token quoted (lex s' InSpace InSpace "" false)
            else lex s' InSpace esc token quoted
          else if is_escape c then lex s' InEscape InWord token quoted
          else if is_quote c then lex s' (InQuote c) esc token quoted
          else lex s' InWord esc (String c "") quoted
      | InWord =>
          if is_whitespace c then
            if negb (String.eqb token "") || quoted
            then emit token quoted (lex s' InSpace InSpace "" false)
            else lex s' InSpace esc token quoted
          else if is_quote c then lex s' (InQuote c) esc token quoted
          else if is_escape c then lex s' InEscape InWord token quoted
          else lex s' InWord esc (snoc token c) quoted
      | InQuote q =>
          if Ascii.eqb c q then lex s' InWord esc token true
          else if is_escape c && is_escapedquote q
          then lex s' InEscape (InQuote q) token true
          else lex s' (InQuote q) esc (snoc token c) true
      | InEscape =>
          let token' :=
            match esc with
            | InQuote q =>
                if negb (Ascii.eqb c backslash) && negb (Ascii.eqb c q)
                then snoc token backslash
                else token
            | _ => token
            end in
          lex s' esc esc (snoc token' c) quoted
      end
  end.

Definition shlex_split (s : string) : pyres (list string) :=
  lex s InSpace InSpace "" false.

(** [CommandParser.parse]: a [ValueError] of [shlex] is raised again
    with a longer message. *)
Definition parse (command_line : string) : pyres (string * list string) :=
  if String.eqb (strip command_line) "" then Ok ("", [])
  else
    match shlex_split (strip command_line) with
    | Ok [] => Ok ("", [])
    | Ok (command :: args) => Ok (command, args)
    | Raise e => Raise ("Invalid command syntax: " ++ e)
    end.


(** [s[n:]] *)
Definition slice_from (n : nat) (s : string) : string :=
  substring n (String.length s - n) s.

(** The loop of [parse_redirections] over [args]: an operator that
    stands alone takes the next argument as its target and both are
    passed over ([i += 2]); [redirections] is the dictionary. *)
Fixpoint redirections_loop (args clean_args : list string)
  (redirections : PyDict.t string) : list string * PyDict.t string :=
  match args with
  | [] => (clean_args, redirections)
  | arg :: rest =>
      if String.eqb arg ">" then
        match rest with
        | target :: rest' =>
            redirections_loop rest' clean_args
              (PyDict.set "stdout" target redirections)
        | [] => redirections_loop rest (clean_args ++ [arg]) redirections
        end
      else if String.eqb arg ">>" then
        match rest with
        | target :: rest' =>
            redirections_loop rest' clean_args
              (PyDict.set "stdout_append" target redirections)
        | [] => redirections_loop rest (clean_args ++ [arg]) redirections
        end
      else if String.eqb arg "2>" then
        match rest with
        | target :: rest' =>
            redirections_loop rest' clean_args
              (PyDict.set "stderr" target redirections)
        | [] => redirections_loop rest (clean_args ++ [arg]) redirections
        end
      else if String.eqb arg "<" then
        match rest with
        | target :: rest' =>
            redirections_loop rest' clean_args
              (PyDict.set "stdin" target redirections)
        | [] => redirections_loop rest (clean_args ++ [arg]) redirections
        end
      else if startswith arg ">" then
        redirections_loop rest clean_args
          (PyDict.set "stdout" (slice_from 1 arg) redirections)
      else if startswith arg ">>" then
        redirections_loop rest clean_args
          (PyDict.set "stdout_append" (slice_from 2 arg) redirections)
      else if startswith arg "2>" then
        redirections_loop rest clean_args
          (PyDict.set "stderr" (slice_from 2 arg) redirections)
      else if startswith arg "<" then
        redirections_loop rest clean_args
          (PyDict.set "stdin" (slice_from 1 arg) redirections)
      else redirections_loop rest (clean_args ++ [arg]) redirections
  end.

Definition parse_redirections (args : list string)
  : list string * PyDict.t string :=
  redirections_loop args [] [].

(** [is_background_command] *)
Definition is_background_command (command_line : string) : string * bool :=
  let command_line := strip command_line in
  if endswith command_line "&" then
    (strip (substring 0 (String.length command_line - 1) command_line), true)
  else (command_line, false).

End CommandParser.

(** ** [terminal_core.py] and the [ai] command

    What lies outside the program is a parameter of the session: the
    state [Backend] on which the commands of [FileOperations] and
    [SystemCommands] work (the virtual file system, or the host), these
    commands themselves ([external]), [os.system] for clearing the
    screen, [subprocess.run], and four texts: the two help texts and
    the two symbols of the [ai] output that are no characters of the
    model. *)

Module Terminal.
Import PyStr Py CommandParser AICommandInterpreter.

(** The ways [subprocess.run(..., timeout=10)] ends. *)
Inductive run_outcome : Type :=
| Completed (returncode : nat) (stdout stderr : string)
| TimeoutExpired
| RunError (msg : string).

(** The handlers of the command table. *)
Inductive handler : Type :=
| External (name : string)
| Ai
| Echo
| Clear
| Help
| History
| Exit.

(** [_register_commands] *)
Definition commands : PyDict.t handler :=
  [ ("ls", External "ls"); ("cd", External "cd"); ("pwd", External "pwd");
    ("mkdir", External "mkdir"); ("rm", External "rm");
    ("rmdir", External "rmdir"); ("touch", External "touch");
    ("cat", External "cat"); ("cp", External "cp"); ("mv", External "mv");
    ("find", External "find"); ("grep", External "grep");
    ("ps", External "ps"); ("top", External "top"); ("kill", External "kill");
    ("sysinfo", External "sysinfo"); ("df", External "df");
    ("free", External "free"); ("uptime", External "uptime");
    ("whoami", External "whoami"); ("date", External "date");
    ("env", External "env");
    ("ai", Ai); ("echo", Echo); ("clear", Clear); ("cls", Clear);
    ("help", Help); ("history", History); ("exit", Exit); ("quit", Exit) ].

(** [needle in hay] on strings. *)
Fixpoint contains (hay needle : string) : bool :=
  startswith hay needle
  || match hay with
     | EmptyString => false
     | String _ hay' => contains hay' needle
     end.

(** [str(n)] and the format [{n:4d}]. *)
Definition str_of_nat (n : nat) : string :=
  NilEmpty.string_of_uint (Nat.to_uint n).

Fixpoint spaces_of (n : nat) : string :=
  match n with O => "" | S n' => String " " (spaces_of n') end.

Definition fmt4 (n : nat) : string :=
  let d := str_of_nat n in (spaces_of (4 - String.length d) ++ d)%string.

Fixpoint chars (s : string) : list string :=
  match s with
  | EmptyString => []
  | String c s' => String c "" :: chars s'
  end.

Definition type_name (v : pyval) : string :=
  match v with
  | VNone => "NoneType"
  | VStr _ => "str"
  | VList _ => "list"
  | VTuple _ => "tuple"
  end.

(** The items of [' '.join(items)], which have to be strings. *)
Fixpoint str_items (i : nat) (items : list pyval) : pyres (list string) :=
  match items with
  | [] => Ok []
  | VStr s :: rest =>
      match str_items (S i) rest with
      | Ok l => Ok (s :: l)
      | Raise e => Raise e
      end
  | v :: _ =>
      Raise ("sequence item " ++ str_of_nat i ++ ": expected str instance, "
             ++ type_name v ++ " found")
  end.

(** [' '.join(cmd_args)] *)
Definition join_args (cmd_args : pyval) : pyres string :=
  match cmd_args with
  | VList l | VTuple l =>
      match str_items 0 l with
      | Ok items => Ok (join " " items)
      | Raise e => Raise e
      end
  | VStr s => Ok (join " " (chars s))
  | VNone => Raise "can only join an iterable"
  end.

(** [cmd_str] in [cmd_ai] *)
Definition command_string (cmd : string) (cmd_args : pyval) : pyres string :=
  if truthy cmd_args then
    match join_args cmd_args with
    | Ok j => Ok (cmd ++ " " ++ j)%string
    | Raise e => Raise e
    end
  else Ok cmd.

(** [get_suggestions] *)
Definition suggestion_map : PyDict.t (list string) :=
  [ ("create", ["create folder myproject"; "create file readme.txt"]);
    ("make", ["make directory docs"; "make file script.py"]);
    ("list", ["list files"; "show directory contents"]);
    ("show", ["show files"; "show system info"; "show processes"]);
    ("copy", ["copy file1.txt to backup/"; "copy folder1 to archive/"]);
    ("move", ["move file.txt to documents/"; "rename old.txt to new.txt"]);
    ("delete", ["delete file unwanted.txt"; "remove folder oldstuff"]);
    ("find", ["find file *.py"; "search for readme"]);
    ("go", ["go to documents"; "go home"; "go back"]) ].

Definition get_suggestions (query : string) : list string :=
  let query_lower := lower query in
  firstn 5
    (flat_map (fun e => if contains query_lower (fst e) then snd e else [])
       suggestion_map).

Section Session.
Variable Backend : Type.
Variable external : string -> list string -> Backend -> pyres string * Backend.
Variable os_system_clear : Backend -> Backend.
Variable subprocess_run : string -> Backend -> run_outcome * Backend.
Variables help_text ai_usage arrow bullet : string.

Record Terminal : Type := mkTerminal {
  use_virtual : bool;
  running : bool;
  command_history : list string;
  backend : Backend
}.

Definition with_backend (t : Terminal) (b : Backend) : Terminal :=
  mkTerminal (use_virtual t) (running t) (command_history t) b.

Definition with_history (t : Terminal) (h : list string) : Terminal :=
  mkTerminal (use_virtual t) (running t) h (backend t).

(** [_cmd_history] *)
Fixpoint history_lines (i : nat) (lines : list string) : list string :=
  match lines with
  | [] => []
  | cmd :: rest =>
      (Colors.CYAN ++ fmt4 i ++ Colors.RESET ++ "  " ++ cmd)%string
      :: history_lines (S i) rest
  end.

Definition _cmd_history (t : Terminal) : string :=
  match command_history t with
  | [] => "No command history"
  | _ :: _ =>
      let start_idx := List.length (command_history t) - 20 in
      join VirtualFS.LF (history_lines (start_idx + 1)
                  (skipn start_idx (command_history t)))
  end.

(** The text [cmd_ai] returns when the query gave no command. *)
Definition not_understood (query : string) : string :=
  let head :=
    (Colors.YELLOW ++ "AI:" ++ Colors.RESET
     ++ " I couldn't understand that command." ++ VirtualFS.LF)%string in
  let body :=
    match get_suggestions query with
    | [] =>
        (VirtualFS.LF ++ Colors.CYAN ++ "Try something like:" ++ Colors.RESET ++ VirtualFS.LF
         ++ "  " ++ bullet ++ " ai create folder myproject" ++ VirtualFS.LF
         ++ "  " ++ bullet ++ " ai show files in current directory" ++ VirtualFS.LF
         ++ "  " ++ bullet ++ " ai copy file.txt to backup" ++ VirtualFS.LF
         ++ "  " ++ bullet ++ " ai find files named *.py" ++ VirtualFS.LF)%string
    | suggestions =>
        (VirtualFS.LF ++ Colors.CYAN ++ "Did you mean:" ++ Colors.RESET ++ VirtualFS.LF
         ++ String.concat ""
              (map (fun s => "  " ++ bullet ++ " ai " ++ s ++ VirtualFS.LF) suggestions))%string
    end in
  rstrip_by isspace (head ++ body).

Definition indent (result : string) : string :=
  join VirtualFS.LF (map (fun line => "  " ++ line)%string (split_on (ascii_of_nat 10) result)).

(** The loop of [cmd_ai] over the interpreted commands; [exec] is
    [self.terminal.execute]. *)
Fixpoint ai_loop (exec : Terminal -> string -> option (string * Terminal))
  (cmds : list (string * pyval)) (outputs : list string) (t : Terminal)
  : option (pyres (list string) * Terminal) :=
  match cmds with
  | [] => Some (Ok outputs, t)
  | (cmd, cmd_args) :: rest =>
      match command_string cmd cmd_args with
      | Raise e => Some (Raise e, t)
      | Ok cmd_str =>
          let outputs :=
            outputs ++ [(Colors.GREEN ++ arrow ++ Colors.RESET
                         ++ " Executing: " ++ Colors.BOLD ++ cmd_str
                         ++ Colors.RESET)%string] in
          match exec t cmd_str with
          | None => None
          | Some (result, t') =>
              ai_loop exec rest
                (if String.eqb result "" then outputs
                 else outputs ++ [indent result]) t'
          end
      end
  end.

Definition cmd_ai (exec : Terminal -> string -> option (string * Terminal))
  (args : list string) (t : Terminal) : option (pyres string * Terminal) :=
  match args with
  | [] => Some (Ok ai_usage, t)
  | _ :: _ =>
      let query := join " " args in
      match interpret query with
      | Raise e => Some (Raise e, t)
      | Ok [] => Some (Ok (not_understood query), t)
      | Ok cmds =>
          match ai_loop exec cmds
                  [(Colors.CYAN ++ "AI:" ++ Colors.RESET ++ " Interpreting: "
                    ++ Colors.YELLOW ++ "'" ++ query ++ "'"
                    ++ Colors.RESET)%string] t with
          | None => None
          | Some (Ok outputs, t') => Some (Ok (join VirtualFS.LF outputs), t')
          | Some (Raise e, t') => Some (Raise e, t')
          end
      end
  end.

(** [self.commands[cmd](args)] *)
Definition run_handler
  (exec : Terminal -> string -> option (string * Terminal))
  (h : handler) (args : list string) (t : Terminal)
  : option (pyres string * Terminal) :=
  match h with
  | External name =>
      let '(r, b) := external name args (backend t) in
      Some (r, with_backend t b)
  | Ai => cmd_ai exec args t
  | Echo => Some (Ok (join " " args), t)
  | Clear => Some (Ok "", with_backend t (os_system_clear (backend t)))
  | Help => Some (Ok help_text, t)
  | History => Some (Ok (_cmd_history t), t)
  | Exit =>
      Some (Ok (Colors.GREEN ++ "Goodbye!" ++ Colors.RESET)%string,
            mkTerminal (use_virtual t) false (command_history t) (backend t))
  end.

(** The text for an unregistered command in a session on the host. *)
Definition host_shell (command_line : string) (t : Terminal)
  : string * Terminal :=
  let '(outcome, b) := subprocess_run command_line (backend t) in
  (match outcome with
   | Completed 0 stdout _ => strip stdout
   | Completed _ _ stderr =>
       (Colors.RED ++ "Command failed: " ++ strip stderr ++ Colors.RESET)%string
   | TimeoutExpired => (Colors.RED ++ "Command timed out" ++ Colors.RESET)%string
   | RunError e =>
       (Colors.RED ++ "System command error: " ++ e ++ Colors.RESET)%string
   end, with_backend t b).

(** [execute].  The [ai] handler calls [execute] again; [depth] bounds
    the nesting of these calls, and [None] is a nesting beyond it. *)
Fixpoint execute (depth : nat) (t : Terminal) (command_line : string)
  : option (string * Terminal) :=
  match depth with
  | O => None
  | S depth' =>
      if String.eqb (strip command_line) "" then Some ("", t)
      else
        match parse command_line with
        | Raise e =>
            Some ((Colors.RED ++ "Parse error: " ++ e ++ Colors.RESET)%string,
                  t)
        | Ok (cmd, args) =>
            let t := with_history t (command_history t ++ [command_line]) in
            match PyDict.get cmd commands with
            | Some h =>
                match run_handler (execute depth') h args t with
                | None => None
                | Some (Ok result, t') => Some (result, t')
                | Some (Raise e, t') =>
                    Some ((Colors.RED ++ "Error executing " ++ cmd ++ ": "
                           ++ e ++ Colors.RESET)%string, t')
                end
            | None =>
                if negb (use_virtual t) then Some (host_shell command_line t)
                else
                  Some ((Colors.RED ++ "Command not found: " ++ cmd
                         ++ Colors.RESET)%string, t)
            end
        end
  end.

End Session.

End Terminal.

(** * Properties *)

(** ** Strings and dictionaries *)

Module PyFacts.
Import PyStr.

Lemma eqb_refl_true (s : string) : String.eqb s s = true.
Proof. apply String.eqb_refl. Qed.

Lemma split_on_not_nil (sep : ascii) (s : string) : split_on sep s <> [].
Proof.
  destruct s as [|c s]; simpl; [discriminate|].
  destruct (Ascii.eqb c sep); [discriminate|].
  destruct (split_on sep s); discriminate.
Qed.

Lemma split_on_no_sep (sep : ascii) (s : string) :
  Forall (fun f => contains_char sep f = false) (split_on sep s).
Proof.
  induction s as [|c s IH]; simpl.
  - constructor; [reflexivity|constructor].
  - destruct (Ascii.eqb c sep) eqn:E.
    + constructor; [reflexivity|exact IH].
    + destruct (split_on sep s) as [|h t].
      * constructor; [simpl; rewrite E; reflexivity|constructor].
      * inversion IH; subst. constructor; [simpl; rewrite E; assumption|assumption].
Qed.

Lemma split_on_plain (sep : ascii) (s : string) :
  contains_char sep s = false -> split_on sep s = [s].
Proof.
  induction s as [|c s IH]; simpl; [reflexivity|].
  intros H. apply orb_false_iff in H as [H1 H2].
  rewrite H1, (IH H2). reflexivity.
Qed.

Lemma split_on_app (sep : ascii) (a rest : string) :
  contains_char sep a = false ->
  split_on sep (a ++ String sep rest) = a :: split_on sep rest.
Proof.
  induction a as [|c a IH]; simpl; intros H.
  - rewrite Ascii.eqb_refl. reflexivity.
  - apply orb_false_iff in H as [H1 H2].
    rewrite H1, (IH H2). reflexivity.
Qed.

Lemma split_on_join (ps : list string) :
  ps <> [] ->
  Forall (fun f => contains_char "/" f = false) ps ->
  split_on "/" (join "/" ps) = ps.
Proof.
  induction ps as [|p ps IH]; [congruence|].
  intros _ H. inversion H as [|? ? Hp Hps]; subst.
  destruct ps as [|q ps].
  - simpl. apply split_on_plain; assumption.
  - change (join "/" (p :: q :: ps)) with (p ++ String "/" (join "/" (q :: ps)))%string.
    rewrite split_on_app by assumption.
    rewrite IH; [reflexivity|discriminate|assumption].
Qed.

Lemma join_empty (ps : list string) :
  Forall (fun f => f <> "") ps -> join "/" ps = "" -> ps = [].
Proof.
  destruct ps as [|p ps]; [reflexivity|].
  intros H E. inversion H as [|? ? Hp _]; subst. exfalso.
  destruct ps as [|q ps]; simpl in E.
  - contradiction.
  - destruct p; [contradiction|discriminate].
Qed.

Section DictFacts.
Context {V : Type}.
Implicit Types (d : PyDict.t V) (k : string) (v : V).

Lemma get_set_same k v d : PyDict.get k (PyDict.set k v d) = Some v.
Proof.
  induction d as [|[k' v'] d IH]; simpl.
  - rewrite String.eqb_refl. reflexivity.
  - destruct (String.eqb k' k) eqn:E; simpl.
    + rewrite String.eqb_refl. reflexivity.
    + rewrite E. exact IH.
Qed.

Lemma get_set_other k k' v d :
  k' <> k -> PyDict.get k' (PyDict.set k v d) = PyDict.get k' d.
Proof.
  intros Hne. induction d as [|[k0 v0] d IH]; simpl.
  - destruct (String.eqb k k') eqn:E; [|reflexivity].
    apply String.eqb_eq in E. congruence.
  - destruct (String.eqb k0 k) eqn:E; simpl.
    + apply String.eqb_eq in E. subst k0.
      destruct (String.eqb k k') eqn:E'; [|reflexivity].
      apply String.eqb_eq in E'. congruence.
    + destruct (String.eqb k0 k'); [reflexivity|exact IH].
Qed.

Lemma get_del_same k d : PyDict.get k (PyDict.del k d) = None.
Proof.
  unfold PyDict.del.
  induction d as [|[k' v'] d IH]; simpl; [reflexivity|].
  destruct (String.eqb k' k) eqn:E; simpl; [exact IH|].
  rewrite E. exact IH.
Qed.

Lemma get_del_other k k' d :
  k' <> k -> PyDict.get k' (PyDict.del k d) = PyDict.get k' d.
Proof.
  intros Hne. unfold PyDict.del.
  induction d as [|[k0 v0] d IH]; simpl; [reflexivity|].
  destruct (String.eqb k0 k) eqn:E; simpl.
  - apply String.eqb_eq in E. subst k0.
    destruct (String.eqb k k') eqn:E'; [|exact IH].
    apply String.eqb_eq in E'. congruence.
  - destruct (String.eqb k0 k'); [reflexivity|exact IH].
Qed.

End DictFacts.

End PyFacts.

(** ** Path normalization *)

Module NormalizeFacts.
Import PyStr PosixPath VirtualFS PyFacts.

(** A path component that [normalize_path] keeps. *)
Definition clean (s : string) : Prop :=
  s <> "" /\ s <> "." /\ s <> ".." /\ contains_char "/" s = false.

Lemma Forall_removelast {A} (P : A -> Prop) (l : list A) :
  Forall P l -> Forall P (removelast l).
Proof.
  induction l as [|x l IH]; simpl; intros H; [constructor|].
  inversion H; subst. destruct l; [constructor|].
  constructor; auto.
Qed.

Lemma normalize_loop_clean (segs parts : list string) :
  Forall (fun f => contains_char "/" f = false) segs ->
  Forall clean parts ->
  Forall clean (normalize_loop segs parts).
Proof.
  revert parts. induction segs as [|s segs IH]; simpl; intros parts Hs Hp.
  - exact Hp.
  - inversion Hs as [|? ? Hs1 Hs2]; subst.
    destruct (String.eqb s "") eqn:E1; simpl; [auto|].
    destruct (String.eqb s ".") eqn:E2; simpl; [auto|].
    destruct (String.eqb s "..") eqn:E3.
    + destruct parts as [|q parts]; [auto|].
      destruct (negb (String.eqb (last (q :: parts) "") "..")); [|auto].
      apply IH; [assumption|]. apply Forall_removelast. assumption.
    + apply IH; [assumption|].
      apply Forall_app. split; [assumption|].
      constructor; [|constructor].
      apply String.eqb_neq in E1, E2, E3. repeat split; assumption.
Qed.

Lemma normalize_loop_of_clean (segs parts : list string) :
  Forall clean segs -> normalize_loop segs parts = parts ++ segs.
Proof.
  revert parts. induction segs as [|s segs IH]; simpl; intros parts H.
  - rewrite app_nil_r. reflexivity.
  - inversion H as [|? ? [H1 [H2 [H3 _]]] Hs]; subst.
    apply String.eqb_neq in H1, H2, H3. rewrite H1, H2, H3. simpl.
    rewrite (IH _ Hs), <- app_assoc. reflexivity.
Qed.

Lemma normalize_loop_exc_total (segs parts : list string) :
  normalize_loop_exc segs parts = Some (normalize_loop segs parts).
Proof.
  revert parts. induction segs as [|s segs IH]; simpl; intros parts.
  - reflexivity.
  - destruct (String.eqb s "" || String.eqb s "."); [apply IH|].
    destruct (String.eqb s ".."); [|apply IH].
    destruct parts as [|q parts]; [apply IH|].
    cbn [List.length Nat.eqb negb andb py_pop].
    destruct (negb (String.eqb (last (q :: parts) "") "..")); apply IH.
Qed.

(** The parts [normalize_path] joins. *)
Definition parts_of (cur path : string) : list string :=
  normalize_loop
    (split_on "/" (if negb (startswith path "/") then join2 cur path else path))
    [].

Lemma parts_of_clean (cur path : string) : Forall clean (parts_of cur path).
Proof.
  apply normalize_loop_clean; [apply split_on_no_sep|constructor].
Qed.

Lemma clean_nonempty (ps : list string) :
  Forall clean ps -> Forall (fun f => f <> "") ps.
Proof. apply Forall_impl. intros s [H _]. exact H. Qed.

Lemma clean_noslash (ps : list string) :
  Forall clean ps -> Forall (fun f => contains_char "/" f = false) ps.
Proof. apply Forall_impl. intros s [_ [_ [_ H]]]. exact H. Qed.

Lemma final_guard (ps : list string) :
  Forall clean ps ->
  (if negb (String.eqb ("/" ++ join "/" ps) "/") || Nat.eqb (List.length ps) 0
   then ("/" ++ join "/" ps)%string
   else rstrip_by (is_char "/") ("/" ++ join "/" ps))
  = ("/" ++ join "/" ps)%string.
Proof.
  intros H.
  destruct (String.eqb ("/" ++ join "/" ps) "/") eqn:E; simpl; [|reflexivity].
  apply String.eqb_eq in E. injection E as E.
  rewrite (join_empty ps (clean_nonempty _ H) E). reflexivity.
Qed.

Lemma normalize_from_eq (cur path : string) :
  normalize_from cur path = ("/" ++ join "/" (parts_of cur path))%string.
Proof.
  unfold normalize_from. fold (parts_of cur path).
  apply final_guard, parts_of_clean.
Qed.

Lemma parts_of_normal (cur : string) (ps : list string) :
  Forall clean ps -> parts_of cur ("/" ++ join "/" ps) = ps.
Proof.
  intros H. unfold parts_of.
  replace (startswith ("/" ++ join "/" ps) "/") with true by reflexivity.
  simpl negb. cbv iota.
  change (split_on "/" ("/" ++ join "/" ps))
    with (EmptyString :: split_on "/" (join "/" ps)).
  destruct ps as [|p ps].
  - reflexivity.
  - rewrite split_on_join; [|discriminate|apply clean_noslash; assumption].
    change (normalize_loop ("" :: p :: ps) [])
      with (normalize_loop (p :: ps) []).
    rewrite normalize_loop_of_clean by assumption. reflexivity.
Qed.

Lemma normalize_from_idem (cur cur' path : string) :
  normalize_from cur' (normalize_from cur path) = normalize_from cur path.
Proof.
  rewrite (normalize_from_eq cur path), normalize_from_eq.
  rewrite parts_of_normal by apply parts_of_clean. reflexivity.
Qed.

Lemma normalize_from_segments (cur path : string) :
  split_on "/" (normalize_from cur path) = "" :: parts_of cur path
  \/ normalize_from cur path = "/".
Proof.
  rewrite normalize_from_eq.
  destruct (parts_of cur path) as [|p ps] eqn:E.
  - right. reflexivity.
  - left.
    change (split_on "/" ("/" ++ join "/" (p :: ps)))
      with (EmptyString :: split_on "/" (join "/" (p :: ps))).
    rewrite split_on_join; [reflexivity|discriminate|].
    apply clean_noslash. rewrite <- E. apply parts_of_clean.
Qed.

(** C4: [normalize_path] is idempotent; the loop never pops an empty
    list, so the run with the [IndexError] made explicit returns the
    same path; the result is absolute and none of its components is
    [".."]; and a [".."] met at the root leaves the path at the root. *)
Theorem normalize_path_idempotent (fs : VirtualFileSystem) (p : string) :
  normalize_path fs (normalize_path fs p) = normalize_path fs p
  /\ normalize_from_exc (current_path fs) p = Some (normalize_path fs p)
  /\ startswith (normalize_path fs p) "/" = true
  /\ ~ In ".." (split_on "/" (normalize_path fs p))
  /\ normalize_path fs ("/../" ++ p) = normalize_path fs ("/" ++ p).
Proof.
  unfold normalize_path. split; [|split; [|split; [|split]]].
  - apply normalize_from_idem.
  - unfold normalize_from_exc, normalize_from.
    rewrite normalize_loop_exc_total. reflexivity.
  - rewrite normalize_from_eq. reflexivity.
  - destruct (normalize_from_segments (current_path fs) p) as [E|E]; rewrite E.
    + intros [H|H]; [discriminate|].
      pose proof (parts_of_clean (current_path fs) p) as Hc.
      rewrite Forall_forall in Hc. destruct (Hc _ H) as [_ [_ [Hn _]]].
      apply Hn. reflexivity.
    + simpl. intros [H|[H|[]]]; discriminate.
  - reflexivity.
Qed.

End NormalizeFacts.

(** ** Paths and addresses *)

Module PathFacts.
Import PyStr PosixPath VirtualFS PyFacts NormalizeFacts.

Lemma append_nil_r (s : string) : (s ++ "")%string = s.
Proof. induction s; simpl; congruence. Qed.

Lemma append_assoc (a b c : string) :
  ((a ++ b) ++ c)%string = (a ++ (b ++ c))%string.
Proof. induction a; simpl; congruence. Qed.

Lemma rev_string_app (a b : string) :
  rev_string (a ++ b) = (rev_string b ++ rev_string a)%string.
Proof.
  induction a as [|c a IH]; simpl.
  - rewrite append_nil_r. reflexivity.
  - rewrite IH, append_assoc. reflexivity.
Qed.

Lemma rev_string_involutive (s : string) : rev_string (rev_string s) = s.
Proof.
  induction s as [|c s IH]; simpl; [reflexivity|].
  rewrite rev_string_app, IH. reflexivity.
Qed.

Lemma contains_char_app (c : ascii) (a b : string) :
  contains_char c (a ++ b) = contains_char c a || contains_char c b.
Proof.
  induction a as [|d a IH]; simpl; [reflexivity|].
  rewrite IH, orb_assoc. reflexivity.
Qed.

Lemma contains_char_rev (c : ascii) (s : string) :
  contains_char c (rev_string s) = contains_char c s.
Proof.
  induction s as [|d s IH]; simpl; [reflexivity|].
  rewrite contains_char_app, IH. simpl.
  rewrite orb_false_r, orb_comm. reflexivity.
Qed.

(** A string that does not start (end) with a slash. *)
Definition no_lead (s : string) : Prop :=
  lstrip_by (is_char "/") s = s.

Lemma no_lead_plain (s : string) :
  contains_char "/" s = false -> no_lead s.
Proof.
  unfold no_lead. destruct s as [|c s]; simpl; [reflexivity|].
  intros H. apply orb_false_iff in H as [H _].
  unfold is_char. rewrite H. reflexivity.
Qed.

Lemma no_lead_app (a b : string) :
  a <> "" -> no_lead a -> no_lead (a ++ b).
Proof.
  unfold no_lead. destruct a as [|c a]; [congruence|]. simpl.
  intros _. destruct (is_char "/" c) eqn:E; [|reflexivity].
  intros H. exfalso.
  assert (L : forall s, String.length (lstrip_by (is_char "/") s) <= String.length s).
  { induction s as [|d s IH]; simpl; [lia|].
    destruct (is_char "/" d); simpl; lia. }
  specialize (L a). rewrite H in L. simpl in L. lia.
Qed.

Lemma rstrip_no_trail (s : string) :
  no_lead (rev_string s) -> rstrip_by (is_char "/") s = s.
Proof.
  unfold no_lead, rstrip_by. intros H. rewrite H.
  apply rev_string_involutive.
Qed.

Lemma clean_rev_no_lead (s : string) : clean s -> no_lead (rev_string s).
Proof.
  intros [_ [_ [_ H]]]. apply no_lead_plain.
  rewrite contains_char_rev. exact H.
Qed.

Lemma rev_nonempty (s : string) : s <> "" -> rev_string s <> "".
Proof.
  intros H E. apply H. rewrite <- (rev_string_involutive s), E. reflexivity.
Qed.

Lemma join_cons (p q : string) (ps : list string) :
  join "/" (p :: q :: ps) = (p ++ "/" ++ join "/" (q :: ps))%string.
Proof. reflexivity. Qed.

Lemma join_snoc (init : list string) (l : string) :
  init <> [] ->
  join "/" (init ++ [l]) = (join "/" init ++ "/" ++ l)%string.
Proof.
  induction init as [|p init IH]; [congruence|]. intros _.
  destruct init as [|q init].
  - reflexivity.
  - change ((p :: q :: init) ++ [l]) with (p :: (q :: init) ++ [l]).
    change ((q :: init) ++ [l]) with (q :: init ++ [l]) in *.
    rewrite !join_cons, IH by discriminate.
    rewrite !append_assoc. reflexivity.
Qed.

Lemma join_no_lead (ps : list string) :
  ps <> [] -> Forall clean ps -> no_lead (join "/" ps).
Proof.
  destruct ps as [|p ps]; [congruence|]. intros _ H.
  inversion H as [|? ? [Hp [_ [_ Hs]]] _]; subst.
  destruct ps as [|q ps].
  - apply no_lead_plain. exact Hs.
  - rewrite join_cons. apply no_lead_app; [exact Hp|].
    apply no_lead_plain. exact Hs.
Qed.

Lemma join_rev_no_lead (ps : list string) :
  ps <> [] -> Forall clean ps -> no_lead (rev_string (join "/" ps)).
Proof.
  intros Hne H.
  destruct (exists_last Hne) as [init [l E]]. subst ps.
  apply Forall_app in H as [_ Hl]. inversion Hl as [|? ? Hc _]; subst.
  destruct init as [|p init].
  - simpl. apply clean_rev_no_lead. exact Hc.
  - rewrite join_snoc by discriminate.
    rewrite rev_string_app, rev_string_app, append_assoc.
    apply no_lead_app.
    + apply rev_nonempty. apply Hc.
    + apply clean_rev_no_lead. exact Hc.
Qed.

Lemma join_nonempty (ps : list string) :
  ps <> [] -> Forall clean ps -> join "/" ps <> "".
Proof.
  intros Hne H E. apply Hne.
  apply join_empty; [apply clean_nonempty; exact H|exact E].
Qed.

Lemma strip_normal (ps : list string) :
  ps <> [] -> Forall clean ps ->
  strip_by (is_char "/") ("/" ++ join "/" ps) = join "/" ps.
Proof.
  intros Hne H. unfold strip_by.
  change (lstrip_by (is_char "/") ("/" ++ join "/" ps))
    with (lstrip_by (is_char "/") (join "/" ps)).
  rewrite (join_no_lead ps Hne H).
  apply rstrip_no_trail, join_rev_no_lead; assumption.
Qed.

(** The address of a normalized path is its list of components. *)
Lemma address_normal (fs : VirtualFileSystem) (ps : list string) :
  Forall clean ps -> address fs ("/" ++ join "/" ps) = ps.
Proof.
  intros H. unfold address, normalize_path.
  rewrite normalize_from_eq, parts_of_normal by exact H.
  destruct ps as [|p ps]; [reflexivity|].
  destruct (String.eqb ("/" ++ join "/" (p :: ps)) "/") eqn:E.
  - apply String.eqb_eq in E. injection E as E.
    exfalso. apply (join_nonempty (p :: ps)); [discriminate|exact H|exact E].
  - rewrite strip_normal by (try discriminate; exact H).
    apply split_on_join; [discriminate|apply clean_noslash; exact H].
Qed.

Lemma address_eq (fs : VirtualFileSystem) (path : string) :
  address fs path = parts_of (current_path fs) path.
Proof.
  unfold address at 1. fold (address fs path).
  pose proof (address_normal fs (parts_of (current_path fs) path)
                (parts_of_clean _ _)) as E.
  unfold address in E. unfold normalize_path in E.
  rewrite <- normalize_from_eq in E.
  rewrite normalize_from_idem in E.
  unfold address, normalize_path. exact E.
Qed.

Lemma address_normalize (fs : VirtualFileSystem) (path : string) :
  address fs (normalize_path fs path) = address fs path.
Proof.
  unfold address, normalize_path.
  rewrite normalize_from_idem. reflexivity.
Qed.

Lemma get_node_walk (fs : VirtualFileSystem) (path : string) :
  get_node fs path = walk (address fs path) (root fs).
Proof.
  unfold get_node, address.
  destruct (String.eqb (normalize_path fs path) "/"); reflexivity.
Qed.

End PathFacts.

(** ** Parents: [dirname] and [basename] of a normalized path *)

Module ParentFacts.
Import PyStr PosixPath VirtualFS PyFacts NormalizeFacts PathFacts.

Lemma after_last_slash_app (q l : string) :
  contains_char "/" l = false ->
  after_last_slash (q ++ String "/" l) = S (String.length q).
Proof.
  intros Hl. induction q as [|c q IH]; simpl.
  - rewrite Hl. reflexivity.
  - rewrite contains_char_app. simpl. rewrite orb_true_r, IH. reflexivity.
Qed.

Lemma substring_prefix (a b : string) :
  substring 0 (String.length a) (a ++ b) = a.
Proof.
  induction a as [|c a IH]; simpl.
  - destruct b; reflexivity.
  - rewrite IH. reflexivity.
Qed.

Lemma substring_all (b : string) : substring 0 (String.length b) b = b.
Proof. induction b as [|c b IH]; simpl; [reflexivity|]. rewrite IH. reflexivity. Qed.

Lemma substring_suffix (a b : string) (n : nat) :
  substring (String.length a) n (a ++ b) = substring 0 n b.
Proof. induction a as [|c a IH]; simpl; [reflexivity|exact IH]. Qed.

Lemma length_app (a b : string) :
  String.length (a ++ b) = String.length a + String.length b.
Proof. induction a as [|c a IH]; simpl; [reflexivity|]. rewrite IH. reflexivity. Qed.

Lemma append_snoc (q l : string) :
  (q ++ String "/" l)%string = ((q ++ "/") ++ l)%string.
Proof. rewrite append_assoc. reflexivity. Qed.

Lemma basename_split (q l : string) :
  contains_char "/" l = false -> basename (q ++ String "/" l) = l.
Proof.
  intros Hl. unfold basename. rewrite after_last_slash_app by exact Hl.
  rewrite append_snoc.
  replace (S (String.length q)) with (String.length (q ++ "/"))
    by (rewrite length_app; simpl; lia).
  rewrite substring_suffix, length_app.
  replace (String.length (q ++ "/") + String.length l - String.length (q ++ "/"))
    with (String.length l) by lia.
  apply substring_all.
Qed.

Lemma dirname_head (q l : string) :
  contains_char "/" l = false ->
  substring 0 (after_last_slash (q ++ String "/" l)) (q ++ String "/" l)
  = (q ++ "/")%string.
Proof.
  intros Hl. rewrite after_last_slash_app by exact Hl.
  rewrite append_snoc.
  replace (S (String.length q)) with (String.length (q ++ "/"))
    by (rewrite length_app; simpl; lia).
  apply substring_prefix.
Qed.

(** The normalized path of the components [init ++ [l]], cut before its
    last component. *)
Definition stem (init : list string) : string :=
  match init with
  | [] => ""
  | _ :: _ => ("/" ++ join "/" init)%string
  end.

Lemma normal_split (init : list string) (l : string) :
  ("/" ++ join "/" (init ++ [l]))%string = (stem init ++ String "/" l)%string.
Proof.
  destruct init as [|p init]; [reflexivity|].
  rewrite join_snoc by discriminate. unfold stem.
  rewrite !append_assoc. reflexivity.
Qed.

Lemma basename_normal (init : list string) (l : string) :
  Forall clean (init ++ [l]) ->
  basename ("/" ++ join "/" (init ++ [l])) = l.
Proof.
  intros H. rewrite normal_split. apply basename_split.
  apply Forall_app in H as [_ H]. inversion H as [|? ? [_ [_ [_ Hs]]] _].
  exact Hs.
Qed.

Lemma dirname_normal (init : list string) (l : string) :
  Forall clean (init ++ [l]) ->
  dirname ("/" ++ join "/" (init ++ [l])) = ("/" ++ join "/" init)%string.
Proof.
  intros H. apply Forall_app in H as [Hi H].
  inversion H as [|? ? [_ [_ [_ Hs]]] _]; subst.
  unfold dirname. rewrite normal_split, dirname_head by exact Hs.
  destruct init as [|p init]; [reflexivity|].
  assert (Hne : p :: init <> []) by discriminate.
  unfold stem.
  assert (E1 : lstrip_by (is_char "/") (("/" ++ join "/" (p :: init)) ++ "/")
               = (join "/" (p :: init) ++ "/")%string).
  { change (lstrip_by (is_char "/") (("/" ++ join "/" (p :: init)) ++ "/"))
      with (lstrip_by (is_char "/") (join "/" (p :: init) ++ "/")).
    apply no_lead_app; [apply join_nonempty; assumption|].
    apply join_no_lead; assumption. }
  assert (E2 : String.eqb (("/" ++ join "/" (p :: init)) ++ "/") "" = false)
    by reflexivity.
  assert (E3 : all_slashes (("/" ++ join "/" (p :: init)) ++ "/") = false).
  { unfold all_slashes. rewrite E1. apply String.eqb_neq.
    intros E. pose proof (f_equal String.length E) as L.
    rewrite length_app in L. simpl in L. lia. }
  rewrite E2, E3. simpl negb. cbv iota. simpl andb. cbv iota.
  unfold rstrip_by.
  rewrite rev_string_app.
  change (rev_string "/" ++ rev_string ("/" ++ join "/" (p :: init)))%string
    with (String "/" (rev_string ("/" ++ join "/" (p :: init)))).
  change (lstrip_by (is_char "/")
            (String "/" (rev_string ("/" ++ join "/" (p :: init)))))
    with (lstrip_by (is_char "/") (rev_string ("/" ++ join "/" (p :: init)))).
  rewrite rev_string_app.
  assert (E4 : lstrip_by (is_char "/")
                 (rev_string (join "/" (p :: init)) ++ rev_string "/")
               = (rev_string (join "/" (p :: init)) ++ rev_string "/")%string).
  { apply no_lead_app.
    - apply rev_nonempty, join_nonempty; assumption.
    - apply join_rev_no_lead; assumption. }
  rewrite E4, <- rev_string_app. apply rev_string_involutive.
Qed.

Lemma address_clean (fs : VirtualFileSystem) (path : string) :
  Forall clean (address fs path).
Proof. rewrite address_eq. apply parts_of_clean. Qed.

Lemma normalize_path_eq (fs : VirtualFileSystem) (path : string) :
  normalize_path fs path = ("/" ++ join "/" (address fs path))%string.
Proof. rewrite address_eq. apply normalize_from_eq. Qed.

Lemma list_snoc_cases {A} (l : list A) :
  l = [] \/ exists init x, l = init ++ [x].
Proof.
  destruct l as [|a l]; [left; reflexivity|right].
  destruct (@exists_last _ (a :: l)) as [init [x E]]; [discriminate|].
  exists init, x. exact E.
Qed.

(** The parent of [path] is the node at the address of [path] without
    its last name, and the item name is that last name; for the root
    the parent is the root itself and the name is empty. *)
Lemma parent_address_eq (fs : VirtualFileSystem) (path : string) :
  parent_address fs (normalize_path fs path) = removelast (address fs path).
Proof.
  unfold parent_address.
  unfold normalize_path at 1. unfold normalize_path at 1.
  rewrite normalize_from_idem. fold (normalize_path fs path).
  rewrite normalize_path_eq.
  pose proof (address_clean fs path) as Hc.
  destruct (list_snoc_cases (address fs path)) as [E|[init [l E]]];
    rewrite E in *.
  - reflexivity.
  - rewrite dirname_normal by exact Hc.
    rewrite removelast_last. apply address_normal.
    apply Forall_app in Hc as [Hc _]. exact Hc.
Qed.

Lemma get_parent_node_eq (fs : VirtualFileSystem) (path : string) :
  get_parent_node fs (normalize_path fs path)
  = (walk (removelast (address fs path)) (root fs), last (address fs path) "").
Proof.
  unfold get_parent_node.
  rewrite get_node_walk. fold (parent_address fs (normalize_path fs path)).
  rewrite parent_address_eq. f_equal.
  unfold normalize_path at 1. unfold normalize_path at 1.
  rewrite normalize_from_idem. fold (normalize_path fs path).
  rewrite normalize_path_eq.
  pose proof (address_clean fs path) as Hc.
  destruct (list_snoc_cases (address fs path)) as [E|[init [l E]]];
    rewrite E in *.
  - reflexivity.
  - rewrite basename_normal by exact Hc. rewrite last_last. reflexivity.
Qed.

End ParentFacts.

(** ** Trees: [walk] and [update] *)

Module TreeFacts.
Import PyStr VirtualFS PyFacts Invariant.

Lemma walk_app (a b : list string) (r : Node) :
  walk (a ++ b) r
  = match walk a r with Some n => walk b n | None => None end.
Proof.
  revert r. induction a as [|x a IH]; intros r; simpl; [reflexivity|].
  destruct r as [|cr m p ch]; [reflexivity|].
  destruct (PyDict.get x ch); [apply IH|reflexivity].
Qed.

Lemma walk_update_same (addr : list string) (f : Node -> Node) (r n : Node) :
  walk addr r = Some n -> walk addr (update addr f r) = Some (f n).
Proof.
  revert r. induction addr as [|x addr IH]; intros r; simpl.
  - intros E. injection E as <-. reflexivity.
  - destruct r as [|cr m p ch]; [discriminate|].
    destruct (PyDict.get x ch) as [child|] eqn:G; [|discriminate].
    intros E. simpl. rewrite get_set_same. apply IH. exact E.
Qed.

Lemma update_missing (addr : list string) (f : Node -> Node) (r : Node) :
  walk addr r = None -> update addr f r = r.
Proof.
  revert r. induction addr as [|x addr IH]; intros r; simpl; [discriminate|].
  destruct r as [|cr m p ch]; [reflexivity|].
  destruct (PyDict.get x ch) as [child|] eqn:G; [|reflexivity].
  intros E. rewrite (IH _ E).
  f_equal. clear - G.
  induction ch as [|[k v] ch IHc]; simpl in *; [discriminate|].
  destruct (String.eqb k x) eqn:Ek.
  - apply String.eqb_eq in Ek. injection G as ->. subst k. reflexivity.
  - rewrite (IHc G). reflexivity.
Qed.

(** A node below a file node does not exist. *)
Lemma walk_below_file (addr suffix : list string) (r n : Node) :
  walk addr r = Some n -> is_file_node n = true -> suffix <> [] ->
  walk (addr ++ suffix) r = None.
Proof.
  intros E Hf Hs. rewrite walk_app, E.
  destruct suffix as [|x suffix]; [congruence|].
  destruct n; [reflexivity|discriminate].
Qed.

(** The parent of an existing node is a directory that holds it. *)
Lemma walk_snoc (init : list string) (l : string) (r n : Node) :
  walk (init ++ [l]) r = Some n ->
  exists cr m p ch,
    walk init r = Some (Directory cr m p ch) /\ PyDict.get l ch = Some n.
Proof.
  rewrite walk_app. destruct (walk init r) as [q|]; [|discriminate].
  simpl. destruct q as [|cr m p ch]; [discriminate|].
  destruct (PyDict.get l ch) as [child|] eqn:G; [|discriminate].
  intros E. injection E as <-. exists cr, m, p, ch. split; reflexivity || exact G.
Qed.

Lemma walk_set_child (init : list string) (l : string) (child r : Node)
  (cr m p : string) (ch : PyDict.t Node) :
  walk init r = Some (Directory cr m p ch) ->
  walk (init ++ [l]) (update init (set_child l child) r) = Some child.
Proof.
  intros E. rewrite walk_app, (walk_update_same _ _ _ _ E). simpl.
  rewrite get_set_same. reflexivity.
Qed.

(** *** The size invariant along [walk] and [update] *)

Lemma sizes_ok_dir (cr m p : string) (ch : PyDict.t Node) :
  sizes_ok (Directory cr m p ch) = all_sizes_ok ch.
Proof.
  unfold all_sizes_ok. simpl.
  induction ch as [|[k v] ch IH]; simpl; [reflexivity|].
  rewrite IH. reflexivity.
Qed.

Lemma all_sizes_ok_get (k : string) (d : PyDict.t Node) (n : Node) :
  all_sizes_ok d = true -> PyDict.get k d = Some n -> sizes_ok n = true.
Proof.
  unfold all_sizes_ok.
  induction d as [|[k' v] d IH]; simpl; [discriminate|].
  intros H. apply andb_true_iff in H as [H1 H2].
  destruct (String.eqb k' k); [intros E; injection E as <-; exact H1|].
  apply IH. exact H2.
Qed.

Lemma all_sizes_ok_set (k : string) (n : Node) (d : PyDict.t Node) :
  all_sizes_ok d = true -> sizes_ok n = true ->
  all_sizes_ok (PyDict.set k n d) = true.
Proof.
  unfold all_sizes_ok. intros H Hn.
  induction d as [|[k' v] d IH]; simpl in *.
  - rewrite Hn. reflexivity.
  - apply andb_true_iff in H as [H1 H2].
    destruct (String.eqb k' k); simpl.
    + rewrite Hn, H2. reflexivity.
    + rewrite H1, (IH H2). reflexivity.
Qed.

Lemma all_sizes_ok_del (k : string) (d : PyDict.t Node) :
  all_sizes_ok d = true -> all_sizes_ok (PyDict.del k d) = true.
Proof.
  unfold all_sizes_ok, PyDict.del.
  induction d as [|[k' v] d IH]; simpl; [reflexivity|].
  intros H. apply andb_true_iff in H as [H1 H2].
  destruct (String.eqb k' k); simpl; [apply IH; exact H2|].
  rewrite H1, (IH H2). reflexivity.
Qed.

Lemma sizes_ok_walk (addr : list string) (r n : Node) :
  sizes_ok r = true -> walk addr r = Some n -> sizes_ok n = true.
Proof.
  revert r. induction addr as [|x addr IH]; intros r Hr; simpl.
  - intros E. injection E as <-. exact Hr.
  - destruct r as [|cr m p ch]; [discriminate|].
    destruct (PyDict.get x ch) as [child|] eqn:G; [|discriminate].
    apply IH. rewrite sizes_ok_dir in Hr.
    exact (all_sizes_ok_get _ _ _ Hr G).
Qed.

Lemma sizes_ok_update (addr : list string) (f : Node -> Node) (r : Node) :
  (forall n, sizes_ok n = true -> sizes_ok (f n) = true) ->
  sizes_ok r = true -> sizes_ok (update addr f r) = true.
Proof.
  intros Hf. revert r. induction addr as [|x addr IH]; intros r Hr; simpl.
  - apply Hf. exact Hr.
  - destruct r as [|cr m p ch]; [exact Hr|].
    destruct (PyDict.get x ch) as [child|] eqn:G; [|exact Hr].
    rewrite sizes_ok_dir in *. apply all_sizes_ok_set; [exact Hr|].
    apply IH. exact (all_sizes_ok_get _ _ _ Hr G).
Qed.

Lemma sizes_ok_set_child (k : string) (child n : Node) :
  sizes_ok child = true -> sizes_ok n = true ->
  sizes_ok (set_child k child n) = true.
Proof.
  intros Hc Hn. destruct n as [|cr m p ch]; [exact Hn|].
  simpl set_child. rewrite sizes_ok_dir in *.
  apply all_sizes_ok_set; assumption.
Qed.

Lemma sizes_ok_del_child (k : string) (n : Node) :
  sizes_ok n = true -> sizes_ok (del_child k n) = true.
Proof.
  intros Hn. destruct n as [|cr m p ch]; [exact Hn|].
  simpl del_child. rewrite sizes_ok_dir in *.
  apply all_sizes_ok_del; assumption.
Qed.

Lemma sizes_ok_set_modified (t : string) (n : Node) :
  sizes_ok n = true -> sizes_ok (set_modified t n) = true.
Proof. destruct n; intros H; exact H. Qed.

Lemma sizes_ok_set_created (t : string) (n : Node) :
  sizes_ok n = true -> sizes_ok (set_created t n) = true.
Proof. destruct n; intros H; exact H. Qed.

Lemma sizes_ok_overwrite (t c : string) (n : Node) :
  sizes_ok n = true -> sizes_ok (overwrite t c n) = true.
Proof.
  destruct n; intros H; [|exact H]. simpl. apply Nat.eqb_refl.
Qed.

End TreeFacts.

(** ** The operations of the file system, on addresses *)

Module OpFacts.
Import PyStr PosixPath VirtualFS PyFacts NormalizeFacts PathFacts ParentFacts
       TreeFacts Invariant.

Lemma address_with_root (fs : VirtualFileSystem) (r : Node) (path : string) :
  address (with_root fs r) path = address fs path.
Proof. reflexivity. Qed.

Lemma get_node_with_root (fs : VirtualFileSystem) (r : Node) (path : string) :
  get_node (with_root fs r) path = walk (address fs path) r.
Proof. rewrite get_node_walk. reflexivity. Qed.

Lemma root_address (fs : VirtualFileSystem) (path : string) :
  normalize_path fs path = "/" <-> address fs path = [].
Proof.
  rewrite normalize_path_eq. split.
  - intros E. injection E as E.
    apply join_empty; [|exact E].
    apply clean_nonempty, address_clean.
  - intros ->. reflexivity.
Qed.

Lemma create_file_eq (now : string) (fs : VirtualFileSystem)
  (path content : string) :
  create_file now fs path content =
  match walk (removelast (address fs path)) (root fs) with
  | Some (Directory _ _ _ _) =>
      (true,
       with_root fs
         (update (removelast (address fs path))
            (set_child (last (address fs path) "")
               (File content now now "-rw-r--r--" (String.length content)))
            (root fs)))
  | _ => (false, fs)
  end.
Proof.
  unfold create_file. rewrite get_parent_node_eq, parent_address_eq.
  reflexivity.
Qed.

Lemma create_directory_eq (now : string) (fs : VirtualFileSystem)
  (path : string) :
  create_directory now fs path =
  match walk (removelast (address fs path)) (root fs) with
  | Some (Directory _ _ _ ch) =>
      if negb (PyDict.mem (last (address fs path) "") ch) then
        (true,
         with_root fs
           (update (removelast (address fs path))
              (set_child (last (address fs path) "")
                 (Directory now now "drwxr-xr-x" []))
              (root fs)))
      else (false, fs)
  | _ => (false, fs)
  end.
Proof.
  unfold create_directory. rewrite get_parent_node_eq, parent_address_eq.
  reflexivity.
Qed.

Lemma copy_item_eq (now : string) (fs : VirtualFileSystem)
  (src dst : string) :
  copy_item now fs src dst =
  match walk (address fs src) (root fs),
        walk (removelast (address fs dst)) (root fs) with
  | Some n, Some (Directory _ _ _ _) =>
      (true,
       with_root fs
         (update (removelast (address fs dst))
            (set_child (last (address fs dst) "")
               (set_modified now (set_created now n)))
            (root fs)))
  | _, _ => (false, fs)
  end.
Proof.
  unfold copy_item.
  rewrite get_parent_node_eq, parent_address_eq, get_node_walk,
    address_normalize.
  reflexivity.
Qed.

Lemma move_item_eq (now : string) (fs : VirtualFileSystem)
  (src dst : string) :
  move_item now fs src dst =
  let sa := removelast (address fs src) in
  let sn := last (address fs src) "" in
  let da := removelast (address fs dst) in
  let dn := last (address fs dst) "" in
  match walk sa (root fs), walk da (root fs) with
  | Some (Directory _ _ _ sch), Some (Directory _ _ _ _) =>
      match PyDict.get sn sch with
      | Some item =>
          (true,
           with_root fs
             (update (da ++ [dn]) (set_modified now)
                (if is_prefix (da ++ [dn]) sa
                 then update da (set_child dn item) (root fs)
                 else update sa (del_child sn)
                        (update da (set_child dn item) (root fs)))))
      | None => (false, fs)
      end
  | _, _ => (false, fs)
  end.
Proof.
  unfold move_item.
  rewrite !get_parent_node_eq, !parent_address_eq.
  reflexivity.
Qed.

(** *** Reading back what was written *)

Lemma create_file_read (now : string) (fs fs' : VirtualFileSystem)
  (p c : string) :
  create_file now fs p c = (true, fs') ->
  normalize_path fs p <> "/" ->
  get_node fs' p = Some (File c now now "-rw-r--r--" (String.length c)).
Proof.
  rewrite create_file_eq. intros H Hp.
  assert (Ha : address fs p <> []) by (intros E; apply Hp, root_address, E).
  destruct (list_snoc_cases (address fs p)) as [E|[init [l E]]];
    [contradiction|].
  rewrite E, removelast_last, last_last in H.
  destruct (walk init (root fs)) as [[|cr m pm ch]|] eqn:W; try discriminate.
  injection H as <-.
  rewrite get_node_with_root, E.
  exact (walk_set_child _ _ _ _ _ _ _ _ W).
Qed.

Lemma write_file_read (now : string) (fs fs' : VirtualFileSystem)
  (p c : string) :
  write_file now fs p c = (true, fs') ->
  normalize_path fs p <> "/" ->
  exists cr perm,
    get_node fs' p = Some (File c cr now perm (String.length c)).
Proof.
  unfold write_file. rewrite get_node_walk.
  destruct (walk (address fs p) (root fs)) as [[c0 cr m pm s|cr m pm ch]|] eqn:W.
  - intros H _. injection H as <-. exists cr, pm.
    rewrite get_node_with_root.
    rewrite (walk_update_same _ _ _ _ W). reflexivity.
  - intros H Hp. exists now, "-rw-r--r--". eapply create_file_read; eassumption.
  - intros H Hp. exists now, "-rw-r--r--". eapply create_file_read; eassumption.
Qed.

(** *** The size invariant is kept by every mutation *)

Lemma sizes_ok_create_file now fs p c :
  sizes_ok (root fs) = true ->
  sizes_ok (root (snd (create_file now fs p c))) = true.
Proof.
  intros H. rewrite create_file_eq.
  destruct (walk _ (root fs)) as [[|cr m pm ch]|]; try exact H.
  simpl. apply sizes_ok_update; [|exact H].
  intros n Hn. apply sizes_ok_set_child; [|exact Hn].
  simpl. apply Nat.eqb_refl.
Qed.

Lemma sizes_ok_write_file now fs p c :
  sizes_ok (root fs) = true ->
  sizes_ok (root (snd (write_file now fs p c))) = true.
Proof.
  intros H. unfold write_file.
  destruct (get_node fs p) as [[c0 cr m pm s|cr m pm ch]|];
    try (apply sizes_ok_create_file; exact H).
  simpl. apply sizes_ok_update; [|exact H].
  intros n Hn. apply sizes_ok_overwrite. exact Hn.
Qed.

Lemma sizes_ok_copy_item now fs src dst :
  sizes_ok (root fs) = true ->
  sizes_ok (root (snd (copy_item now fs src dst))) = true.
Proof.
  intros H. rewrite copy_item_eq.
  destruct (walk (address fs src) (root fs)) as [n|] eqn:W; [|exact H].
  destruct (walk (removelast (address fs dst)) (root fs))
    as [[|cr m pm ch]|]; try exact H.
  simpl. apply sizes_ok_update; [|exact H].
  intros q Hq. apply sizes_ok_set_child; [|exact Hq].
  apply sizes_ok_set_modified, sizes_ok_set_created.
  exact (sizes_ok_walk _ _ _ H W).
Qed.

Lemma sizes_ok_move_item now fs src dst :
  sizes_ok (root fs) = true ->
  sizes_ok (root (snd (move_item now fs src dst))) = true.
Proof.
  intros H. rewrite move_item_eq. cbv zeta.
  destruct (walk (removelast (address fs src)) (root fs))
    as [[|cr m pm sch]|] eqn:W; try exact H.
  destruct (walk (removelast (address fs dst)) (root fs))
    as [[|cr' m' pm' dch]|]; try exact H.
  destruct (PyDict.get _ sch) as [item|] eqn:G; [|exact H].
  assert (Hi : sizes_ok item = true).
  { pose proof (sizes_ok_walk _ _ _ H W) as Hd.
    rewrite sizes_ok_dir in Hd. exact (all_sizes_ok_get _ _ _ Hd G). }
  assert (H1 : sizes_ok (update (removelast (address fs dst))
                           (set_child (last (address fs dst) "") item)
                           (root fs)) = true).
  { apply sizes_ok_update; [|exact H].
    intros q Hq. apply sizes_ok_set_child; assumption. }
  simpl. apply sizes_ok_update; [apply sizes_ok_set_modified|].
  destruct (is_prefix _ _); [exact H1|].
  apply sizes_ok_update; [apply sizes_ok_del_child|exact H1].
Qed.

End OpFacts.

(** ** The sizes a mutation leaves in the tree *)

Module SizeFacts.
Import PyStr VirtualFS PyFacts PathFacts ParentFacts TreeFacts Invariant OpFacts.

Lemma files_dir (cr m p : string) (ch : PyDict.t Node) :
  files (Directory cr m p ch) = all_files ch.
Proof.
  unfold all_files. simpl.
  induction ch as [|[k v] ch IH]; simpl; [reflexivity|].
  rewrite IH. reflexivity.
Qed.

Lemma all_files_get (k : string) (d : PyDict.t Node) (n : Node)
  (x : string * nat) :
  PyDict.get k d = Some n -> In x (files n) -> In x (all_files d).
Proof.
  unfold all_files.
  induction d as [|[k' v] d IH]; simpl; [discriminate|].
  destruct (String.eqb k' k).
  - intros E. injection E as <-. intros H. apply in_or_app. left. exact H.
  - intros E H. apply in_or_app. right. exact (IH E H).
Qed.

Lemma all_files_set (k : string) (n : Node) (d : PyDict.t Node)
  (x : string * nat) :
  In x (all_files (PyDict.set k n d)) -> In x (files n) \/ In x (all_files d).
Proof.
  unfold all_files.
  induction d as [|[k' v] d IH]; simpl.
  - rewrite app_nil_r. auto.
  - destruct (String.eqb k' k); simpl; intros H;
      apply in_app_or in H as [H|H].
    + left. exact H.
    + right. apply in_or_app. right. exact H.
    + right. apply in_or_app. left. exact H.
    + destruct (IH H) as [G|G]; [left; exact G|].
      right. apply in_or_app. right. exact G.
Qed.

Lemma all_files_del (k : string) (d : PyDict.t Node) (x : string * nat) :
  In x (all_files (PyDict.del k d)) -> In x (all_files d).
Proof.
  unfold all_files, PyDict.del.
  induction d as [|[k' v] d IH]; simpl; [auto|].
  destruct (String.eqb k' k); simpl; intros H.
  - apply in_or_app. right. exact (IH H).
  - apply in_app_or in H as [H|H]; apply in_or_app;
      [left; exact H|right; exact (IH H)].
Qed.

(** The files of a node of the tree are files of the tree. *)
Lemma files_walk (addr : list string) (r n : Node) (x : string * nat) :
  walk addr r = Some n -> In x (files n) -> In x (files r).
Proof.
  revert r. induction addr as [|k addr IH]; intros r; simpl.
  - intros E. injection E as <-. auto.
  - destruct r as [|cr m p ch]; [discriminate|].
    destruct (PyDict.get k ch) as [child|] eqn:G; [|discriminate].
    intros W H. rewrite files_dir.
    exact (all_files_get _ _ _ _ G (IH _ W H)).
Qed.

(** A mutation of one node brings into the tree only what it brings
    into that node. *)
Lemma files_update (addr : list string) (f : Node -> Node) (r : Node)
  (x : string * nat) (Q : Prop) :
  (forall n, In x (files (f n)) -> In x (files n) \/ Q) ->
  In x (files (update addr f r)) -> In x (files r) \/ Q.
Proof.
  intros Hf. revert r. induction addr as [|k addr IH]; intros r; simpl.
  - apply Hf.
  - destruct r as [|cr m p ch]; [auto|].
    destruct (PyDict.get k ch) as [child|] eqn:G; [|auto].
    rewrite !files_dir. intros H.
    destruct (all_files_set _ _ _ _ H) as [H1|H1]; [|left; exact H1].
    destruct (IH _ H1) as [H2|H2]; [|right; exact H2].
    left. exact (all_files_get _ _ _ _ G H2).
Qed.

Lemma files_set_child (k : string) (child n : Node) (x : string * nat) :
  In x (files (set_child k child n)) -> In x (files n) \/ In x (files child).
Proof.
  destruct n as [|cr m p ch]; [auto|].
  simpl set_child. rewrite !files_dir. intros H.
  destruct (all_files_set _ _ _ _ H); auto.
Qed.

Lemma files_del_child (k : string) (n : Node) (x : string * nat) :
  In x (files (del_child k n)) -> In x (files n).
Proof.
  destruct n as [|cr m p ch]; [auto|].
  simpl del_child. rewrite !files_dir. apply all_files_del.
Qed.

Lemma files_set_modified (t : string) (n : Node) :
  files (set_modified t n) = files n.
Proof. destruct n; reflexivity. Qed.

Lemma files_set_created (t : string) (n : Node) :
  files (set_created t n) = files n.
Proof. destruct n; reflexivity. Qed.

Lemma files_overwrite (t c : string) (n : Node) (x : string * nat) :
  In x (files (overwrite t c n)) ->
  In x (files n) \/ x = (c, String.length c).
Proof.
  destruct n; [|auto]. simpl. intros [<-|[]]. right. reflexivity.
Qed.

(** No mutation brings in a file whose size is not the length of its
    content. *)
Definition no_new_size (fs fs' : VirtualFileSystem) : Prop :=
  forall c s,
    In (c, s) (files (root fs')) ->
    s = String.length c \/ In (c, s) (files (root fs)).

Lemma no_new_size_refl (fs : VirtualFileSystem) : no_new_size fs fs.
Proof. intros c s H. right. exact H. Qed.

Lemma no_new_size_create_file now fs p t :
  no_new_size fs (snd (create_file now fs p t)).
Proof.
  rewrite create_file_eq.
  destruct (walk _ (root fs)) as [[|cr m pm ch]|];
    try apply no_new_size_refl.
  intros c s H. cbn [snd root with_root] in H.
  apply files_update with (Q := s = String.length c) in H.
  - destruct H; auto.
  - intros n Hn. destruct (files_set_child _ _ _ _ Hn) as [G|G];
      [left; exact G|right].
    simpl in G. destruct G as [G|[]]. injection G as <- <-. reflexivity.
Qed.

Lemma no_new_size_write_file now fs p t :
  no_new_size fs (snd (write_file now fs p t)).
Proof.
  unfold write_file.
  destruct (get_node fs p) as [[c0 cr m pm s0|cr m pm ch]|];
    try apply no_new_size_create_file.
  intros c s H. cbn [snd root with_root] in H.
  apply files_update with (Q := s = String.length c) in H.
  - destruct H; auto.
  - intros n Hn. destruct (files_overwrite _ _ _ _ Hn) as [G|G];
      [left; exact G|right].
    injection G as <- <-. reflexivity.
Qed.

Lemma no_new_size_copy_item now fs src dst :
  no_new_size fs (snd (copy_item now fs src dst)).
Proof.
  rewrite copy_item_eq.
  destruct (walk (address fs src) (root fs)) as [n|] eqn:W;
    [|apply no_new_size_refl].
  destruct (walk (removelast (address fs dst)) (root fs))
    as [[|cr m pm ch]|]; try apply no_new_size_refl.
  intros c s H. cbn [snd root with_root] in H. right.
  apply files_update with (Q := In (c, s) (files (root fs))) in H.
  - destruct H; assumption.
  - intros q Hq. destruct (files_set_child _ _ _ _ Hq) as [G|G];
      [left; exact G|right].
    rewrite files_set_modified, files_set_created in G.
    exact (files_walk _ _ _ _ W G).
Qed.

Lemma no_new_size_move_item now fs src dst :
  no_new_size fs (snd (move_item now fs src dst)).
Proof.
  rewrite move_item_eq. cbv zeta.
  destruct (walk (removelast (address fs src)) (root fs))
    as [[|cr m pm sch]|] eqn:W; try apply no_new_size_refl.
  destruct (walk (removelast (address fs dst)) (root fs))
    as [[|cr' m' pm' dch]|]; try apply no_new_size_refl.
  destruct (PyDict.get _ sch) as [item|] eqn:G; [|apply no_new_size_refl].
  intros c s H. cbn [snd root with_root] in H. right.
  assert (Hi : In (c, s) (files item) -> In (c, s) (files (root fs))).
  { intros Hx. apply (files_walk _ _ _ _ W). rewrite files_dir.
    exact (all_files_get _ _ _ _ G Hx). }
  assert (H1 : In (c, s)
                 (files (update (removelast (address fs dst))
                           (set_child (last (address fs dst) "") item)
                           (root fs))) ->
               In (c, s) (files (root fs))).
  { intros Hx.
    apply files_update with (Q := In (c, s) (files (root fs))) in Hx.
    - destruct Hx; assumption.
    - intros q Hq. destruct (files_set_child _ _ _ _ Hq) as [K|K];
        [left; exact K|right; exact (Hi K)]. }
  apply files_update with (Q := False) in H.
  - destruct H as [H|[]].
    destruct (is_prefix _ _); [exact (H1 H)|].
    apply H1.
    apply files_update with (Q := False) in H.
    + destruct H as [H|[]]. exact H.
    + intros q Hq. left. exact (files_del_child _ _ _ Hq).
  - intros q Hq. left. rewrite files_set_modified in Hq. exact Hq.
Qed.

End SizeFacts.

(** ** Writing and reading files *)

Module WriteRead.
Import PyStr VirtualFS PyFacts PathFacts ParentFacts TreeFacts Invariant OpFacts
       SizeFacts.

(** A file system with one file, whose size is the length of its
    content. *)
Definition small : VirtualFileSystem :=
  mkVFS (Directory "t0" "t0" "drwxr-xr-x"
           [("d", Directory "t0" "t0" "drwxr-xr-x"
              [("f", File "abc" "t0" "t0" "-rw-r--r--" 3)])]) "/".

(** C5, as the code has it: when [write_file] (or [create_file])
    returns true for a path other than the root, [read_file] on the
    same path returns the written text and the node there is a file
    whose size is the length of the text; and [write_file],
    [create_file], [copy_item] and [move_item] bring no wrong size into
    the tree: after each of them, whatever its arguments and its
    result, every file node has a size that is the length of its
    content, or a file node with the same content and the same size
    was in the tree before.  In particular they keep the invariant
    "size = length of content" of all file nodes where it holds. *)
Theorem write_then_read :
  (forall now fs p c fs',
      write_file now fs p c = (true, fs') ->
      normalize_path fs p <> "/" ->
      read_file fs' p = Some c
      /\ option_map is_file_node (get_node fs' p) = Some true
      /\ option_map size_of (get_node fs' p) = Some (String.length c))
  /\ (forall now fs p c fs',
      create_file now fs p c = (true, fs') ->
      normalize_path fs p <> "/" ->
      read_file fs' p = Some c
      /\ option_map is_file_node (get_node fs' p) = Some true
      /\ option_map size_of (get_node fs' p) = Some (String.length c))
  /\ (forall now fs c s,
      (forall p t,
         In (c, s) (files (root (snd (write_file now fs p t)))) ->
         s = String.length c \/ In (c, s) (files (root fs)))
      /\ (forall p t,
         In (c, s) (files (root (snd (create_file now fs p t)))) ->
         s = String.length c \/ In (c, s) (files (root fs)))
      /\ (forall src dst,
         In (c, s) (files (root (snd (copy_item now fs src dst)))) ->
         s = String.length c \/ In (c, s) (files (root fs)))
      /\ (forall src dst,
         In (c, s) (files (root (snd (move_item now fs src dst)))) ->
         s = String.length c \/ In (c, s) (files (root fs))))
  /\ (forall now fs,
      sizes_ok (root fs) = true ->
      (forall p c, sizes_ok (root (snd (write_file now fs p c))) = true)
      /\ (forall p c, sizes_ok (root (snd (create_file now fs p c))) = true)
      /\ (forall s d, sizes_ok (root (snd (copy_item now fs s d))) = true)
      /\ (forall s d, sizes_ok (root (snd (move_item now fs s d))) = true)).
Proof.
  split; [|split; [|split]].
  - intros now fs p c fs' H Hp.
    destruct (write_file_read _ _ _ _ _ H Hp) as [cr [pm E]].
    unfold read_file. rewrite E. repeat split; reflexivity.
  - intros now fs p c fs' H Hp.
    pose proof (create_file_read _ _ _ _ _ H Hp) as E.
    unfold read_file. rewrite E. repeat split; reflexivity.
  - intros now fs c s. split; [|split; [|split]].
    + intros p t. apply no_new_size_write_file.
    + intros p t. apply no_new_size_create_file.
    + intros src dst. apply no_new_size_copy_item.
    + intros src dst. apply no_new_size_move_item.
  - intros now fs H. repeat split; intros.
    + apply sizes_ok_write_file, H.
    + apply sizes_ok_create_file, H.
    + apply sizes_ok_copy_item, H.
    + apply sizes_ok_move_item, H.
Qed.

(** On the seeded file system: a write to a seeded file is read back
    and sets the size right, and after a copy of [/etc] and after a
    move of a seeded file the only sizes that are not the length of
    the content are those of the three seeded files. *)
Lemma write_then_read_witness :
  (let fs' := snd (write_file "t1" init "/etc/hosts" "abc") in
   read_file fs' "/etc/hosts" = Some "abc"
   /\ option_map size_of (get_node fs' "/etc/hosts") = Some 3)
  /\ read_file (snd (create_file "t1" init "notes.txt" "xy")) "notes.txt"
     = Some "xy"
  /\ (forall c s,
        In (c, s) (files (root (snd (copy_item "t1" init "/etc" "/tmp/etc")))) ->
        s = String.length c \/ In s [89; 46; 26])
  /\ (forall c s,
        In (c, s)
          (files (root (snd (move_item "t1" init "/etc/hosts" "/tmp/h")))) ->
        s = String.length c \/ In s [89; 46; 26])
  /\ sizes_ok (root (snd (copy_item "t1" small "/d" "/e"))) = true.
Proof.
  assert (Seeded : forall c s,
            s = String.length c \/ In (c, s) (files (root init)) ->
            s = String.length c \/ In s [89; 46; 26]).
  { intros c s [H|H]; [left; exact H|right].
    simpl in H.
    destruct H as [H|[H|[H|[]]]]; injection H as _ <-; simpl; tauto. }
  split; [|split; [|split; [|split]]].
  - destruct (proj1 write_then_read "t1" init "/etc/hosts" "abc"
                (snd (write_file "t1" init "/etc/hosts" "abc")))
      as [R [_ S]]; [reflexivity|discriminate|].
    split; [exact R|exact S].
  - apply (proj1 (proj2 write_then_read) "t1" init "notes.txt" "xy").
    + reflexivity.
    + discriminate.
  - intros c s H. apply Seeded.
    exact (proj1 (proj2 (proj2
             (proj1 (proj2 (proj2 write_then_read)) "t1" init c s)))
             "/etc" "/tmp/etc" H).
  - intros c s H. apply Seeded.
    exact (proj2 (proj2 (proj2
             (proj1 (proj2 (proj2 write_then_read)) "t1" init c s)))
             "/etc/hosts" "/tmp/h" H).
  - apply (proj2 (proj2 (proj2 write_then_read)) "t1" small).
    reflexivity.
Defined.

(** C5 as stated fails: writing below a missing directory returns
    false and nothing can be read back; and the seeded files carry a
    size that is not the length of their content, which [copy_item]
    hands on. *)
Lemma write_then_read_counterexample :
  write_file "t1" init "/missing/f" "abc" = (false, init)
  /\ read_file (snd (write_file "t1" init "/missing/f" "abc")) "/missing/f"
     = None
  /\ (let fs' := snd (copy_item "t1" init "/etc/hosts" "/tmp/h") in
      option_map size_of (get_node fs' "/tmp/h") = Some 26
      /\ option_map String.length (read_file fs' "/tmp/h") = Some 34).
Proof. vm_compute. repeat split; reflexivity. Qed.

(** C9, as the code has it: [write_file] on an existing directory other
    than the root returns true and puts a fresh file node with the given
    content in its place; no path below it exists afterwards. *)
Theorem write_file_replaces_directory (now : string) (fs : VirtualFileSystem)
  (p c : string) :
  is_directory fs p = true ->
  normalize_path fs p <> "/" ->
  exists fs',
    write_file now fs p c = (true, fs')
    /\ get_node fs' p = Some (File c now now "-rw-r--r--" (String.length c))
    /\ read_file fs' p = Some c
    /\ forall q suffix,
         suffix <> [] -> address fs q = address fs p ++ suffix ->
         exists_ fs' q = false.
Proof.
  intros Hd Hp.
  assert (Ha : address fs p <> []) by (intros E; apply Hp, root_address, E).
  unfold is_directory in Hd.
  destruct (get_node fs p) as [[|cr m pm ch]|] eqn:G; try discriminate.
  assert (Hw : write_file now fs p c = create_file now fs p c).
  { unfold write_file. rewrite G. reflexivity. }
  rewrite get_node_walk in G.
  destruct (list_snoc_cases (address fs p)) as [E|[init [l E]]];
    [contradiction|].
  rewrite E in G.
  destruct (walk_snoc _ _ _ _ G) as [cr' [m' [pm' [ch' [W _]]]]].
  pose proof (create_file_eq now fs p c) as Hc.
  rewrite E, removelast_last, last_last, W in Hc.
  eexists. rewrite Hw. split; [exact Hc|].
  pose proof (create_file_read _ _ _ _ _ Hc Hp) as R.
  split; [exact R|]. split; [unfold read_file; rewrite R; reflexivity|].
  intros q suffix Hs Hq. unfold exists_.
  rewrite get_node_with_root in R. rewrite get_node_with_root, Hq.
  rewrite (walk_below_file _ suffix _ _ R); [reflexivity|reflexivity|exact Hs].
Qed.

Lemma write_file_replaces_directory_witness :
  exists fs',
    write_file "t1" init "/home/user" "abc" = (true, fs')
    /\ get_node fs' "/home/user" = Some (File "abc" "t1" "t1" "-rw-r--r--" 3)
    /\ read_file fs' "/home/user" = Some "abc"
    /\ forall q suffix,
         suffix <> [] ->
         address init q = address init "/home/user" ++ suffix ->
         exists_ fs' q = false.
Proof.
  apply (write_file_replaces_directory "t1" init "/home/user" "abc").
  - reflexivity.
  - discriminate.
Defined.

(** C9 as stated fails at the root: the root stays a directory, its
    children stay reachable, and nothing can be read at ["/"]. *)
Lemma write_file_root_counterexample :
  is_directory init "/" = true
  /\ fst (write_file "t1" init "/" "abc") = true
  /\ (let fs' := snd (write_file "t1" init "/" "abc") in
      is_directory fs' "/" = true
      /\ read_file fs' "/" = None
      /\ exists_ fs' "/tmp" = true).
Proof. vm_compute. repeat split; reflexivity. Qed.

End WriteRead.

(** ** Moving *)

(** [move_item] away from its corner cases: when neither of the two
    addresses is a prefix of the other, the item is afterwards at the
    destination, with a new time stamp, and no longer at the source. *)

Module MoveFacts.
Import PyStr VirtualFS PyFacts PathFacts ParentFacts TreeFacts OpFacts.

(** Two addresses that part at some name. *)
Definition diverge (a b : list string) : Prop :=
  exists p x y a' b', a = p ++ x :: a' /\ b = p ++ y :: b' /\ x <> y.

Lemma is_prefix_app (p l : list string) :
  is_prefix p l = true -> exists c, l = p ++ c.
Proof.
  revert l. induction p as [|x p IH]; intros l; simpl.
  - intros _. exists l. reflexivity.
  - destruct l as [|y l]; [discriminate|].
    intros H. apply andb_true_iff in H as [E H].
    apply String.eqb_eq in E. subst y.
    destruct (IH _ H) as [c ->]. exists c. reflexivity.
Qed.

Lemma is_prefix_refl_app (p c : list string) : is_prefix p (p ++ c) = true.
Proof.
  induction p as [|x p IH]; simpl; [reflexivity|].
  rewrite String.eqb_refl. exact IH.
Qed.

Lemma prefix_cases (a b : list string) :
  is_prefix a b = true \/ is_prefix b a = true \/ diverge a b.
Proof.
  revert b. induction a as [|x a IH]; intros b; simpl; [auto|].
  destruct b as [|y b]; [auto|]. simpl.
  destruct (String.eqb x y) eqn:E.
  - apply String.eqb_eq in E. subst y. rewrite String.eqb_refl. simpl.
    destruct (IH b) as [H|[H|[p [u [v [a' [b' [-> [-> N]]]]]]]]]; auto.
    right. right. exists (x :: p), u, v, a', b'. auto.
  - right. right. apply String.eqb_neq in E.
    exists [], x, y, a, b. auto.
Qed.

Lemma walk_update_below (a c : list string) (f : Node -> Node) (r : Node) :
  walk (a ++ c) (update a f r)
  = match walk a r with
    | Some n => walk c (f n)
    | None => walk (a ++ c) r
    end.
Proof.
  destruct (walk a r) as [n|] eqn:W.
  - rewrite walk_app, (walk_update_same _ _ _ _ W). reflexivity.
  - rewrite (update_missing _ _ _ W). reflexivity.
Qed.

Lemma walk_update_diverge (a b : list string) (f : Node -> Node) (r : Node) :
  diverge a b -> walk b (update a f r) = walk b r.
Proof.
  intros [p [x [y [a' [b' [-> [-> N]]]]]]]. revert r.
  induction p as [|z p IH]; intros r; simpl.
  - destruct r as [|cr m pm ch]; [reflexivity|].
    destruct (PyDict.get x ch) as [child|]; [|reflexivity].
    simpl. rewrite get_set_other by congruence. reflexivity.
  - destruct r as [|cr m pm ch]; [reflexivity|].
    destruct (PyDict.get z ch) as [child|] eqn:G;
      [|simpl; try rewrite G; reflexivity].
    simpl. rewrite get_set_same. try rewrite G. apply IH.
Qed.

Lemma walk_del_other (x sn : string) (c : list string) (n : Node) :
  x <> sn -> walk (x :: c) (del_child sn n) = walk (x :: c) n.
Proof.
  intros N. destruct n as [|cr m pm ch]; [reflexivity|].
  simpl. rewrite get_del_other by exact N. reflexivity.
Qed.

Lemma walk_del_same (sn : string) (n : Node) :
  walk [sn] (del_child sn n) = None.
Proof.
  destruct n as [|cr m pm ch]; [reflexivity|].
  simpl. rewrite get_del_same. reflexivity.
Qed.

Lemma move_item_moves (now : string) (fs fs' : VirtualFileSystem)
  (src dst : string) :
  move_item now fs src dst = (true, fs') ->
  is_prefix (address fs src) (address fs dst) = false ->
  is_prefix (address fs dst) (address fs src) = false ->
  exists item,
    get_node fs src = Some item
    /\ get_node fs' src = None
    /\ get_node fs' dst = Some (set_modified now item).
Proof.
  intros H Psd Pds.
  destruct (list_snoc_cases (address fs src)) as [Es|[sa [sn Es]]];
    [rewrite Es in Psd; discriminate|].
  destruct (list_snoc_cases (address fs dst)) as [Ed|[da [dn Ed]]];
    [rewrite Ed in Pds; discriminate|].
  rewrite move_item_eq in H. cbv zeta in H.
  rewrite Es, Ed, !removelast_last, !last_last in H.
  destruct (walk sa (root fs)) as [[|cr m pm sch]|] eqn:Ws; try discriminate.
  destruct (walk da (root fs)) as [[|cr' m' pm' dch]|] eqn:Wd;
    try discriminate.
  destruct (PyDict.get sn sch) as [item|] eqn:G; [|discriminate].
  assert (Guard : is_prefix (da ++ [dn]) sa = false).
  { destruct (is_prefix (da ++ [dn]) sa) eqn:E; [|reflexivity].
    apply is_prefix_app in E as [c E].
    rewrite Es, Ed, E, <- app_assoc, is_prefix_refl_app in Pds. discriminate. }
  rewrite Guard in H. injection H as <-.
  exists item. rewrite !get_node_with_root, get_node_walk, Es, Ed.
  set (r1 := update da (set_child dn item) (root fs)).
  set (r2 := update sa (del_child sn) r1).
  assert (D : diverge (da ++ [dn]) (sa ++ [sn])).
  { destruct (prefix_cases (da ++ [dn]) (sa ++ [sn])) as [E|[E|E]];
      [rewrite Es, Ed in Pds; congruence|rewrite Es, Ed in Psd; congruence|
       exact E]. }
  split; [|split].
  - rewrite walk_app, Ws. simpl. rewrite G. reflexivity.
  - rewrite (walk_update_diverge _ _ _ _ D).
    unfold r2. rewrite walk_update_below.
    destruct (walk sa r1) as [n|] eqn:W1; [apply walk_del_same|].
    rewrite walk_app, W1. reflexivity.
  - assert (F1 : walk (da ++ [dn]) r1 = Some item)
      by exact (walk_set_child _ _ _ _ _ _ _ _ Wd).
    assert (F2 : walk (da ++ [dn]) r2 = Some item).
    { unfold r2.
      destruct (prefix_cases sa (da ++ [dn])) as [E|[E|E]].
      - apply is_prefix_app in E as [c E]. rewrite E.
        rewrite walk_update_below.
        rewrite E, walk_app in F1.
        destruct (walk sa r1) as [n|] eqn:W1; [|discriminate].
        destruct c as [|x c].
        + exfalso. rewrite app_nil_r in E.
          rewrite Es, Ed, E, is_prefix_refl_app in Pds. discriminate.
        + rewrite walk_del_other; [exact F1|].
          intros ->.
          rewrite Es, Ed, E in Psd.
          change (sa ++ sn :: c) with (sa ++ [sn] ++ c) in Psd.
          rewrite app_assoc, is_prefix_refl_app in Psd. discriminate.
      - congruence.
      - rewrite (walk_update_diverge _ _ _ _ E). exact F1. }
    exact (walk_update_same _ _ _ _ F2).
Qed.

End MoveFacts.


Module Move.
Import VirtualFS.

(** C3 at inputs on which the code departs from it: moving an entry
    onto itself returns true and leaves nothing at the destination; so
    does moving a directory to a place below itself. *)
Theorem move_item_onto_itself :
  exists_ init "/tmp" = true
  /\ fst (move_item "t1" init "/tmp" "/tmp") = true
  /\ exists_ (snd (move_item "t1" init "/tmp" "/tmp")) "/tmp" = false
  /\ fst (move_item "t1" init "/home" "/home/user/x") = true
  /\ exists_ (snd (move_item "t1" init "/home" "/home/user/x"))
       "/home/user/x" = false.
Proof. vm_compute. repeat split; reflexivity. Qed.

End Move.

(** ** The file commands *)

Module CommandFacts.
Import PyStr VirtualFS FileOperations.

Section MkdirFacts.
Variable World : Type.
Variable os_makedirs : string -> World -> option string * World.

Lemma mkdir_loop_skips (now : string) (b : Backend World)
  (flags rest : list string) :
  Forall (fun a => startswith a "-" = true) flags ->
  mkdir_loop World os_makedirs now b (flags ++ rest)
  = mkdir_loop World os_makedirs now b rest.
Proof.
  induction 1 as [|a flags Ha _ IH]; [reflexivity|].
  simpl app. cbn [mkdir_loop]. rewrite Ha. exact IH.
Qed.

(** C2: after any number of leading names that start with ['-'], the
    first other name [d] is the only one [cmd_mkdir] works on; the
    output and the state are those of the single attempt on [d],
    whatever names follow.  In a sandboxed session the attempt is
    [create_directory], with one of two messages. *)
Theorem mkdir_first_name_only (now : string) (b : Backend World)
  (flags : list string) (d : string) (rest : list string) :
  Forall (fun a => startswith a "-" = true) flags ->
  startswith d "-" = false ->
  cmd_mkdir World os_makedirs now b (flags ++ d :: rest)
  = mkdir_one World os_makedirs now b d
  /\ forall fs, b = Sandbox fs ->
       mkdir_one World os_makedirs now b d
       = ((if fst (create_directory now fs d)
           then Colors.GREEN ++ "Directory created: " ++ d ++ Colors.RESET
           else Colors.RED ++ "Failed to create directory: " ++ d
                ++ Colors.RESET)%string,
          Sandbox (snd (create_directory now fs d))).
Proof.
  intros Hf Hd. split.
  - assert (E : cmd_mkdir World os_makedirs now b (flags ++ d :: rest)
                = mkdir_loop World os_makedirs now b (flags ++ d :: rest)).
    { unfold cmd_mkdir. destruct (flags ++ d :: rest) eqn:E; [|reflexivity].
      destruct flags; discriminate. }
    rewrite E, mkdir_loop_skips by exact Hf.
    cbn [mkdir_loop]. rewrite Hd. reflexivity.
  - intros fs ->. cbn [mkdir_one].
    destruct (create_directory now fs d) as [[|] fs']; reflexivity.
Qed.

End MkdirFacts.

Lemma mkdir_first_name_only_witness :
  let r := cmd_mkdir unit (fun _ w => (None, w)) "t1" (Sandbox init)
             ["-p"; "/tmp/a"; "/tmp/b"] in
  r = mkdir_one unit (fun _ w => (None, w)) "t1" (Sandbox init) "/tmp/a"
  /\ match snd r with
     | Sandbox fs' => exists_ fs' "/tmp/a" = true /\ exists_ fs' "/tmp/b" = false
     | Host _ => False
     end.
Proof.
  split.
  - apply (mkdir_first_name_only unit (fun _ w => (None, w)) "t1"
             (Sandbox init) ["-p"] "/tmp/a" ["/tmp/b"]).
    + repeat constructor.
    + reflexivity.
  - vm_compute. split; reflexivity.
Defined.

(** C10: in a sandboxed session the turn of [cmd_touch] for a name that
    is an existing directory changes neither the file system nor the
    list of output lines; the loop goes on from the same state, and
    [touch] of that name alone prints nothing. *)
Theorem touch_directory_is_silent (now : string) (fs : VirtualFileSystem)
  (name : string) (results : list string) :
  is_directory fs name = true ->
  touch_one now name (fs, results) = (fs, results)
  /\ (forall clock i rest,
        touch_loop clock i (name :: rest) (fs, results)
        = touch_loop clock (S i) rest (fs, results))
  /\ (forall clock, cmd_touch clock fs [name] = ("", fs)).
Proof.
  intros Hd.
  assert (E : forall t res, touch_one t name (fs, res) = (fs, res)).
  { intros t res. unfold touch_one, exists_.
    unfold is_directory in Hd.
    destruct (get_node fs name) as [[|cr m p ch]|]; try discriminate.
    reflexivity. }
  split; [apply E|]. split.
  - intros clock i rest. cbn [touch_loop]. rewrite E. reflexivity.
  - intros clock. unfold cmd_touch. cbn [touch_loop]. rewrite E. reflexivity.
Qed.

Lemma touch_directory_is_silent_witness :
  touch_one "t1" "/tmp" (init, []) = (init, [])
  /\ (forall clock i rest,
        touch_loop clock i ("/tmp" :: rest) (init, [])
        = touch_loop clock (S i) rest (init, []))
  /\ (forall clock, cmd_touch clock init ["/tmp"] = ("", init)).
Proof.
  apply (touch_directory_is_silent "t1" init "/tmp" []).
  reflexivity.
Defined.

End CommandFacts.

(** ** Listing a directory *)

Module Listing.
Import PyStr VirtualFS.

(** *** The order of strings *)

Lemma nat_of_ascii_inj (x y : ascii) : nat_of_ascii x = nat_of_ascii y -> x = y.
Proof.
  intros E. rewrite <- (ascii_nat_embedding x), <- (ascii_nat_embedding y), E.
  reflexivity.
Qed.

Lemma ltb_irrefl (a : string) : ltb a a = false.
Proof.
  induction a as [|x a IH]; simpl; [reflexivity|].
  rewrite Nat.ltb_irrefl. exact IH.
Qed.

Lemma ltb_trans (a b c : string) :
  ltb a b = true -> ltb b c = true -> ltb a c = true.
Proof.
  revert b c. induction a as [|x a IH]; intros [|y b] [|z c]; simpl;
    try discriminate; try reflexivity.
  destruct (Nat.ltb_spec (nat_of_ascii x) (nat_of_ascii y)) as [Hxy|Hxy];
  destruct (Nat.ltb_spec (nat_of_ascii y) (nat_of_ascii x)) as [Hyx|Hyx];
  destruct (Nat.ltb_spec (nat_of_ascii y) (nat_of_ascii z)) as [Hyz|Hyz];
  destruct (Nat.ltb_spec (nat_of_ascii z) (nat_of_ascii y)) as [Hzy|Hzy];
  destruct (Nat.ltb_spec (nat_of_ascii x) (nat_of_ascii z)) as [Hxz|Hxz];
  destruct (Nat.ltb_spec (nat_of_ascii z) (nat_of_ascii x)) as [Hzx|Hzx];
    try discriminate; try reflexivity; try lia.
  apply IH.
Qed.

Lemma ltb_trichotomy (a b : string) :
  ltb a b = true \/ a = b \/ ltb b a = true.
Proof.
  revert b. induction a as [|x a IH]; intros [|y b]; simpl; auto.
  destruct (Nat.ltb_spec (nat_of_ascii x) (nat_of_ascii y)) as [Hxy|Hxy];
    [auto|].
  destruct (Nat.ltb_spec (nat_of_ascii y) (nat_of_ascii x)) as [Hyx|Hyx];
    [auto|].
  assert (x = y) by (apply nat_of_ascii_inj; lia). subst y.
  destruct (IH b) as [H|[H|H]]; auto.
  right. left. congruence.
Qed.

Lemma ltb_asym (a b : string) : ltb a b = true -> ltb b a = false.
Proof.
  intros H. destruct (ltb b a) eqn:E; [|reflexivity].
  pose proof (ltb_trans _ _ _ H E) as C. rewrite ltb_irrefl in C. discriminate.
Qed.

Lemma leb_trans (a b c : string) :
  ltb b a = false -> ltb c b = false -> ltb c a = false.
Proof.
  intros H1 H2. destruct (ltb c a) eqn:E; [|reflexivity].
  destruct (ltb_trichotomy a b) as [H|[H|H]].
  - rewrite (ltb_trans _ _ _ E H) in H2. discriminate.
  - subst b. congruence.
  - congruence.
Qed.

Lemma key_ltb_asym (a b : bool * string) :
  key_ltb a b = true -> key_ltb b a = false.
Proof.
  destruct a as [[|] s], b as [[|] t]; unfold key_ltb; simpl;
    try discriminate; try reflexivity; apply ltb_asym.
Qed.

Lemma key_leb_trans (a b c : bool * string) :
  key_ltb b a = false -> key_ltb c b = false -> key_ltb c a = false.
Proof.
  destruct a as [[|] s], b as [[|] t], c as [[|] u]; unfold key_ltb; simpl;
    try discriminate; try reflexivity; apply leb_trans.
Qed.

(** *** Stable insertion sort *)

Section Sorting.
Context {A K : Type}.
Variable lt : K -> K -> bool.
Variable key : A -> K.
Hypothesis lt_asym : forall a b, lt a b = true -> lt b a = false.
Hypothesis le_trans :
  forall a b c, lt b a = false -> lt c b = false -> lt c a = false.

(** [le x y]: the key of [x] is not above the key of [y]. *)
Definition le (x y : A) : Prop := lt (key y) (key x) = false.

Lemma insert_by_perm (x : A) (l : list A) :
  Permutation (x :: l) (insert_by lt key x l).
Proof.
  induction l as [|y l IH]; simpl; [apply Permutation_refl|].
  destruct (lt (key y) (key x)); [|apply Permutation_refl].
  eapply Permutation_trans; [apply perm_swap|].
  apply perm_skip. exact IH.
Qed.

Lemma sorted_by_perm (l : list A) : Permutation l (sorted_by lt key l).
Proof.
  induction l as [|x l IH]; simpl; [constructor|].
  eapply Permutation_trans; [apply perm_skip; exact IH|].
  apply insert_by_perm.
Qed.

Lemma insert_by_sorted (x : A) (l : list A) :
  StronglySorted le l -> StronglySorted le (insert_by lt key x l).
Proof.
  induction l as [|y l IH]; simpl; intros H.
  - constructor; constructor.
  - inversion H as [|? ? Hs Hall]; subst.
    destruct (lt (key y) (key x)) eqn:E.
    + constructor; [apply IH; exact Hs|].
      apply (Permutation_Forall (insert_by_perm x l)).
      constructor; [|exact Hall].
      unfold le. apply lt_asym. exact E.
    + constructor; [exact H|].
      constructor; [exact E|].
      revert Hall. apply Forall_impl. intros z Hz.
      unfold le in *. eapply le_trans; eassumption.
Qed.

Lemma sorted_by_sorted (l : list A) : StronglySorted le (sorted_by lt key l).
Proof.
  induction l as [|x l IH]; simpl; [constructor|].
  apply insert_by_sorted. exact IH.
Qed.

End Sorting.

(** The order of the listing: [x] may come before [y]. *)
Definition listed_before (x y : string) : Prop :=
  key_leb (list_key x) (list_key y) = true.

Lemma listed_before_le (x y : string) :
  le key_ltb list_key x y <-> listed_before x y.
Proof.
  unfold le, listed_before, key_leb. split; intros H.
  - rewrite H. reflexivity.
  - apply negb_true_iff. exact H.
Qed.

Lemma StronglySorted_impl {A} (R S : A -> A -> Prop) (l : list A) :
  (forall a b, R a b -> S a b) -> StronglySorted R l -> StronglySorted S l.
Proof.
  intros H. induction 1 as [|a l Hs IH Hall]; constructor; [exact IH|].
  revert Hall. apply Forall_impl. intros b. apply H.
Qed.

Lemma StronglySorted_pair {A} (R : A -> A -> Prop) (l1 l2 l3 : list A)
  (x y : A) :
  StronglySorted R (l1 ++ x :: l2 ++ y :: l3) -> R x y.
Proof.
  induction l1 as [|a l1 IH]; simpl; intros H.
  - inversion H as [|? ? _ Hall]; subst.
    rewrite Forall_forall in Hall. apply Hall.
    apply in_or_app. right. left. reflexivity.
  - inversion H; subst. apply IH. assumption.
Qed.

(** A file system in which [/d] holds, in the order of their creation,
    the files [b.txt] and [A.txt] and the directory [z]. *)
Definition example : VirtualFileSystem :=
  mkVFS (Directory "t0" "t0" "drwxr-xr-x"
           [("d", Directory "t0" "t0" "drwxr-xr-x"
              [("b.txt", File "" "t0" "t0" "-rw-r--r--" 0);
               ("A.txt", File "" "t0" "t0" "-rw-r--r--" 0);
               ("z", Directory "t0" "t0" "drwxr-xr-x" [])])]) "/".

(** C6, as the code has it: the listing of an existing directory holds
    the shown names of its children, a name being followed by ['/'] for
    a directory, in ascending order of the key (the shown name ends
    with ['/'], the shown name in lower case); so an entry that ends
    with ['/'] never comes before one that does not; and the directory
    of the example lists as [A.txt], [b.txt], [z/]. *)
Theorem list_directory_sorted (fs : VirtualFileSystem) (path : string)
  (cr m p : string) (ch : PyDict.t Node) :
  get_node fs path = Some (Directory cr m p ch) ->
  Permutation (map display_name ch) (list_directory fs path)
  /\ StronglySorted listed_before (list_directory fs path)
  /\ (forall l1 x l2 y l3,
        list_directory fs path = l1 ++ x :: l2 ++ y :: l3 ->
        endswith x "/" = true -> endswith y "/" = true)
  /\ list_directory example "/d" = ["A.txt"; "b.txt"; "z/"].
Proof.
  intros G. unfold list_directory. rewrite G.
  assert (S : StronglySorted listed_before
                (sorted_by key_ltb list_key (map display_name ch))).
  { apply (StronglySorted_impl (le key_ltb list_key)).
    - intros a b. apply listed_before_le.
    - apply sorted_by_sorted; [apply key_ltb_asym|apply key_leb_trans]. }
  split; [apply sorted_by_perm|]. split; [exact S|]. split; [|reflexivity].
  intros l1 x l2 y l3 E Hx. rewrite E in S.
  apply StronglySorted_pair in S.
  unfold listed_before, key_leb, key_ltb, list_key in S. simpl in S.
  rewrite Hx in S. destruct (endswith y "/"); [reflexivity|discriminate].
Qed.

Lemma list_directory_sorted_witness :
  Permutation ["b.txt"; "A.txt"; "z/"] (list_directory example "/d")
  /\ StronglySorted listed_before (list_directory example "/d")
  /\ (forall l1 x l2 y l3,
        list_directory example "/d" = l1 ++ x :: l2 ++ y :: l3 ->
        endswith x "/" = true -> endswith y "/" = true)
  /\ list_directory example "/d" = ["A.txt"; "b.txt"; "z/"].
Proof.
  apply (list_directory_sorted example "/d" "t0" "t0" "drwxr-xr-x"
           [("b.txt", File "" "t0" "t0" "-rw-r--r--" 0);
            ("A.txt", File "" "t0" "t0" "-rw-r--r--" 0);
            ("z", Directory "t0" "t0" "drwxr-xr-x" [])]).
  reflexivity.
Defined.

(** C6 as stated fails: with the sub-directories [a] and [a.b] the key
    (is a directory, lower-case name) puts [a] first, and the listing
    puts [a.b/] first, since it compares the shown names ["a/"] and
    ["a.b/"] and ['.'] is below ['/']. *)
Lemma list_directory_counterexample :
  let fs := snd (create_directory "t2"
                   (snd (create_directory "t1" init "/tmp/a")) "/tmp/a.b") in
  list_directory fs "/tmp" = ["a.b/"; "a/"]
  /\ list_directory_by_name fs "/tmp" = ["a/"; "a.b/"]
  /\ key_ltb (true, lower "a") (true, lower "a.b") = true.
Proof. vm_compute. repeat split; reflexivity. Qed.

End Listing.

(** ** The matcher *)

Module ReFacts.
Import PyStr Py Re.

(** A successful match has called what follows the pattern. *)
Definition calls_next
  (body : string -> captures -> (string -> captures -> option captures)
          -> option captures) : Prop :=
  forall s caps k res,
    body s caps k = Some res -> exists s' caps', k s' caps' = Some res.

Lemma star_loop_cont body greedy :
  calls_next body ->
  forall k turns s caps res,
    star_loop body greedy k turns s caps = Some res ->
    exists s' caps', k s' caps' = Some res.
Proof.
  intros Hb k turns. induction turns as [|turns IH]; intros s caps res.
  - simpl. destruct greedy.
    + intros H. exists s, caps. exact H.
    + destruct (k s caps) eqn:E; [|discriminate].
      intros H. exists s, caps. congruence.
  - cbn [star_loop].
    set (more := body s caps _).
    assert (Hm : forall r, more = Some r -> exists s' caps', k s' caps' = Some r).
    { intros r Hr. apply Hb in Hr as [s1 [c1 H1]].
      destruct (Nat.ltb _ _); [|discriminate].
      apply IH in H1. exact H1. }
    destruct greedy.
    + destruct more as [r|] eqn:E.
      * intros H. injection H as <-. apply Hm. reflexivity.
      * intros H. exists s, caps. exact H.
    + destruct (k s caps) as [r|] eqn:E.
      * intros H. exists s, caps. congruence.
      * intros H. apply Hm. exact H.
Qed.

Lemma m_cont (r : regex) : calls_next (m r).
Proof.
  induction r as [|c|f|r1 IH1 r2 IH2|r1 IH1 r2 IH2|g r IH|n r IH|n];
    intros s caps k res; simpl.
  - intros H. exists s, caps. exact H.
  - destruct s as [|d s]; [discriminate|].
    destruct (Ascii.eqb _ _); [|discriminate].
    intros H. exists s, caps. exact H.
  - destruct s as [|d s]; [discriminate|].
    destruct (f d); [|discriminate].
    intros H. exists s, caps. exact H.
  - intros H. apply IH1 in H as [s1 [c1 H]]. apply IH2 in H. exact H.
  - destruct (m r1 s caps k) as [r|] eqn:E.
    + intros H. injection H as <-. apply IH1 in E. exact E.
    + apply IH2.
  - apply star_loop_cont. exact IH.
  - intros H. apply IH in H as [s1 [c1 H]]. eauto.
  - destruct (group n caps); [|discriminate].
    destruct (startswith _ _); [|discriminate].
    intros H. eauto.
Qed.

(** Matching depends on what follows only through its results. *)
Definition extensional
  (body : string -> captures -> (string -> captures -> option captures)
          -> option captures) : Prop :=
  forall s caps k1 k2,
    (forall s' caps', k1 s' caps' = k2 s' caps') ->
    body s caps k1 = body s caps k2.

Lemma star_loop_ext body greedy :
  extensional body ->
  forall k1 k2, (forall s' caps', k1 s' caps' = k2 s' caps') ->
  forall turns s caps,
    star_loop body greedy k1 turns s caps
    = star_loop body greedy k2 turns s caps.
Proof.
  intros Hb k1 k2 Hk turns.
  induction turns as [|turns IH]; intros s caps; cbn [star_loop].
  - rewrite Hk. reflexivity.
  - rewrite Hk.
    rewrite (Hb s caps _
               (fun s' caps' =>
                  if Nat.ltb (String.length s') (String.length s)
                  then star_loop body greedy k2 turns s' caps'
                  else None)).
    + reflexivity.
    + intros s' caps'. destruct (Nat.ltb _ _); [apply IH|reflexivity].
Qed.

Lemma m_ext (r : regex) : extensional (m r).
Proof.
  induction r as [|c|f|r1 IH1 r2 IH2|r1 IH1 r2 IH2|g r IH|n r IH|n];
    intros s caps k1 k2 Hk; simpl.
  - apply Hk.
  - destruct s as [|d s]; [reflexivity|].
    destruct (Ascii.eqb _ _); [apply Hk|reflexivity].
  - destruct s as [|d s]; [reflexivity|].
    destruct (f d); [apply Hk|reflexivity].
  - apply IH1. intros s' caps'. apply IH2. exact Hk.
  - rewrite (IH1 s caps k1 k2 Hk), (IH2 s caps k1 k2 Hk). reflexivity.
  - apply star_loop_ext; assumption.
  - apply IH. intros s' caps'. apply Hk.
  - destruct (group n caps); [|reflexivity].
    destruct (startswith _ _); [apply Hk|reflexivity].
Qed.

Lemma body_fails body s caps :
  calls_next body -> body s caps (fun _ _ => None) = None.
Proof.
  intros Hb. destruct (body s caps (fun _ _ => None)) as [res|] eqn:E;
    [|reflexivity].
  apply Hb in E as [s' [c' E]]. discriminate.
Qed.

(** The count of turns of a repetition is never what stops it: any
    count that is at least the length of the input gives the same
    result. *)
Lemma star_loop_turns body greedy k :
  extensional body -> calls_next body ->
  forall n1 n2 s caps,
    String.length s <= n1 -> String.length s <= n2 ->
    star_loop body greedy k n1 s caps = star_loop body greedy k n2 s caps.
Proof.
  intros He Hc.
  assert (Z : forall n s caps,
             String.length s = 0 ->
             star_loop body greedy k n s caps
             = star_loop body greedy k 0 s caps).
  { intros n s caps L. destruct n as [|n]; [reflexivity|].
    cbn [star_loop].
    rewrite (He s caps _ (fun _ _ => None)).
    - rewrite body_fails by exact Hc. reflexivity.
    - intros s' caps'. rewrite L. reflexivity. }
  induction n1 as [|n1 IH]; intros n2 s caps L1 L2.
  - rewrite (Z n2) by lia. reflexivity.
  - destruct n2 as [|n2]; [apply Z; lia|].
    cbn [star_loop].
    rewrite (He s caps _
               (fun s' caps' =>
                  if Nat.ltb (String.length s') (String.length s)
                  then star_loop body greedy k n2 s' caps'
                  else None)).
    + reflexivity.
    + intros s' caps'.
      destruct (Nat.ltb_spec (String.length s') (String.length s));
        [|reflexivity].
      apply IH; lia.
Qed.

(** A pattern that ends with a back-reference to group [n] matches
    only with group [n] set. *)
Lemma ends_with_backref (pre : list regex) (n : nat) :
  forall s caps res,
    m (seqs (pre ++ [Backref n])) s caps (fun _ c => Some c) = Some res ->
    group n res <> None.
Proof.
  induction pre as [|a pre IH]; intros s caps res; simpl.
  - destruct (group n caps) as [g|] eqn:G; [|discriminate].
    destruct (startswith _ _); [|discriminate].
    intros H. injection H as <-. rewrite G. discriminate.
  - intros H. apply m_cont in H as [s1 [c1 H]]. exact (IH _ _ _ H).
Qed.

Lemma star_turns_enough (r : regex) (greedy : bool) (n : nat)
  (s : string) (caps : captures) (k : string -> captures -> option captures) :
  String.length s <= n ->
  star_loop (m r) greedy k n s caps = m (Star greedy r) s caps k.
Proof.
  intros L. simpl.
  apply star_loop_turns; [apply m_ext|apply m_cont|exact L|lia].
Qed.

Lemma search_from_here (r : regex) (s : string) (caps : captures) :
  search_from r s = Some caps -> exists s', match_here r s' = Some caps.
Proof.
  induction s as [|c s IH]; simpl.
  - destruct (match_here r "") eqn:E; [|discriminate].
    intros H. exists "". congruence.
  - destruct (match_here r (String c s)) eqn:E.
    + intros H. exists (String c s). congruence.
    + exact IH.
Qed.

(** A pattern with two groups of which the first takes part in every
    match. *)
Definition first_group_set (r : regex) : Prop :=
  forall s groups,
    search r s = Some groups ->
    exists g1 v2,
      groups = [VStr g1; v2] /\ (v2 = VNone \/ exists g2, v2 = VStr g2).

Lemma first_group_set_intro (pre : list regex) :
  ngroups (seqs (pre ++ [Backref 1])) = 2 ->
  first_group_set (seqs (pre ++ [Backref 1])).
Proof.
  intros Hn s groups. unfold search.
  destruct (search_from _ s) as [caps|] eqn:E; [|discriminate].
  intros H. injection H as <-. rewrite Hn.
  apply search_from_here in E as [s' E].
  apply ends_with_backref in E.
  unfold groups_of. simpl.
  destruct (group 1 caps) as [g1|]; [|congruence].
  exists g1. eexists. split; [reflexivity|].
  destruct (group 2 caps); eauto.
Qed.

End ReFacts.

(** ** The interpreter *)

Module InterpreterFacts.
Import PyStr Py Re AICommandInterpreter ReFacts.

(** The command names [_process_match] and the fall-back produce. *)
Definition command_names : list string :=
  ["mkdir"; "touch"; "ls"; "cd"; "pwd"; "rm"; "cp"; "mv"; "cat"; "find";
   "sysinfo"; "ps"; "free"; "df"; "clear"; "help"].

Definition known (c : string * pyval) : Prop := In (fst c) command_names.

Ltac known_name := unfold known; simpl; tauto.

Definition uses_path (command_type : string) : bool :=
  String.eqb command_type "create_dir" || String.eqb command_type "change_dir".

Lemma normalize_path_str (p : string) : exists q, normalize_path (VStr p) = Ok (VStr q).
Proof.
  unfold normalize_path.
  destruct (PyDict.get (lower p) shortcuts); eexists; reflexivity.
Qed.

Lemma pick_two (g1 : string) (v2 d : pyval) :
  v2 = VNone \/ (exists g2, v2 = VStr g2) ->
  exists p, pick [VStr g1; v2] d = VStr p.
Proof.
  intros [->|[g2 ->]]; simpl; unfold py_or; simpl.
  - eexists; reflexivity.
  - destruct (negb (String.eqb g2 "")); eexists; reflexivity.
Qed.

(** [_process_match] raises for no type that does not normalize a
    path, and the command it returns, when not empty, is a known
    one. *)
Lemma process_match_plain (ct : string) (groups : list pyval) :
  uses_path ct = false ->
  exists c a,
    _process_match ct groups = Ok (c, a)
    /\ (forall n, nonempty c = Some n -> known (n, a)).
Proof.
  unfold uses_path, _process_match. intros H.
  apply orb_false_iff in H as [H1 H2]. rewrite H1, H2.
  repeat match goal with
         | |- context [if String.eqb ct ?x then _ else _] =>
             destruct (String.eqb ct x)
         end;
    try (unfold pick_pair;
         destruct groups as [|g0 [|g1 [|g2 [|g3 groups]]]]);
    eexists; eexists; (split; [reflexivity|]); intros n T;
    try discriminate; injection T as <-; known_name.
Qed.

Lemma process_match_create_dir (groups : list pyval) :
  _process_match "create_dir" groups =
  match normalize_path (pick groups (VStr "newfolder")) with
  | Ok d => Ok (Some "mkdir", VList [d])
  | Raise e => Raise e
  end.
Proof. reflexivity. Qed.

Lemma process_match_change_dir (groups : list pyval) :
  _process_match "change_dir" groups =
  match normalize_path (pick groups (VStr ".")) with
  | Ok d => Ok (Some "cd", VList [d])
  | Raise e => Raise e
  end.
Proof. reflexivity. Qed.

Lemma process_match_path (ct : string) (g1 : string) (v2 : pyval) :
  v2 = VNone \/ (exists g2, v2 = VStr g2) ->
  uses_path ct = true ->
  exists n a,
    _process_match ct [VStr g1; v2] = Ok (Some n, a)
    /\ nonempty (Some n) = Some n /\ known (n, a).
Proof.
  intros Hv H. unfold uses_path in H.
  apply orb_true_iff in H as [H|H]; apply String.eqb_eq in H; subst ct.
  - rewrite process_match_create_dir.
    destruct (pick_two g1 v2 (VStr "newfolder") Hv) as [p ->].
    destruct (normalize_path_str p) as [q ->].
    eexists; eexists; split; [reflexivity|]. split; [reflexivity|known_name].
  - rewrite process_match_change_dir.
    destruct (pick_two g1 v2 (VStr ".") Hv) as [p ->].
    destruct (normalize_path_str p) as [q ->].
    eexists; eexists; split; [reflexivity|]. split; [reflexivity|known_name].
Qed.

Lemma try_patterns_ok (ct : string) (patterns : list regex) (query : string) :
  (uses_path ct = true -> Forall first_group_set patterns) ->
  exists o,
    try_patterns ct patterns query = Ok o
    /\ forall c, o = Some c -> known c.
Proof.
  induction patterns as [|r patterns IH]; intros H; simpl.
  - exists None. split; [reflexivity|discriminate].
  - assert (H' : uses_path ct = true -> Forall first_group_set patterns).
    { intros U. specialize (H U). inversion H; assumption. }
    destruct (search r query) as [groups|] eqn:S; [|exact (IH H')].
    destruct (uses_path ct) eqn:U.
    + specialize (H eq_refl). inversion H as [|? ? Hr _]; subst.
      destruct (Hr _ _ S) as [g1 [v2 [-> Hv]]].
      destruct (process_match_path ct g1 v2 Hv U) as [n [a [-> [-> K]]]].
      eexists. split; [reflexivity|].
      intros c Hc. injection Hc as <-. exact K.
    + destruct (process_match_plain ct groups U) as [c [a [-> K]]].
      destruct (nonempty c) as [n|] eqn:T; [|exact (IH H')].
      eexists. split; [reflexivity|].
      intros c' Hc. injection Hc as <-. apply K. reflexivity.
Qed.

Lemma try_types_ok (table : list (string * list regex)) (query : string) :
  Forall (fun e => uses_path (fst e) = true -> Forall first_group_set (snd e))
    table ->
  exists o,
    try_types table query = Ok o /\ forall c, o = Some c -> known c.
Proof.
  induction 1 as [|[ct patterns] table He _ IH]; simpl.
  - exists None. split; [reflexivity|discriminate].
  - destruct (try_patterns_ok ct patterns query He) as [o [-> K]].
    destruct o as [c|]; [|exact IH].
    exists (Some c). split; [reflexivity|exact K].
Qed.

Lemma command_patterns_ok :
  Forall (fun e => uses_path (fst e) = true -> Forall first_group_set (snd e))
    command_patterns.
Proof.
  unfold command_patterns.
  repeat (apply Forall_cons; [cbn [fst snd]; intros U; try discriminate U|]);
    try apply Forall_nil.
  - repeat (apply Forall_cons; [|]); try apply Forall_nil.
    + apply (first_group_set_intro
               [one_of ["create"; "make"]; any_lazy;
                one_of ["folder"; "directory"]; any_lazy;
                Opt (one_of ["called"; "named"]); spaces;
                quote 1; Group 2 word]). reflexivity.
    + apply (first_group_set_intro
               [lit "mkdir"; spaces; quote 1; Group 2 word]). reflexivity.
    + apply (first_group_set_intro
               [lit "new"; spaces; one_of ["folder"; "directory"]; spaces;
                quote 1; Group 2 word]). reflexivity.
  - repeat (apply Forall_cons; [|]); try apply Forall_nil.
    + apply (first_group_set_intro
               [one_of ["go"; "navigate"; "change"]; any_lazy;
                one_of ["to"; "into"]; spaces; quote 1; Group 2 bare]).
      reflexivity.
    + apply (first_group_set_intro
               [lit "cd"; spaces; quote 1; Group 2 bare]). reflexivity.
    + apply (first_group_set_intro
               [lit "enter"; spaces; one_of ["folder"; "directory"]; spaces;
                quote 1; Group 2 bare]). reflexivity.
Qed.

Lemma fallback_ok (query : string) :
  List.length (fallback query) <= 1
  /\ forall c, In c (fallback query) -> known c.
Proof.
  unfold fallback.
  destruct (mem "create" _ || mem "make" _); [|simpl; split; [lia|tauto]].
  destruct (mem "folder" _ || mem "directory" _).
  - destruct (first_other _ _); simpl; (split; [lia|]); [|tauto].
    intros c [<-|[]]. known_name.
  - destruct (mem "file" _); [|simpl; split; [lia|tauto]].
    destruct (first_other _ _); simpl; (split; [lia|]); [|tauto].
    intros c [<-|[]]. known_name.
Qed.

Lemma interpret_known (query : string) :
  exists cmds,
    interpret query = Ok cmds
    /\ List.length cmds <= 1
    /\ forall c, In c cmds -> known c.
Proof.
  unfold interpret.
  destruct (String.eqb (strip query) "").
  - exists []. split; [reflexivity|]. simpl. split; [lia|tauto].
  - destruct (try_types_ok command_patterns (strip query) command_patterns_ok)
      as [o [-> K]].
    destruct o as [c|].
    + exists [c]. split; [reflexivity|]. simpl. split; [lia|].
      intros c' [<-|[]]. apply K. reflexivity.
    + exists (fallback (strip query)). split; [reflexivity|].
      apply fallback_ok.
Qed.

(** C8: [interpret] raises on no query, and returns no command or one;
    the command, if any, bears one of sixteen names. *)
Theorem interpret_total (query : string) :
  exists cmds,
    interpret query = Ok cmds
    /\ List.length cmds <= 1
    /\ forall c, In c cmds -> known c.
Proof. exact (interpret_known query). Qed.

(** C1 on the three queries: the second and the third give the
    commands the claim names; the first gives [mkdir called], since
    the optional word [called] is skipped and then taken as the name. *)
Theorem interpret_examples :
  interpret "create a folder called projects"
    = Ok [("mkdir", VList [VStr "called"])]
  /\ interpret "go home" = Ok [("cd", VList [VStr "~"])]
  /\ interpret "what is here" = Ok [("ls", VList [])].
Proof. vm_compute. repeat split; reflexivity. Qed.

End InterpreterFacts.

(** ** The parser *)

Module ParserFacts.
Import PyStr Py CommandParser PathFacts.

(** A character that starts a word for [shlex] and is no white space
    for [str.strip]. *)
Definition plain (c : ascii) : bool :=
  negb (is_whitespace c) && negb (is_quote c) && negb (is_escape c)
  && negb (isspace c).

(** The states in which a token is being read. *)
Definition reading (st esc : state) : Prop :=
  match st with
  | InSpace => False
  | InEscape =>
      match esc with
      | InWord | InQuote _ => True
      | InSpace | InEscape => False
      end
  | InWord | InQuote _ => True
  end.

Lemma emit_head (x : ascii) (tok : string) (quoted : bool)
  (rest : pyres (list string)) (toks : list string) :
  emit (String x tok) quoted rest = Ok toks ->
  exists w tl, toks = String x w :: tl.
Proof.
  unfold emit. rewrite andb_false_r.
  destruct rest as [l|e]; [|discriminate].
  intros H. injection H as <-. eauto.
Qed.

(** The token that is being read keeps its first character. *)
Lemma lex_head (s : string) :
  forall st esc x tok quoted toks,
    reading st esc ->
    lex s st esc (String x tok) quoted = Ok toks ->
    exists w tl, toks = String x w :: tl.
Proof.
  induction s as [|c s IH]; intros st esc x tok quoted toks R.
  - destruct st; simpl in *; try contradiction; try discriminate.
    apply emit_head.
  - destruct st as [| |q|]; cbn [lex]; [contradiction| | |].
    + destruct (is_whitespace c).
      * cbn [String.eqb negb orb]. apply emit_head.
      * destruct (is_quote c); [apply IH; exact I|].
        destruct (is_escape c); [apply IH; exact I|].
        apply IH. exact I.
    + destruct (Ascii.eqb c q); [apply IH; exact I|].
      destruct (is_escape c && is_escapedquote q); apply IH; exact I.
    + destruct esc as [| |q|]; simpl in R; try contradiction.
      * apply IH. exact I.
      * destruct (negb (Ascii.eqb c backslash) && negb (Ascii.eqb c q));
          apply IH; exact I.
Qed.

Lemma lstrip_snoc (f : ascii -> bool) (x : ascii) (a : string) :
  f x = false ->
  exists t, lstrip_by f (a ++ String x "") = (t ++ String x "")%string.
Proof.
  intros Hx. induction a as [|c a IH]; simpl.
  - rewrite Hx. exists "". reflexivity.
  - destruct (f c); [exact IH|]. exists (String c a). reflexivity.
Qed.

Lemma strip_head (x : ascii) (tail : string) :
  isspace x = false ->
  exists tail', strip (String x tail) = String x tail'.
Proof.
  intros Hx. unfold strip, strip_by. simpl lstrip_by. rewrite Hx.
  unfold rstrip_by. simpl rev_string.
  destruct (lstrip_snoc isspace x (rev_string tail) Hx) as [t ->].
  rewrite rev_string_app. simpl. eauto.
Qed.

(** The command of a line that starts with a plain character starts
    with that character. *)
Lemma parse_head (x : ascii) (tail cmd : string) (args : list string) :
  plain x = true ->
  parse (String x tail) = Ok (cmd, args) ->
  exists w, cmd = String x w.
Proof.
  unfold plain. intros P.
  apply andb_true_iff in P as [P Hs].
  apply andb_true_iff in P as [P He].
  apply andb_true_iff in P as [Hw Hq].
  apply negb_true_iff in Hs, He, Hw, Hq.
  unfold parse. destruct (strip_head x tail Hs) as [tail' ->].
  cbn [String.eqb]. unfold shlex_split. cbn [lex].
  rewrite Hw, He, Hq.
  destruct (lex tail' InWord InSpace (String x "") false) as [toks|e] eqn:L;
    [|discriminate].
  destruct (lex_head tail' InWord InSpace x "" false toks I L) as [w [tl ->]].
  intros H. injection H as <- _. eauto.
Qed.

End ParserFacts.

(** ** The dispatcher *)

Module DispatcherFacts.
Import PyStr Py CommandParser AICommandInterpreter InterpreterFacts Terminal
       ParserFacts.

Lemma get_in {V} (k : string) (v : V) (d : PyDict.t V) :
  PyDict.get k d = Some v -> In (k, v) d.
Proof.
  induction d as [|[k' v'] d IH]; simpl; [discriminate|].
  destruct (String.eqb k' k) eqn:E.
  - apply String.eqb_eq in E. intros H. injection H as <-. subst. auto.
  - auto.
Qed.

Lemma ai_name (cmd : string) : PyDict.get cmd commands = Some Ai -> cmd = "ai".
Proof.
  intros H. apply get_in in H. unfold commands in H. simpl in H.
  repeat (destruct H as [H|H]; [try discriminate H|]);
    try contradiction.
  injection H as <-. reflexivity.
Qed.

(** No name the interpreter produces starts like [ai]. *)
Lemma command_names_head (n : string) :
  In n command_names ->
  exists x w, n = String x w /\ plain x = true /\ x <> "a"%char.
Proof.
  unfold command_names. simpl.
  intros H.
  repeat (destruct H as [<-|H];
          [eexists; eexists; split; [reflexivity|split;
             [reflexivity|discriminate]]|]).
  contradiction.
Qed.

Lemma command_string_head (cmd : string) (cmd_args : pyval) (cmd_str : string) :
  command_string cmd cmd_args = Ok cmd_str ->
  exists rest, cmd_str = (cmd ++ rest)%string.
Proof.
  unfold command_string. destruct (truthy cmd_args).
  - destruct (join_args cmd_args); [|discriminate].
    intros H. injection H as <-. eauto.
  - intros H. injection H as <-. exists "". rewrite PathFacts.append_nil_r.
    reflexivity.
Qed.

(** A line of the [ai] handler never parses to the command [ai]. *)
Lemma interpreted_not_ai (c : string * pyval) (cmd_str cmd : string)
  (args : list string) :
  known c ->
  command_string (fst c) (snd c) = Ok cmd_str ->
  parse cmd_str = Ok (cmd, args) ->
  cmd <> "ai".
Proof.
  intros K Hs Hp.
  destruct (command_names_head _ K) as [x [w [En [Px Hx]]]].
  destruct (command_string_head _ _ _ Hs) as [rest ->].
  rewrite En in Hp. simpl in Hp.
  destruct (parse_head _ _ _ _ Px Hp) as [w' ->].
  intros E. injection E as E _. apply Hx. exact E.
Qed.

Section SessionFacts.
Variable Backend : Type.
Variable external : string -> list string -> Backend -> pyres string * Backend.
Variable os_system_clear : Backend -> Backend.
Variable subprocess_run : string -> Backend -> run_outcome * Backend.
Variables help_text ai_usage arrow bullet : string.

Abbreviation Terminal := (Terminal Backend).
Abbreviation execute :=
  (execute Backend external os_system_clear subprocess_run
           help_text ai_usage arrow bullet).
Abbreviation run_handler :=
  (run_handler Backend external os_system_clear help_text ai_usage arrow bullet).
Abbreviation ai_loop := (ai_loop Backend arrow).
Abbreviation cmd_ai := (cmd_ai Backend ai_usage arrow bullet).
Abbreviation history := (command_history Backend).

(** What [execute] itself adds to the history for a line. *)
Definition own_entry (line : string) : list string :=
  if String.eqb (strip line) "" then []
  else match parse line with
       | Ok _ => [line]
       | Raise _ => []
       end.

(** A line whose command, if it parses, is not [ai]. *)
Definition not_ai (line : string) : Prop :=
  forall cmd args, parse line = Ok (cmd, args) -> cmd <> "ai".

Lemma run_handler_plain exec (h : handler) (args : list string) (t : Terminal) :
  h <> Ai ->
  exists r t',
    run_handler exec h args t = Some (r, t') /\ history t' = history t.
Proof.
  intros Hh. destruct h; try congruence; simpl.
  - destruct (external name args (backend Backend t)) as [r b].
    eexists; eexists; split; reflexivity.
  - eexists; eexists; split; reflexivity.
  - eexists; eexists; split; reflexivity.
  - eexists; eexists; split; reflexivity.
  - eexists; eexists; split; reflexivity.
  - eexists; eexists; split; reflexivity.
Qed.

Lemma host_shell_history (line : string) (t : Terminal) :
  history (snd (host_shell Backend subprocess_run line t)) = history t.
Proof.
  unfold host_shell.
  destruct (subprocess_run line (backend Backend t)) as [o b]. reflexivity.
Qed.

Lemma execute_unfold (d : nat) (t : Terminal) (line : string) :
  execute (S d) t line =
  if String.eqb (strip line) "" then Some ("", t)
  else
    match parse line with
    | Raise e =>
        Some ((Colors.RED ++ "Parse error: " ++ e ++ Colors.RESET)%string, t)
    | Ok (cmd, args) =>
        let t1 := with_history Backend t (history t ++ [line]) in
        match PyDict.get cmd commands with
        | Some h =>
            match run_handler (execute d) h args t1 with
            | None => None
            | Some (Ok result, t') => Some (result, t')
            | Some (Raise e, t') =>
                Some ((Colors.RED ++ "Error executing " ++ cmd ++ ": "
                       ++ e ++ Colors.RESET)%string, t')
            end
        | None =>
            if negb (use_virtual Backend t1)
            then Some (host_shell Backend subprocess_run line t1)
            else
              Some ((Colors.RED ++ "Command not found: " ++ cmd
                     ++ Colors.RESET)%string, t1)
        end
    end.
Proof. reflexivity. Qed.

(** A call of [execute] on a line that is not for [ai] needs no
    further call. *)
Lemma execute_plain (d : nat) (t : Terminal) (line : string) :
  not_ai line ->
  exists out t',
    execute (S d) t line = Some (out, t')
    /\ history t' = history t ++ own_entry line.
Proof.
  intros N. unfold own_entry. cbn [Terminal.execute].
  destruct (String.eqb (strip line) "").
  - eexists; eexists; split; [reflexivity|]. rewrite app_nil_r. reflexivity.
  - destruct (parse line) as [[cmd args]|e] eqn:P.
    + destruct (PyDict.get cmd commands) as [h|] eqn:G.
      * assert (Hh : h <> Ai).
        { intros ->. apply ai_name in G. exact (N _ _ P G). }
        destruct (run_handler_plain (execute d) h args
                    (with_history Backend t (history t ++ [line])) Hh)
          as [r [t' [-> Ht]]].
        destruct r; eexists; eexists; (split; [reflexivity|exact Ht]).
      * cbn [use_virtual with_history].
        destruct (negb (use_virtual Backend t)).
        -- eexists; eexists; split; [f_equal; apply surjective_pairing|].
           rewrite host_shell_history. reflexivity.
        -- eexists; eexists; split; reflexivity.
    + eexists; eexists; split; [reflexivity|]. rewrite app_nil_r. reflexivity.
Qed.

Lemma own_entry_not_ai (line : string) :
  not_ai line -> Forall not_ai (own_entry line).
Proof.
  intros N. unfold own_entry.
  destruct (String.eqb (strip line) ""); [constructor|].
  destruct (parse line); constructor; [exact N|constructor].
Qed.

(** The loop of [cmd_ai] adds to the history only lines that are not
    for [ai]. *)
Lemma ai_loop_history (d : nat) (cmds : list (string * pyval)) :
  Forall known cmds ->
  forall outputs t,
  exists r t' extra,
    ai_loop (execute (S d)) cmds outputs t = Some (r, t')
    /\ history t' = history t ++ extra
    /\ Forall not_ai extra.
Proof.
  induction 1 as [|[cmd cmd_args] cmds K _ IH]; intros outputs t.
  - exists (Ok outputs), t, []. simpl. rewrite app_nil_r. repeat split.
    constructor.
  - cbn [Terminal.ai_loop].
    destruct (command_string cmd cmd_args) as [cmd_str|e] eqn:S.
    + assert (N : not_ai cmd_str).
      { intros c a P. exact (interpreted_not_ai (cmd, cmd_args) _ _ _ K S P). }
      destruct (execute_plain d t cmd_str N) as [out [t1 [-> H1]]].
      match goal with
      | |- context [Terminal.ai_loop _ _ _ _ ?o t1] =>
          destruct (IH o t1) as [r [t' [extra [-> [H2 F]]]]]
      end.
      exists r, t', (own_entry cmd_str ++ extra).
      split; [reflexivity|]. split.
      * rewrite H2, H1, app_assoc. reflexivity.
      * apply Forall_app. split; [apply own_entry_not_ai; exact N|exact F].
    + exists (Raise e), t, []. rewrite app_nil_r. repeat split. constructor.
Qed.

Lemma cmd_ai_history (d : nat) (args : list string) (t : Terminal) :
  exists r t' extra,
    cmd_ai (execute (S d)) args t = Some (r, t')
    /\ history t' = history t ++ extra
    /\ Forall not_ai extra.
Proof.
  unfold Terminal.cmd_ai. destruct args as [|a args].
  - exists (Ok ai_usage), t, []. rewrite app_nil_r. repeat split. constructor.
  - destruct (interpret_known (join " " (a :: args))) as [cmds [-> [_ K]]].
    destruct cmds as [|c cmds].
    + eexists; exists t, []. rewrite app_nil_r. repeat split. constructor.
    + assert (F : Forall known (c :: cmds)) by (apply Forall_forall; exact K).
      match goal with
      | |- context [Terminal.ai_loop _ _ _ _ ?o t] =>
          destruct (ai_loop_history d (c :: cmds) F o t)
            as [r [t' [extra [-> [H F']]]]]
      end.
      destruct r; eexists; exists t', extra; repeat split; assumption.
Qed.

Lemma not_ai_absent (line : string) (args : list string) (extra : list string) :
  parse line = Ok ("ai", args) -> Forall not_ai extra -> ~ In line extra.
Proof.
  intros P F Hin. rewrite Forall_forall in F.
  exact (F _ Hin _ _ P eq_refl).
Qed.

(** C7: [execute] returns for every line once two nested calls are
    allowed.  For a blank line the output is empty and the session is
    as before; for a line that does not parse the output is the error
    text and the session is as before; for every other line the history
    afterwards is the history before, then the line, then what the
    handler added by calling [execute] itself: that is nothing unless
    the command is [ai], and never the line again. *)
Theorem execute_history (depth : nat) (t : Terminal) (line : string) :
  2 <= depth ->
  exists out t',
    execute depth t line = Some (out, t')
    /\ (strip line = "" -> out = "" /\ t' = t)
    /\ (forall e, strip line <> "" -> parse line = Raise e ->
          out = (Colors.RED ++ "Parse error: " ++ e ++ Colors.RESET)%string
          /\ t' = t)
    /\ (forall cmd args, strip line <> "" -> parse line = Ok (cmd, args) ->
          exists extra,
            history t' = history t ++ line :: extra
            /\ ~ In line extra
            /\ (cmd <> "ai" -> extra = [])).
Proof.
  intros Hd. destruct depth as [|[|d]]; try lia. clear Hd.
  rewrite execute_unfold.
  destruct (String.eqb (strip line) "") eqn:B.
  { apply String.eqb_eq in B. exists "", t. split; [reflexivity|].
    split; [auto|]. split; intros; contradiction. }
  apply String.eqb_neq in B.
  destruct (parse line) as [[cmd args]|e] eqn:P.
  2:{ eexists; exists t. split; [reflexivity|].
      split; [intros; contradiction|].
      split; [intros e' _ E; injection E as <-; auto|discriminate]. }
  cbv zeta. set (t1 := with_history Backend t (history t ++ [line])).
  assert (Done : forall out t' extra,
             history t' = history t1 ++ extra ->
             ~ In line extra -> (cmd <> "ai" -> extra = []) ->
             (strip line = "" -> out = "" /\ t' = t)
             /\ (forall e, strip line <> "" ->
                   @Ok (string * list string) (cmd, args) = Raise e ->
                   out = (Colors.RED ++ "Parse error: " ++ e
                          ++ Colors.RESET)%string /\ t' = t)
             /\ (forall cmd0 args0, strip line <> "" ->
                   @Ok (string * list string) (cmd, args) = Ok (cmd0, args0) ->
                   exists extra0,
                     history t' = history t ++ line :: extra0
                     /\ ~ In line extra0
                     /\ (cmd0 <> "ai" -> extra0 = []))).
  { intros out t' extra H1 H2 H3.
    split; [intros; contradiction|]. split; [discriminate|].
    intros cmd0 args0 _ E. injection E as <- <-.
    exists extra. split; [|split; assumption].
    rewrite H1. unfold t1. simpl. rewrite <- app_assoc. reflexivity. }
  destruct (PyDict.get cmd commands) as [h|] eqn:G.
  - destruct h; try (
      match goal with
      | |- context [Terminal.run_handler _ _ _ _ _ _ _ ?ex ?h _ _] =>
          destruct (run_handler_plain ex h args t1 ltac:(discriminate))
            as [r [t' [-> Ht]]]
      end;
      destruct r; eexists; exists t'; (split; [reflexivity|]);
      (apply (Done _ _ []);
       [rewrite app_nil_r; exact Ht|intros []|intros _; reflexivity])).
    apply ai_name in G. subst cmd. cbn [Terminal.run_handler].
    destruct (cmd_ai_history d args t1) as [r [t' [extra [-> [H F]]]]].
    destruct r; eexists; exists t'; (split; [reflexivity|]);
      apply (Done _ _ extra); try exact H;
      try (exact (not_ai_absent _ _ _ P F)); congruence.
  - assert (Hn : cmd <> "ai") by (intros ->; discriminate G).
    destruct (negb (use_virtual Backend t1)).
    + eexists; eexists. split; [f_equal; apply surjective_pairing|].
      apply (Done _ _ []);
        [rewrite app_nil_r; apply host_shell_history|intros []
        |intros _; reflexivity].
    + eexists; exists t1. split; [reflexivity|].
      apply (Done _ _ []);
        [rewrite app_nil_r; reflexivity|intros []|intros _; reflexivity].
Qed.

End SessionFacts.

(** A sandboxed session whose external commands print their name. *)
Definition echo_name (name : string) (args : list string) (b : unit)
  : pyres string * unit := (Ok name, b).

Definition idle (line : string) (b : unit) : run_outcome * unit :=
  (TimeoutExpired, b).

Definition session : Terminal unit := mkTerminal unit true true [] tt.

Lemma execute_history_witness :
  exists out t',
    execute unit echo_name (fun b => b) idle "help" "usage" ">" "*"
      2 session "ai go home" = Some (out, t')
    /\ (strip "ai go home" = "" -> out = "" /\ t' = session)
    /\ (forall e, strip "ai go home" <> "" -> parse "ai go home" = Raise e ->
          out = (Colors.RED ++ "Parse error: " ++ e ++ Colors.RESET)%string
          /\ t' = session)
    /\ (forall cmd args,
          strip "ai go home" <> "" -> parse "ai go home" = Ok (cmd, args) ->
          exists extra,
            command_history unit t'
            = command_history unit session ++ "ai go home" :: extra
            /\ ~ In "ai go home" extra
            /\ (cmd <> "ai" -> extra = [])).
Proof.
  apply (execute_history unit echo_name (fun b => b) idle "help" "usage"
           ">" "*" 2 session "ai go home").
  lia.
Defined.

End DispatcherFacts.

(** * Further properties of the file system *)

Module FrameFacts.
Import PyStr PosixPath VirtualFS PyFacts NormalizeFacts PathFacts ParentFacts
       TreeFacts OpFacts MoveFacts.

(** What the queries of the file system see of a node: the content of
    a file, nothing of a directory. *)
Definition view (n : Node) : option string :=
  match n with
  | File c _ _ _ _ => Some c
  | Directory _ _ _ _ => None
  end.

Definition look (r : Node) (addr : list string) : option (option string) :=
  option_map view (walk addr r).

(** Two file systems answer the four queries alike at [q]. *)
Definition same_at (fs fs' : VirtualFileSystem) (q : string) : Prop :=
  exists_ fs' q = exists_ fs q
  /\ is_directory fs' q = is_directory fs q
  /\ is_file fs' q = is_file fs q
  /\ read_file fs' q = read_file fs q.

Lemma same_at_refl (fs : VirtualFileSystem) (q : string) : same_at fs fs q.
Proof. repeat split. Qed.

Lemma same_at_look (fs : VirtualFileSystem) (r : Node) (q : string) :
  look r (address fs q) = look (root fs) (address fs q) ->
  same_at fs (with_root fs r) q.
Proof.
  unfold same_at, look, exists_, is_directory, is_file, read_file.
  rewrite get_node_with_root, get_node_walk. intros H.
  destruct (walk (address fs q) r) as [[]|];
    destruct (walk (address fs q) (root fs)) as [[]|];
    simpl in H; try discriminate; try (injection H as <-); repeat split.
Qed.

Lemma is_prefix_nil_false (b : list string) : is_prefix [] b = false -> False.
Proof. simpl. discriminate. Qed.

Lemma walk_update_above (b c : list string) (f : Node -> Node) (r : Node) :
  walk b (update (b ++ c) f r) = option_map (update c f) (walk b r).
Proof.
  revert r. induction b as [|x b IH]; intros r; simpl; [reflexivity|].
  destruct r as [|cr m pm ch]; [reflexivity|].
  destruct (PyDict.get x ch) as [child|] eqn:G; simpl.
  - rewrite get_set_same. apply IH.
  - rewrite G. reflexivity.
Qed.

Lemma view_update (c : list string) (f : Node -> Node) (n : Node) :
  c <> [] \/ (forall k, view (f k) = view k) ->
  view (update c f n) = view n.
Proof.
  intros H. destruct c as [|x c]; simpl.
  - destruct H as [H|H]; [congruence|apply H].
  - destruct n as [|cr m pm ch]; [reflexivity|].
    destruct (PyDict.get x ch); reflexivity.
Qed.

(** A mutation of the node at [a] is not seen at an address that does
    not start with [a]. *)
Lemma look_update (a : list string) (f : Node -> Node) (r : Node)
  (b : list string) :
  is_prefix a b = false -> look (update a f r) b = look r b.
Proof.
  intros P. unfold look.
  destruct (prefix_cases a b) as [E|[E|E]]; [congruence| |].
  - apply is_prefix_app in E as [c ->].
    rewrite walk_update_above.
    destruct (walk b r) as [n|]; [|reflexivity]. simpl.
    rewrite view_update; [reflexivity|]. left. intros ->.
    rewrite app_nil_r, <- (app_nil_r b) in P at 1.
    rewrite app_nil_r in P.
    pose proof (is_prefix_refl_app b []) as R. rewrite app_nil_r in R.
    congruence.
  - rewrite (walk_update_diverge _ _ _ _ E). reflexivity.
Qed.

(** A mutation of a directory that only concerns its entry [l]. *)
Definition entry_only (l : string) (f : Node -> Node) : Prop :=
  (forall n, view (f n) = view n)
  /\ (forall y c n, y <> l -> walk (y :: c) (f n) = walk (y :: c) n).

Lemma set_child_entry_only (l : string) (v : Node) :
  entry_only l (set_child l v).
Proof.
  split.
  - intros [|]; reflexivity.
  - intros y c [|cr m pm ch] N; [reflexivity|].
    simpl. rewrite get_set_other by exact N. reflexivity.
Qed.

Lemma del_child_entry_only (l : string) : entry_only l (del_child l).
Proof.
  split.
  - intros [|]; reflexivity.
  - intros y c n N. apply walk_del_other. exact N.
Qed.

(** A mutation of the entry [l] of the directory at [init] is not seen
    at an address that does not start with [init ++ [l]]. *)
Lemma look_entry (init : list string) (l : string) (f : Node -> Node)
  (r : Node) (b : list string) :
  entry_only l f ->
  is_prefix (init ++ [l]) b = false ->
  look (update init f r) b = look r b.
Proof.
  intros [Hv Hw] P. unfold look.
  destruct (prefix_cases init b) as [E|[E|E]].
  - apply is_prefix_app in E as [c ->].
    rewrite walk_update_below, walk_app.
    destruct (walk init r) as [n|]; [|reflexivity].
    destruct c as [|y c].
    + simpl. rewrite Hv. reflexivity.
    + rewrite Hw; [reflexivity|]. intros ->.
      change (init ++ l :: c) with (init ++ [l] ++ c) in P.
      rewrite app_assoc, is_prefix_refl_app in P. discriminate.
  - apply is_prefix_app in E as [c ->].
    rewrite walk_update_above.
    destruct (walk b r) as [n|]; [|reflexivity]. simpl.
    rewrite view_update; [reflexivity|]. right. exact Hv.
  - rewrite (walk_update_diverge _ _ _ _ E). reflexivity.
Qed.

Lemma snoc_address (fs : VirtualFileSystem) (p : string) (b : list string) :
  is_prefix (address fs p) b = false ->
  address fs p = removelast (address fs p) ++ [last (address fs p) ""].
Proof.
  intros P.
  destruct (list_snoc_cases (address fs p)) as [E|[init [l E]]].
  - rewrite E in P. discriminate.
  - rewrite E, removelast_last, last_last. reflexivity.
Qed.

Lemma frame_entry (fs : VirtualFileSystem) (p q : string) (f : Node -> Node) :
  entry_only (last (address fs p) "") f ->
  is_prefix (address fs p) (address fs q) = false ->
  same_at fs
    (with_root fs (update (removelast (address fs p)) f (root fs))) q.
Proof.
  intros Hf P. apply same_at_look. apply (look_entry _ _ _ _ _ Hf).
  rewrite <- (snoc_address fs p _ P). exact P.
Qed.

Lemma frame_of_mutations (now : string) (fs : VirtualFileSystem)
  (p q : string) :
  is_prefix (address fs p) (address fs q) = false ->
  (forall c, same_at fs (snd (write_file now fs p c)) q)
  /\ (forall c, same_at fs (snd (create_file now fs p c)) q)
  /\ same_at fs (snd (create_directory now fs p)) q
  /\ same_at fs (snd (remove_item fs p)) q
  /\ (forall src, same_at fs (snd (copy_item now fs src p)) q).
Proof.
  intros P.
  assert (C : forall c, same_at fs (snd (create_file now fs p c)) q).
  { intros c. rewrite create_file_eq.
    destruct (walk _ (root fs)) as [[|cr m pm ch]|];
      try apply same_at_refl.
    apply frame_entry; [apply set_child_entry_only|exact P]. }
  split; [|split; [exact C|split; [|split]]].
  - intros c. unfold write_file.
    destruct (get_node fs p) as [[c0 cr m pm s|cr m pm ch]|].
    + apply same_at_look, look_update. exact P.
    + apply C.
    + apply C.
  - rewrite create_directory_eq.
    destruct (walk _ (root fs)) as [[|cr m pm ch]|];
      try apply same_at_refl.
    destruct (negb _); [|apply same_at_refl].
    apply frame_entry; [apply set_child_entry_only|exact P].
  - unfold remove_item.
    rewrite get_parent_node_eq, parent_address_eq.
    destruct (walk _ (root fs)) as [[|cr m pm ch]|];
      try apply same_at_refl.
    destruct (PyDict.mem _ _); [|apply same_at_refl].
    apply frame_entry; [apply del_child_entry_only|exact P].
  - intros src. rewrite copy_item_eq.
    destruct (walk (address fs src) (root fs)) as [n|];
      [|apply same_at_refl].
    destruct (walk (removelast (address fs p)) (root fs))
      as [[|cr m pm ch]|]; try apply same_at_refl.
    apply frame_entry; [apply set_child_entry_only|exact P].
Qed.

(** X1.  [write_file], [create_file], [create_directory] and
    [remove_item] on a path [p], and [copy_item] to [p], change what
    [exists], [is_directory], [is_file] and [read_file] answer only at
    [p] and below [p]: at every path [q] whose normalized form does not
    start with the components of [p] the four answers are as before. *)
Theorem mutation_frame (now : string) (fs : VirtualFileSystem)
  (p q : string) :
  is_prefix (address fs p) (address fs q) = false ->
  (forall c, same_at fs (snd (write_file now fs p c)) q)
  /\ (forall c, same_at fs (snd (create_file now fs p c)) q)
  /\ same_at fs (snd (create_directory now fs p)) q
  /\ same_at fs (snd (remove_item fs p)) q
  /\ (forall src, same_at fs (snd (copy_item now fs src p)) q).
Proof. exact (frame_of_mutations now fs p q). Qed.

Lemma mutation_frame_witness :
  (forall c, same_at init (snd (write_file "t1" init "/tmp/f" c)) "/etc/hosts")
  /\ (forall c, same_at init (snd (create_file "t1" init "/tmp/f" c))
                  "/etc/hosts")
  /\ same_at init (snd (create_directory "t1" init "/tmp/f")) "/etc/hosts"
  /\ same_at init (snd (remove_item init "/tmp/f")) "/etc/hosts"
  /\ (forall src, same_at init (snd (copy_item "t1" init src "/tmp/f"))
                    "/etc/hosts").
Proof.
  apply (mutation_frame "t1" init "/tmp/f" "/etc/hosts"). reflexivity.
Defined.

End FrameFacts.

Module FsFacts.
Import PyStr PosixPath VirtualFS PyFacts NormalizeFacts PathFacts ParentFacts
       TreeFacts OpFacts MoveFacts FrameFacts.

(** *** The root *)

Lemma update_keeps_dir (addr : list string) (f : Node -> Node) (r : Node) :
  (forall n, is_dir_node n = true -> is_dir_node (f n) = true) ->
  is_dir_node r = true -> is_dir_node (update addr f r) = true.
Proof.
  intros Hf Hr. destruct addr as [|x addr]; simpl; [apply Hf, Hr|].
  destruct r as [|cr m pm ch]; [discriminate|].
  destruct (PyDict.get x ch); reflexivity.
Qed.

Lemma set_child_dir k v n : is_dir_node n = true -> is_dir_node (set_child k v n) = true.
Proof. destruct n; intros H; [discriminate|reflexivity]. Qed.

Lemma del_child_dir k n : is_dir_node n = true -> is_dir_node (del_child k n) = true.
Proof. destruct n; intros H; [discriminate|reflexivity]. Qed.

Lemma set_modified_dir t n : is_dir_node n = true -> is_dir_node (set_modified t n) = true.
Proof. destruct n; intros H; [discriminate|reflexivity]. Qed.

Lemma overwrite_dir t c n : is_dir_node n = true -> is_dir_node (overwrite t c n) = true.
Proof. destruct n; intros H; [discriminate|reflexivity]. Qed.

Lemma is_directory_root (fs : VirtualFileSystem) :
  is_directory fs "/" = is_dir_node (root fs).
Proof. reflexivity. Qed.

(** X2.  The root is never removed nor replaced: when ["/"] is a
    directory, it is one after each of [create_directory],
    [create_file], [write_file], [remove_item], [move_item],
    [copy_item] and [change_directory], whatever their arguments and
    results. *)
Theorem root_stays_directory (now : string) (fs : VirtualFileSystem) :
  is_directory fs "/" = true ->
  (forall p, is_directory (snd (create_directory now fs p)) "/" = true)
  /\ (forall p c, is_directory (snd (create_file now fs p c)) "/" = true)
  /\ (forall p c, is_directory (snd (write_file now fs p c)) "/" = true)
  /\ (forall p, is_directory (snd (remove_item fs p)) "/" = true)
  /\ (forall s d, is_directory (snd (move_item now fs s d)) "/" = true)
  /\ (forall s d, is_directory (snd (copy_item now fs s d)) "/" = true)
  /\ (forall p, is_directory (snd (change_directory fs p)) "/" = true).
Proof.
  rewrite is_directory_root. intros H.
  assert (C : forall p c, is_directory (snd (create_file now fs p c)) "/" = true).
  { intros p c. rewrite is_directory_root, create_file_eq.
    destruct (walk _ (root fs)) as [[|cr m pm ch]|]; try exact H.
    apply update_keeps_dir; [apply set_child_dir|exact H]. }
  split; [|split; [exact C|split; [|split; [|split; [|split]]]]].
  - intros p. rewrite is_directory_root, create_directory_eq.
    destruct (walk _ (root fs)) as [[|cr m pm ch]|]; try exact H.
    destruct (negb _); [|exact H].
    apply update_keeps_dir; [apply set_child_dir|exact H].
  - intros p c. unfold write_file.
    destruct (get_node fs p) as [[c0 cr m pm s|cr m pm ch]|].
    + rewrite is_directory_root.
      apply update_keeps_dir; [apply overwrite_dir|exact H].
    + apply C.
    + apply C.
  - intros p. rewrite is_directory_root. unfold remove_item.
    rewrite get_parent_node_eq, parent_address_eq.
    destruct (walk _ (root fs)) as [[|cr m pm ch]|]; try exact H.
    destruct (PyDict.mem _ _); [|exact H].
    apply update_keeps_dir; [apply del_child_dir|exact H].
  - intros s d. rewrite is_directory_root, move_item_eq. cbv zeta.
    destruct (walk (removelast (address fs s)) (root fs))
      as [[|cr m pm sch]|]; try exact H.
    destruct (walk (removelast (address fs d)) (root fs))
      as [[|cr' m' pm' dch]|]; try exact H.
    destruct (PyDict.get _ sch) as [item|]; [|exact H].
    apply update_keeps_dir; [apply set_modified_dir|].
    destruct (is_prefix _ _).
    + apply update_keeps_dir; [apply set_child_dir|exact H].
    + apply update_keeps_dir; [apply del_child_dir|].
      apply update_keeps_dir; [apply set_child_dir|exact H].
  - intros s d. rewrite is_directory_root, copy_item_eq.
    destruct (walk (address fs s) (root fs)) as [n|]; [|exact H].
    destruct (walk (removelast (address fs d)) (root fs))
      as [[|cr m pm ch]|]; try exact H.
    apply update_keeps_dir; [apply set_child_dir|exact H].
  - intros p. rewrite is_directory_root. unfold change_directory.
    destruct (is_directory fs _); exact H.
Qed.

Lemma root_stays_directory_witness :
  (forall p, is_directory (snd (create_directory "t1" init p)) "/" = true)
  /\ (forall p c, is_directory (snd (create_file "t1" init p c)) "/" = true)
  /\ (forall p c, is_directory (snd (write_file "t1" init p c)) "/" = true)
  /\ (forall p, is_directory (snd (remove_item init p)) "/" = true)
  /\ (forall s d, is_directory (snd (move_item "t1" init s d)) "/" = true)
  /\ (forall s d, is_directory (snd (copy_item "t1" init s d)) "/" = true)
  /\ (forall p, is_directory (snd (change_directory init p)) "/" = true).
Proof. apply (root_stays_directory "t1" init). reflexivity. Defined.

(** *** Existence *)

Lemma nonroot_snoc (fs : VirtualFileSystem) (p : string) :
  normalize_path fs p <> "/" ->
  exists init l, address fs p = init ++ [l].
Proof.
  intros Hp.
  destruct (list_snoc_cases (address fs p)) as [E|H]; [|exact H].
  exfalso. apply Hp, root_address, E.
Qed.

Lemma normalize_path_idem (fs : VirtualFileSystem) (p : string) :
  normalize_path fs (normalize_path fs p) = normalize_path fs p.
Proof. apply normalize_from_idem. Qed.

(** X3.  What exists lies in a directory: if [p] exists and is not the
    root, then [dirname] of its normalized form is a directory. *)
Theorem exists_parent_directory (fs : VirtualFileSystem) (p : string) :
  exists_ fs p = true ->
  normalize_path fs p <> "/" ->
  is_directory fs (dirname (normalize_path fs p)) = true.
Proof.
  intros He Hp. destruct (nonroot_snoc fs p Hp) as [init [l E]].
  unfold exists_ in He. rewrite get_node_walk, E in He.
  destruct (walk (init ++ [l]) (root fs)) as [n|] eqn:W; [|discriminate].
  destruct (walk_snoc _ _ _ _ W) as [cr [m [pm [ch [Wi _]]]]].
  unfold is_directory. rewrite get_node_walk.
  pose proof (parent_address_eq fs p) as Pa. unfold parent_address in Pa.
  rewrite normalize_path_idem in Pa.
  rewrite Pa, E, removelast_last, Wi. reflexivity.
Qed.

Lemma exists_parent_directory_witness :
  is_directory init (dirname (normalize_path init "documents/readme.txt"))
  = true.
Proof.
  apply (exists_parent_directory init "documents/readme.txt").
  - reflexivity.
  - discriminate.
Defined.

Lemma mem_get {V} (k : string) (d : PyDict.t V) :
  PyDict.mem k d = match PyDict.get k d with Some _ => true | None => false end.
Proof. reflexivity. Qed.

Lemma set_absent {V} (k : string) (v : V) (d : PyDict.t V) :
  PyDict.get k d = None -> PyDict.set k v d = d ++ [(k, v)].
Proof.
  induction d as [|[k' v'] d IH]; simpl; [reflexivity|].
  destruct (String.eqb k' k); [discriminate|].
  intros H. rewrite (IH H). reflexivity.
Qed.

(** X4.  [create_directory] does not overwrite what lies below the
    root: on a path other than the root that exists it returns false
    and changes nothing; and when it returns true for a path other than
    the root, the path did not exist before and is afterwards a
    directory that lists as empty.  The root, which always exists, is
    the exception: for a path that normalizes to ["/"] the name looked
    up is the empty one, and when the root directory has no entry of
    that name the method returns true and adds an empty directory
    under it. *)
Theorem create_directory_fresh (now : string) (fs : VirtualFileSystem)
  (p : string) :
  (normalize_path fs p <> "/" ->
   (exists_ fs p = true -> create_directory now fs p = (false, fs))
   /\ (forall fs', create_directory now fs p = (true, fs') ->
         exists_ fs p = false
         /\ is_directory fs' p = true
         /\ list_directory fs' p = []))
  /\ (normalize_path fs p = "/" ->
      exists_ fs p = true
      /\ forall cr m pm ch,
           root fs = Directory cr m pm ch ->
           PyDict.get "" ch = None ->
           create_directory now fs p
           = (true,
              with_root fs
                (Directory cr m pm
                   (ch ++ [("", Directory now now "drwxr-xr-x" [])])))).
Proof.
  split.
  - intros Hp. destruct (nonroot_snoc fs p Hp) as [init [l E]].
    rewrite create_directory_eq.
    unfold exists_, is_directory, list_directory.
    rewrite get_node_walk, E, removelast_last, last_last, walk_app.
    destruct (walk init (root fs)) as [[|cr m pm ch]|] eqn:W.
    + split; [reflexivity|discriminate].
    + simpl walk. rewrite mem_get.
      destruct (PyDict.get l ch) as [child|] eqn:G; simpl negb.
      * split; [reflexivity|discriminate].
      * split; [discriminate|].
        intros fs' H. injection H as <-.
        rewrite !get_node_with_root, E.
        rewrite (walk_set_child _ _ _ _ _ _ _ _ W). repeat split.
    + split; [reflexivity|discriminate].
  - intros Hp. apply root_address in Hp.
    split; [unfold exists_; rewrite get_node_walk, Hp; reflexivity|].
    intros cr m pm ch R G.
    rewrite create_directory_eq, Hp. cbn [removelast last walk update].
    rewrite R, mem_get, G. cbn [negb set_child].
    rewrite (set_absent _ _ _ G). reflexivity.
Qed.

Lemma create_directory_fresh_witness :
  create_directory "t1" init "/tmp" = (false, init)
  /\ (let fs' := snd (create_directory "t1" init "/tmp/new") in
      exists_ init "/tmp/new" = false
      /\ is_directory fs' "/tmp/new" = true
      /\ list_directory fs' "/tmp/new" = [])
  /\ fst (create_directory "t1" init "/") = true
  /\ PyDict.mem "" (children_of (root (snd (create_directory "t1" init "/"))))
     = true.
Proof.
  destruct (create_directory_fresh "t1" init "/tmp") as [A _].
  destruct (create_directory_fresh "t1" init "/tmp/new") as [B _].
  destruct (create_directory_fresh "t1" init "/") as [_ C].
  split; [apply A; [discriminate|reflexivity]|].
  split; [apply B; [discriminate|reflexivity]|].
  destruct (C eq_refl) as [_ C'].
  rewrite (C' _ _ _ _ eq_refl eq_refl). split; reflexivity.
Defined.

(** X5.  [remove_item] on a path that does not exist returns false and
    changes nothing; when it returns true for a path other than the
    root, the path existed and afterwards neither it nor any path below
    it exists. *)
Theorem remove_item_removes (fs : VirtualFileSystem) (p : string) :
  normalize_path fs p <> "/" ->
  (exists_ fs p = false -> remove_item fs p = (false, fs))
  /\ (forall fs', remove_item fs p = (true, fs') ->
        exists_ fs p = true
        /\ forall q suffix,
             address fs q = address fs p ++ suffix -> exists_ fs' q = false).
Proof.
  intros Hp. destruct (nonroot_snoc fs p Hp) as [init [l E]].
  unfold remove_item. rewrite get_parent_node_eq, parent_address_eq.
  unfold exists_.
  rewrite get_node_walk, E, removelast_last, last_last, walk_app.
  destruct (walk init (root fs)) as [[|cr m pm ch]|] eqn:W.
  - split; [reflexivity|discriminate].
  - simpl walk. rewrite mem_get.
    destruct (PyDict.get l ch) as [child|] eqn:G.
    + split; [discriminate|].
      intros fs' H. injection H as <-. split; [reflexivity|].
      intros q suffix Hq. rewrite get_node_with_root, Hq.
      rewrite <- app_assoc, walk_update_below, W.
      simpl. rewrite get_del_same. reflexivity.
    + split; [reflexivity|discriminate].
  - split; [reflexivity|discriminate].
Qed.

Lemma remove_item_removes_witness :
  (exists_ init "/home/user" = false ->
   remove_item init "/home/user" = (false, init))
  /\ (forall fs', remove_item init "/home/user" = (true, fs') ->
        exists_ init "/home/user" = true
        /\ forall q suffix,
             address init q = address init "/home/user" ++ suffix ->
             exists_ fs' q = false).
Proof. apply (remove_item_removes init "/home/user"). discriminate. Defined.

(** X6.  [change_directory] either fails and changes nothing, or
    succeeds and leaves a current path that is normalized and is an
    existing directory of the unchanged tree; and ["~"] stands for
    ["/home/user"]. *)
Theorem change_directory_lands (fs : VirtualFileSystem) (p : string) :
  change_directory fs "~" = change_directory fs "/home/user"
  /\ (fst (change_directory fs p) = false -> snd (change_directory fs p) = fs)
  /\ (fst (change_directory fs p) = true ->
        let fs' := snd (change_directory fs p) in
        root fs' = root fs
        /\ normalize_path fs' (current_path fs') = current_path fs'
        /\ is_directory fs' (current_path fs') = true).
Proof.
  split; [reflexivity|]. unfold change_directory.
  set (target := normalize_path fs (if String.eqb p "~" then "/home/user" else p)).
  destruct (is_directory fs target) eqn:D; simpl.
  - split; [discriminate|]. intros _. split; [reflexivity|].
    assert (N : forall cur, normalize_from cur target = target).
    { intros cur. unfold target, normalize_path. apply normalize_from_idem. }
    split; [apply N|].
    unfold is_directory in *. rewrite get_node_walk in *.
    assert (A : address (mkVFS (root fs) target) target = address fs target).
    { unfold address, normalize_path. rewrite !N. reflexivity. }
    rewrite A. exact D.
  - split; [reflexivity|discriminate].
Qed.

Lemma change_directory_lands_witness :
  change_directory init "~" = change_directory init "/home/user"
  /\ (fst (change_directory init "../../tmp") = false ->
      snd (change_directory init "../../tmp") = init)
  /\ (fst (change_directory init "../../tmp") = true ->
        let fs' := snd (change_directory init "../../tmp") in
        root fs' = root init
        /\ normalize_path fs' (current_path fs') = current_path fs'
        /\ is_directory fs' (current_path fs') = true).
Proof. apply (change_directory_lands init "../../tmp"). Defined.

End FsFacts.

(** ** Copying, moving and the detailed listing *)

Module CopyMoveFacts.
Import PyStr PosixPath VirtualFS PyFacts NormalizeFacts PathFacts ParentFacts
       TreeFacts OpFacts MoveFacts FrameFacts FsFacts.

Lemma view_stamp (now : string) (n : Node) :
  view (set_modified now (set_created now n)) = view n.
Proof. destruct n; reflexivity. Qed.

Lemma is_dir_stamp (now : string) (n : Node) :
  is_dir_node (set_modified now (set_created now n)) = is_dir_node n.
Proof. destruct n; reflexivity. Qed.

Lemma copy_item_node (now : string) (fs fs1 : VirtualFileSystem)
  (src dst : string) :
  copy_item now fs src dst = (true, fs1) ->
  normalize_path fs dst <> "/" ->
  exists n,
    get_node fs src = Some n
    /\ get_node fs1 dst = Some (set_modified now (set_created now n))
    /\ fs1 = with_root fs (root fs1).
Proof.
  intros H Hd. destruct (nonroot_snoc fs dst Hd) as [init [l E]].
  rewrite copy_item_eq, E, removelast_last, last_last in H.
  destruct (walk (address fs src) (root fs)) as [n|] eqn:Ws; [|discriminate].
  destruct (walk init (root fs)) as [[|cr m pm ch]|] eqn:Wd; try discriminate.
  injection H as <-. exists n.
  rewrite get_node_walk, get_node_with_root, E.
  split; [exact Ws|]. split; [|reflexivity].
  exact (walk_set_child _ _ _ _ _ _ _ _ Wd).
Qed.

Lemma read_file_view (fs : VirtualFileSystem) (p : string) :
  read_file fs p = match get_node fs p with Some n => view n | None => None end.
Proof. unfold read_file. destruct (get_node fs p) as [[]|]; reflexivity. Qed.

Lemma copy_item_same (now : string) (fs fs1 : VirtualFileSystem)
  (src dst : string) :
  copy_item now fs src dst = (true, fs1) ->
  normalize_path fs dst <> "/" ->
  exists_ fs src = true
  /\ exists_ fs1 dst = true
  /\ is_directory fs1 dst = is_directory fs src
  /\ read_file fs1 dst = read_file fs src.
Proof.
  intros H Hd. destruct (copy_item_node _ _ _ _ _ H Hd) as [n [Gs [Gd _]]].
  rewrite !read_file_view. unfold exists_, is_directory.
  rewrite Gs, Gd, view_stamp, is_dir_stamp. repeat split.
Qed.

(** X7.  When [copy_item] returns true for a destination other than
    the root, the source exists, and the destination then exists, is a
    directory exactly when the source is one, and reads like the
    source. *)
Theorem copy_item_copies (now : string) (fs fs1 : VirtualFileSystem)
  (src dst : string) :
  copy_item now fs src dst = (true, fs1) ->
  normalize_path fs dst <> "/" ->
  exists_ fs src = true
  /\ exists_ fs1 dst = true
  /\ is_directory fs1 dst = is_directory fs src
  /\ read_file fs1 dst = read_file fs src.
Proof. exact (copy_item_same now fs fs1 src dst). Qed.

Lemma copy_item_copies_witness :
  let fs1 := snd (copy_item "t1" init "/etc/hosts" "/tmp/h") in
  exists_ init "/etc/hosts" = true
  /\ exists_ fs1 "/tmp/h" = true
  /\ is_directory fs1 "/tmp/h" = is_directory init "/etc/hosts"
  /\ read_file fs1 "/tmp/h" = read_file init "/etc/hosts".
Proof.
  apply (copy_item_copies "t1" init _ "/etc/hosts" "/tmp/h").
  - reflexivity.
  - discriminate.
Defined.

(** X8.  A copy is independent of its source: after a successful
    [copy_item] between two paths of which neither lies at or below
    the other, writing to the source leaves what is read at the
    destination as it was, and writing to the destination leaves what
    is read at the source as it was. *)
Theorem copy_is_independent (now : string) (fs fs1 : VirtualFileSystem)
  (src dst : string) :
  copy_item now fs src dst = (true, fs1) ->
  is_prefix (address fs src) (address fs dst) = false ->
  is_prefix (address fs dst) (address fs src) = false ->
  (forall now' c,
     read_file (snd (write_file now' fs1 src c)) dst = read_file fs src)
  /\ (forall now' c,
     read_file (snd (write_file now' fs1 dst c)) src = read_file fs src).
Proof.
  intros H Psd Pds.
  assert (Hd : normalize_path fs dst <> "/").
  { intros E. apply root_address in E. rewrite E in Pds. discriminate. }
  destruct (copy_item_node _ _ _ _ _ H Hd) as [n [_ [_ Efs]]].
  destruct (copy_item_same _ _ _ _ _ H Hd) as [_ [_ [_ R]]].
  assert (A : forall q, address fs1 q = address fs q)
    by (intros q; rewrite Efs; reflexivity).
  split; intros now' c.
  - assert (P1 : is_prefix (address fs1 src) (address fs1 dst) = false)
      by (rewrite !A; exact Psd).
    destruct (proj1 (frame_of_mutations now' fs1 src dst P1) c)
      as [_ [_ [_ W]]].
    rewrite W. exact R.
  - assert (P2 : is_prefix (address fs1 dst) (address fs1 src) = false)
      by (rewrite !A; exact Pds).
    destruct (proj1 (frame_of_mutations now' fs1 dst src P2) c)
      as [_ [_ [_ W]]].
    rewrite W.
    destruct (frame_of_mutations now fs dst src Pds) as [_ [_ [_ [_ C]]]].
    specialize (C src). rewrite H in C. destruct C as [_ [_ [_ C]]].
    exact C.
Qed.

Lemma copy_is_independent_witness :
  let fs1 := snd (copy_item "t1" init "/etc/hosts" "/tmp/h") in
  (forall now' c,
     read_file (snd (write_file now' fs1 "/etc/hosts" c)) "/tmp/h"
     = read_file init "/etc/hosts")
  /\ (forall now' c,
     read_file (snd (write_file now' fs1 "/tmp/h" c)) "/etc/hosts"
     = read_file init "/etc/hosts").
Proof.
  apply (copy_is_independent "t1" init _ "/etc/hosts" "/tmp/h");
    reflexivity.
Defined.

(** X9.  Away from the corner cases [move_item] moves: when it returns
    true for two paths of which neither lies at or below the other,
    the source no longer exists, and the destination exists, is a
    directory exactly when the source was one, and reads like the
    source did. *)
Theorem move_item_relocates (now : string) (fs fs' : VirtualFileSystem)
  (src dst : string) :
  move_item now fs src dst = (true, fs') ->
  is_prefix (address fs src) (address fs dst) = false ->
  is_prefix (address fs dst) (address fs src) = false ->
  exists_ fs src = true
  /\ exists_ fs' src = false
  /\ exists_ fs' dst = true
  /\ is_directory fs' dst = is_directory fs src
  /\ read_file fs' dst = read_file fs src.
Proof.
  intros H Psd Pds.
  destruct (move_item_moves _ _ _ _ _ H Psd Pds) as [item [Gs [Gs' Gd]]].
  rewrite !read_file_view. unfold exists_, is_directory.
  rewrite Gs, Gs', Gd. destruct item; repeat split.
Qed.

Lemma move_item_relocates_witness :
  let fs' := snd (move_item "t1" init "/etc/hosts" "/tmp/h") in
  exists_ init "/etc/hosts" = true
  /\ exists_ fs' "/etc/hosts" = false
  /\ exists_ fs' "/tmp/h" = true
  /\ is_directory fs' "/tmp/h" = is_directory init "/etc/hosts"
  /\ read_file fs' "/tmp/h" = read_file init "/etc/hosts".
Proof.
  apply (move_item_relocates "t1" init _ "/etc/hosts" "/tmp/h");
    reflexivity.
Defined.

(** The order of the detailed listing. *)
Definition detailed_before (x y : Detail) : Prop :=
  key_leb (detail_key x) (detail_key y) = true.

(** X10.  The detailed listing of an existing directory has one entry
    for each child, in ascending order of the key (is not a directory,
    name in lower case): directories come first; and the size shown
    for a directory is 0. *)
Theorem detailed_listing_sorted (fs : VirtualFileSystem) (path : string)
  (cr m p : string) (ch : PyDict.t Node) :
  get_node fs path = Some (Directory cr m p ch) ->
  Permutation (map detail_of ch) (get_detailed_listing fs path)
  /\ StronglySorted detailed_before (get_detailed_listing fs path)
  /\ (forall l1 x l2 y l3,
        get_detailed_listing fs path = l1 ++ x :: l2 ++ y :: l3 ->
        d_is_directory y = true -> d_is_directory x = true)
  /\ (forall x, In x (get_detailed_listing fs path) ->
        d_is_directory x = true -> d_size x = 0).
Proof.
  intros G. unfold get_detailed_listing. rewrite G.
  assert (P : Permutation (map detail_of ch)
                (sorted_by key_ltb detail_key (map detail_of ch)))
    by apply Listing.sorted_by_perm.
  assert (S : StronglySorted detailed_before
                (sorted_by key_ltb detail_key (map detail_of ch))).
  { apply (Listing.StronglySorted_impl (Listing.le key_ltb detail_key)).
    - intros a b H. unfold detailed_before, key_leb.
      unfold Listing.le in H. rewrite H. reflexivity.
    - apply Listing.sorted_by_sorted;
        [apply Listing.key_ltb_asym|apply Listing.key_leb_trans]. }
  split; [exact P|]. split; [exact S|]. split.
  - intros l1 x l2 y l3 E Hy. rewrite E in S.
    apply Listing.StronglySorted_pair in S.
    unfold detailed_before, key_leb, key_ltb, detail_key in S. simpl in S.
    rewrite Hy in S. simpl in S.
    destruct (d_is_directory x); [reflexivity|discriminate].
  - intros x Hx Dx.
    apply (Permutation_in _ (Permutation_sym P)) in Hx.
    apply in_map_iff in Hx as [[name item] [<- _]].
    simpl in *. destruct item; [discriminate|reflexivity].
Qed.

Lemma detailed_listing_sorted_witness :
  Permutation
    (map detail_of
       [("b.txt", File "" "t0" "t0" "-rw-r--r--" 0);
        ("A.txt", File "" "t0" "t0" "-rw-r--r--" 0);
        ("z", Directory "t0" "t0" "drwxr-xr-x" [])])
    (get_detailed_listing Listing.example "/d")
  /\ StronglySorted detailed_before (get_detailed_listing Listing.example "/d")
  /\ (forall l1 x l2 y l3,
        get_detailed_listing Listing.example "/d" = l1 ++ x :: l2 ++ y :: l3 ->
        d_is_directory y = true -> d_is_directory x = true)
  /\ (forall x, In x (get_detailed_listing Listing.example "/d") ->
        d_is_directory x = true -> d_size x = 0).
Proof.
  apply (detailed_listing_sorted Listing.example "/d" "t0" "t0" "drwxr-xr-x").
  reflexivity.
Defined.

End CopyMoveFacts.

(** ** The commands of a sandboxed session *)

Module ShellFacts.
Import PyStr PosixPath VirtualFS FileOperations PyFacts PathFacts ParentFacts
       TreeFacts OpFacts MoveFacts FrameFacts FsFacts.

(** *** What a removal and an addition leave in place *)

Lemma remove_item_eq (fs : VirtualFileSystem) (p : string) :
  remove_item fs p =
  match walk (removelast (address fs p)) (root fs) with
  | Some (Directory _ _ _ ch) =>
      if PyDict.mem (last (address fs p) "") ch then
        (true,
         with_root fs
           (update (removelast (address fs p))
              (del_child (last (address fs p) "")) (root fs)))
      else (false, fs)
  | _ => (false, fs)
  end.
Proof.
  unfold remove_item. rewrite get_parent_node_eq, parent_address_eq.
  reflexivity.
Qed.

Lemma same_at_trans (fs1 fs2 fs3 : VirtualFileSystem) (q : string) :
  same_at fs1 fs2 q -> same_at fs2 fs3 q -> same_at fs1 fs3 q.
Proof.
  unfold same_at. intros [A [B [C D]]] [A' [B' [C' D']]].
  repeat split; congruence.
Qed.

(** The entry a mutation of [p] acts on: the last name of the address
    of [p] in the directory at the names before it. *)
Definition entry_address (fs : VirtualFileSystem) (p : string) : list string :=
  removelast (address fs p) ++ [last (address fs p) ""].

Lemma entry_address_nonroot (fs : VirtualFileSystem) (p : string) :
  address fs p <> [] -> entry_address fs p = address fs p.
Proof.
  intros H. unfold entry_address. symmetry. apply app_removelast_last, H.
Qed.

(** Below the entry of [p] nothing is left once the entry is deleted. *)
Lemma walk_deleted (init : list string) (l : string) (c : list string)
  (r : Node) :
  walk (init ++ l :: c) (update init (del_child l) r) = None.
Proof.
  rewrite walk_update_below.
  destruct (walk init r) as [[|cr m pm ch]|] eqn:W.
  - reflexivity.
  - simpl. rewrite get_del_same. reflexivity.
  - rewrite walk_app, W. reflexivity.
Qed.

(** [remove_item] only removes. *)
Lemma remove_item_only_removes (fs : VirtualFileSystem) (p q : string) :
  exists_ (snd (remove_item fs p)) q = true ->
  same_at fs (snd (remove_item fs p)) q.
Proof.
  rewrite remove_item_eq.
  destruct (walk (removelast (address fs p)) (root fs))
    as [[|cr m pm ch]|] eqn:W; try (intros _; apply same_at_refl).
  destruct (PyDict.mem (last (address fs p) "") ch);
    [|intros _; apply same_at_refl].
  cbn [snd]. intros E.
  destruct (is_prefix (entry_address fs p) (address fs q)) eqn:P.
  - exfalso. apply is_prefix_app in P as [c P].
    unfold exists_ in E. rewrite get_node_with_root, P in E.
    unfold entry_address in E. rewrite <- app_assoc in E. simpl in E.
    rewrite walk_deleted in E. discriminate.
  - apply same_at_look.
    apply look_entry with (l := last (address fs p) "");
      [apply del_child_entry_only|exact P].
Qed.

(** A node that is no directory has nothing below it and is not a
    directory itself. *)
Lemma below_non_directory (fs : VirtualFileSystem) (p q : string) :
  exists_ fs p = true -> is_directory fs p = false ->
  is_prefix (entry_address fs p) (address fs q) = true ->
  is_directory fs q = false.
Proof.
  unfold exists_, is_directory. rewrite !get_node_walk.
  destruct (walk (address fs p) (root fs)) as [n|] eqn:W; [|discriminate].
  intros _ D P. apply is_prefix_app in P as [c P].
  destruct (address fs p) as [|x a] eqn:A.
  - unfold entry_address in P. rewrite A in P. simpl in P, W.
    injection W as <-. rewrite P.
    destruct (root fs); [reflexivity|discriminate].
  - rewrite entry_address_nonroot in P by (rewrite A; discriminate).
    rewrite A in P. rewrite P.
    destruct c as [|y c].
    + rewrite app_nil_r, W. exact D.
    + rewrite (walk_below_file _ (y :: c) _ _ W); [reflexivity| |discriminate].
      destruct n; [reflexivity|discriminate].
Qed.

(** Removing what is no directory keeps every directory. *)
Lemma remove_item_keeps_directories (fs : VirtualFileSystem) (p q : string) :
  exists_ fs p = true -> is_directory fs p = false ->
  is_directory fs q = true ->
  is_directory (snd (remove_item fs p)) q = true.
Proof.
  intros E D Q.
  destruct (is_prefix (entry_address fs p) (address fs q)) eqn:P.
  - rewrite (below_non_directory fs p q E D P) in Q. discriminate.
  - rewrite remove_item_eq.
    destruct (walk (removelast (address fs p)) (root fs))
      as [[|cr m pm ch]|]; try exact Q.
    destruct (PyDict.mem (last (address fs p) "") ch); [|exact Q].
    cbn [snd].
    destruct (same_at_look fs
                (update (removelast (address fs p))
                   (del_child (last (address fs p) "")) (root fs)) q)
      as [_ [H _]].
    + apply look_entry with (l := last (address fs p) "");
        [apply del_child_entry_only|exact P].
    + rewrite H. exact Q.
Qed.

(** *** [rmdir] *)

Lemma sorted_by_nil {A K : Type} (lt : K -> K -> bool) (key : A -> K)
  (l : list A) : sorted_by lt key l = [] -> l = [].
Proof.
  intros H. pose proof (Listing.sorted_by_perm lt key l) as P.
  rewrite H in P. apply Permutation_sym, Permutation_nil in P. exact P.
Qed.

Lemma list_directory_nil (fs : VirtualFileSystem) (d : string) :
  is_directory fs d = true -> list_directory fs d = [] ->
  exists cr m pm, get_node fs d = Some (Directory cr m pm []).
Proof.
  unfold is_directory, list_directory.
  destruct (get_node fs d) as [[|cr m pm ch]|]; try discriminate.
  intros _ H. apply sorted_by_nil in H.
  destruct ch; [eauto|discriminate].
Qed.

Lemma remove_item_existing (fs : VirtualFileSystem) (p : string) :
  exists_ fs p = true -> normalize_path fs p <> "/" ->
  fst (remove_item fs p) = true
  /\ exists_ (snd (remove_item fs p)) p = false.
Proof.
  intros E Hp. destruct (nonroot_snoc fs p Hp) as [init [l A]].
  rewrite remove_item_eq. unfold exists_ in *.
  rewrite get_node_walk in E.
  rewrite A, ?removelast_last, ?last_last in *.
  destruct (walk (init ++ [l]) (root fs)) as [n|] eqn:W; [|discriminate].
  destruct (walk_snoc _ _ _ _ W) as [cr [m [pm [ch [Wi G]]]]].
  rewrite Wi, mem_get, G. cbn [fst snd]. split; [reflexivity|].
  rewrite get_node_with_root, A, walk_deleted. reflexivity.
Qed.

Lemma cmd_rmdir_cases (fs : VirtualFileSystem) (d : string)
  (rest : list string) :
  (is_directory fs d = false ->
   cmd_rmdir fs (d :: rest)
   = ((Colors.RED ++ "Directory not found: " ++ d ++ Colors.RESET)%string, fs))
  /\ (is_directory fs d = true -> list_directory fs d <> [] ->
      cmd_rmdir fs (d :: rest)
      = ((Colors.RED ++ "Directory not empty: " ++ d
          ++ Colors.RESET)%string, fs))
  /\ (is_directory fs d = true -> list_directory fs d = [] ->
      normalize_path fs d <> "/" ->
      fst (cmd_rmdir fs (d :: rest))
      = (Colors.GREEN ++ "Directory removed: " ++ d ++ Colors.RESET)%string
      /\ exists_ (snd (cmd_rmdir fs (d :: rest))) d = false)
  /\ (normalize_path fs d = "/" -> snd (cmd_rmdir fs (d :: rest)) = fs).
Proof.
  unfold cmd_rmdir. split; [|split; [|split]].
  - intros ->. reflexivity.
  - intros ->. destruct (list_directory fs d); [congruence|reflexivity].
  - intros D L Hp. rewrite D, L.
    assert (E : exists_ fs d = true).
    { unfold exists_, is_directory in *.
      destruct (get_node fs d); [reflexivity|discriminate]. }
    destruct (remove_item_existing fs d E Hp) as [F X].
    destruct (remove_item fs d) as [ok fs']. cbn [fst snd] in *.
    rewrite F. cbn [fst snd]. split; [reflexivity|exact X].
  - intros Hp. destruct (is_directory fs d) eqn:D; [|reflexivity].
    destruct (list_directory fs d) eqn:L; [|reflexivity].
    destruct (list_directory_nil fs d D L) as [cr [m [pm G]]].
    rewrite get_node_walk in G.
    rewrite remove_item_eq.
    apply root_address in Hp. rewrite Hp in *. simpl in G |- *.
    injection G as ->. reflexivity.
Qed.

(** X11.  [rmdir] removes empty directories only: a name that is no
    directory is reported as not found and a directory with an entry as
    not empty, both without a change; an empty directory other than the
    root is removed; and the root is never removed. *)
Theorem rmdir_only_empty (fs : VirtualFileSystem) (d : string)
  (rest : list string) :
  (is_directory fs d = false ->
   cmd_rmdir fs (d :: rest)
   = ((Colors.RED ++ "Directory not found: " ++ d ++ Colors.RESET)%string, fs))
  /\ (is_directory fs d = true -> list_directory fs d <> [] ->
      cmd_rmdir fs (d :: rest)
      = ((Colors.RED ++ "Directory not empty: " ++ d
          ++ Colors.RESET)%string, fs))
  /\ (is_directory fs d = true -> list_directory fs d = [] ->
      normalize_path fs d <> "/" ->
      fst (cmd_rmdir fs (d :: rest))
      = (Colors.GREEN ++ "Directory removed: " ++ d ++ Colors.RESET)%string
      /\ exists_ (snd (cmd_rmdir fs (d :: rest))) d = false)
  /\ (normalize_path fs d = "/" -> snd (cmd_rmdir fs (d :: rest)) = fs).
Proof. exact (cmd_rmdir_cases fs d rest). Qed.

Lemma rmdir_only_empty_witness :
  cmd_rmdir init ["/etc/hosts"]
  = ((Colors.RED ++ "Directory not found: /etc/hosts" ++ Colors.RESET)%string,
     init)
  /\ cmd_rmdir init ["/home"]
     = ((Colors.RED ++ "Directory not empty: /home" ++ Colors.RESET)%string,
        init)
  /\ exists_ (snd (cmd_rmdir init ["/tmp"])) "/tmp" = false
  /\ snd (cmd_rmdir init ["/"]) = init.
Proof.
  destruct (rmdir_only_empty init "/etc/hosts" []) as [A _].
  destruct (rmdir_only_empty init "/home" []) as [_ [B _]].
  destruct (rmdir_only_empty init "/tmp" []) as [_ [_ [C _]]].
  destruct (rmdir_only_empty init "/" []) as [_ [_ [_ D]]].
  split; [apply A; reflexivity|].
  split; [apply B; [reflexivity|discriminate]|].
  split; [apply C; [reflexivity|reflexivity|discriminate]|].
  apply D. reflexivity.
Defined.

(** *** [rm] *)

(** What [rm] left behind was there before, unchanged. *)
Definition only_removes (fs fs' : VirtualFileSystem) : Prop :=
  forall q, exists_ fs' q = true -> same_at fs fs' q.

Definition keeps_directories (fs fs' : VirtualFileSystem) : Prop :=
  forall q, is_directory fs q = true -> is_directory fs' q = true.

Lemma only_removes_trans (fs1 fs2 fs3 : VirtualFileSystem) :
  only_removes fs1 fs2 -> only_removes fs2 fs3 -> only_removes fs1 fs3.
Proof.
  intros H1 H2 q E. pose proof (H2 q E) as S2.
  assert (E2 : exists_ fs2 q = true).
  { destruct S2 as [S2 _]. rewrite <- S2. exact E. }
  exact (same_at_trans _ _ _ _ (H1 q E2) S2).
Qed.

Lemma rm_one_only_removes (recursive force : bool) (item : string)
  (fs : VirtualFileSystem) (results : list string) :
  only_removes fs (fst (rm_one recursive force item (fs, results))).
Proof.
  unfold rm_one.
  destruct (exists_ fs item).
  - destruct (is_directory fs item && negb recursive).
    + intros q _. apply same_at_refl.
    + pose proof (remove_item_only_removes fs item) as H.
      destruct (remove_item fs item) as [[|] fs']; exact H.
  - destruct (negb force); intros q _; apply same_at_refl.
Qed.

Lemma rm_one_keeps_directories (force : bool) (item : string)
  (fs : VirtualFileSystem) (results : list string) :
  keeps_directories fs (fst (rm_one false force item (fs, results))).
Proof.
  unfold rm_one.
  destruct (exists_ fs item) eqn:E.
  - destruct (is_directory fs item) eqn:D; cbn [negb andb].
    + intros q Q. exact Q.
    + pose proof (remove_item_keeps_directories fs item) as H.
      destruct (remove_item fs item) as [[|] fs']; intros q; apply H; auto.
  - destruct (negb force); intros q Q; exact Q.
Qed.

Lemma rm_loop_only_removes (recursive force : bool) (items : list string) :
  forall st,
    only_removes (fst st)
      (fst (fold_left (fun st item => rm_one recursive force item st)
              items st)).
Proof.
  induction items as [|item items IH]; intros [fs results];
    cbn [fold_left fst].
  - intros q _. apply same_at_refl.
  - eapply only_removes_trans; [|apply IH].
    apply rm_one_only_removes.
Qed.

Lemma rm_loop_keeps_directories (force : bool) (items : list string) :
  forall st,
    keeps_directories (fst st)
      (fst (fold_left (fun st item => rm_one false force item st) items st)).
Proof.
  induction items as [|item items IH]; intros [fs results];
    cbn [fold_left fst].
  - intros q Q. exact Q.
  - intros q Q. apply IH. apply rm_one_keeps_directories. exact Q.
Qed.

Lemma cmd_rm_loop (fs : VirtualFileSystem) (args : list string) :
  snd (cmd_rm fs args) = fs
  \/ snd (cmd_rm fs args)
     = fst (fold_left
              (fun st item =>
                 rm_one (mem "-r" args || mem "--recursive" args)
                   (mem "-f" args || mem "--force" args) item st)
              (filter (fun arg => negb (startswith arg "-")) args) (fs, [])).
Proof.
  unfold cmd_rm. destruct args as [|a args]; [left; reflexivity|].
  destruct (filter _ (a :: args)) as [|i items]; [left; reflexivity|].
  right.
  destruct (fold_left _ (i :: items) (fs, [])) as [fs' results].
  reflexivity.
Qed.

Lemma cmd_rm_invariants (fs : VirtualFileSystem) (args : list string) :
  only_removes fs (snd (cmd_rm fs args))
  /\ (mem "-r" args || mem "--recursive" args = false ->
      keeps_directories fs (snd (cmd_rm fs args))).
Proof.
  destruct (cmd_rm_loop fs args) as [-> | ->].
  - split; [intros q _; apply same_at_refl|intros _ q Q; exact Q].
  - split.
    + apply (rm_loop_only_removes _ _ _ (fs, [])).
    + intros ->. apply (rm_loop_keeps_directories _ _ (fs, [])).
Qed.

(** X12.  [rm] only removes, and without [-r] or [--recursive] it
    removes no directory: at every path that exists after [rm], the
    answers of [exists], [is_directory], [is_file] and [read_file] are
    those from before; and when neither flag is among the arguments,
    every path that was a directory still is one. *)
Theorem rm_keeps_directories (fs : VirtualFileSystem) (args : list string) :
  (forall q, exists_ (snd (cmd_rm fs args)) q = true ->
             same_at fs (snd (cmd_rm fs args)) q)
  /\ (mem "-r" args || mem "--recursive" args = false ->
      forall q, is_directory fs q = true ->
                is_directory (snd (cmd_rm fs args)) q = true).
Proof. exact (cmd_rm_invariants fs args). Qed.

Lemma rm_keeps_directories_witness :
  let fs' := snd (cmd_rm init ["-f"; "/etc/hosts"; "/home/user"; "/nothing"]) in
  same_at init fs' "/tmp"
  /\ is_directory fs' "/home/user/documents" = true
  /\ exists_ fs' "/etc/hosts" = false.
Proof.
  destruct (rm_keeps_directories init
              ["-f"; "/etc/hosts"; "/home/user"; "/nothing"]) as [A B].
  split; [apply A; reflexivity|].
  split; [apply B; reflexivity|reflexivity].
Defined.


(** *** [ls] *)

Lemma cmd_ls_not_a_directory (fs : VirtualFileSystem) (a : string)
  (rest : list string) :
  a <> "." -> is_directory fs a = false ->
  cmd_ls fs (a :: rest) = empty_directory.
Proof.
  intros Ha D. unfold cmd_ls.
  apply String.eqb_neq in Ha. rewrite Ha.
  assert (L : list_directory fs a = []).
  { unfold list_directory, is_directory in *.
    destruct (get_node fs a) as [[]|]; [reflexivity|discriminate|reflexivity]. }
  assert (L' : get_detailed_listing fs a = []).
  { unfold get_detailed_listing, is_directory in *.
    destruct (get_node fs a) as [[]|]; [reflexivity|discriminate|reflexivity]. }
  rewrite L, L'. destruct (mem "-l" (a :: rest) || mem "--long" (a :: rest));
    reflexivity.
Qed.

(** X13.  [ls] reports no error: for a first argument that is not a
    directory of the file system - a missing path, a file, or a flag
    such as [-l] that stands where the path is expected - it prints
    the text for an empty directory. *)
Theorem ls_not_a_directory (fs : VirtualFileSystem) (a : string)
  (rest : list string) :
  a <> "." -> is_directory fs a = false ->
  cmd_ls fs (a :: rest) = empty_directory.
Proof. exact (cmd_ls_not_a_directory fs a rest). Qed.

Lemma ls_not_a_directory_witness :
  cmd_ls init ["-l"] = empty_directory
  /\ cmd_ls init ["/etc/hosts"] = empty_directory
  /\ cmd_ls init ["."; "-l"] <> empty_directory.
Proof.
  split; [|split].
  - apply (ls_not_a_directory init "-l" []); [discriminate|reflexivity].
  - apply (ls_not_a_directory init "/etc/hosts" []);
      [discriminate|reflexivity].
  - vm_compute. discriminate.
Defined.

(** *** [cp] and [mv] *)

Lemma copy_item_false (now : string) (fs fs' : VirtualFileSystem)
  (src dst : string) :
  copy_item now fs src dst = (false, fs') -> fs' = fs.
Proof.
  rewrite copy_item_eq.
  destruct (walk (address fs src) (root fs)) as [n|];
    [|intros H; injection H as <-; reflexivity].
  destruct (walk (removelast (address fs dst)) (root fs)) as [[]|];
    intros H; try discriminate; injection H as <-; reflexivity.
Qed.

Lemma move_item_false (now : string) (fs fs' : VirtualFileSystem)
  (src dst : string) :
  move_item now fs src dst = (false, fs') -> fs' = fs.
Proof.
  rewrite move_item_eq. cbv zeta.
  destruct (walk (removelast (address fs src)) (root fs)) as [[|? ? ? sch]|];
    try (intros H; injection H as <-; reflexivity).
  destruct (walk (removelast (address fs dst)) (root fs)) as [[]|];
    try (intros H; injection H as <-; reflexivity).
  destruct (PyDict.get (last (address fs src) "") sch);
    intros H; try discriminate; injection H as <-; reflexivity.
Qed.

Lemma cmd_cp_cases (now : string) (fs fs' : VirtualFileSystem)
  (args : list string) (msg : string) :
  cmd_cp now fs args = (msg, fs') ->
  fs' = fs
  \/ exists source dest,
       msg = (Colors.GREEN ++ "Copied " ++ source ++ " to " ++ dest
              ++ Colors.RESET)%string
       /\ copy_item now fs source dest = (true, fs')
       /\ exists_ fs source = true
       /\ (is_directory fs source = true ->
           mem "-r" args || mem "--recursive" args = true).
Proof.
  unfold cmd_cp.
  destruct args as [|a [|b args]];
    try (intros H; injection H as _ <-; left; reflexivity).
  set (recursive := mem "-r" (a :: b :: args)
                    || mem "--recursive" (a :: b :: args)).
  destruct (filter _ (a :: b :: args)) as [|s [|d fa]];
    try (intros H; injection H as _ <-; left; reflexivity).
  destruct (exists_ fs s) eqn:E; cbn [negb];
    [|intros H; injection H as _ <-; left; reflexivity].
  destruct (is_directory fs s && negb recursive) eqn:D;
    [intros H; injection H as _ <-; left; reflexivity|].
  destruct (copy_item now fs s d) as [[|] fs1] eqn:C;
    intros H; injection H as <- <-.
  - right. exists s, d.
    split; [reflexivity|split; [exact C|split; [exact E|]]].
    intros Ds. rewrite Ds in D. destruct recursive; [reflexivity|discriminate].
  - left. exact (copy_item_false _ _ _ _ _ C).
Qed.

Lemma cmd_mv_cases (now : string) (fs fs' : VirtualFileSystem)
  (args : list string) (msg : string) :
  cmd_mv now fs args = (msg, fs') ->
  fs' = fs
  \/ exists source dest rest,
       args = source :: dest :: rest
       /\ msg = (Colors.GREEN ++ "Moved " ++ source ++ " to " ++ dest
                 ++ Colors.RESET)%string
       /\ move_item now fs source dest = (true, fs')
       /\ exists_ fs source = true.
Proof.
  unfold cmd_mv.
  destruct args as [|s [|d args]];
    try (intros H; injection H as _ <-; left; reflexivity).
  destruct (exists_ fs s) eqn:E; cbn [negb];
    [|intros H; injection H as _ <-; left; reflexivity].
  destruct (move_item now fs s d) as [[|] fs1] eqn:C;
    intros H; injection H as <- <-.
  - right. exists s, d, args.
    split; [reflexivity|split; [reflexivity|split; [exact C|exact E]]].
  - left. exact (move_item_false _ _ _ _ _ C).
Qed.

(** X14.  [cp] and [mv] change the file system only when they report
    success: whatever the arguments, either the file system is as
    before, or the text is the one for success, [copy_item] (for [mv],
    [move_item] on the first two arguments) returned true and the
    source existed; and [cp] copies a directory only when [-r] or
    [--recursive] is among the arguments. *)
Theorem cp_mv_all_or_nothing (now : string) (fs fs' : VirtualFileSystem)
  (args : list string) (msg : string) :
  (cmd_cp now fs args = (msg, fs') ->
   fs' = fs
   \/ exists source dest,
        msg = (Colors.GREEN ++ "Copied " ++ source ++ " to " ++ dest
               ++ Colors.RESET)%string
        /\ copy_item now fs source dest = (true, fs')
        /\ exists_ fs source = true
        /\ (is_directory fs source = true ->
            mem "-r" args || mem "--recursive" args = true))
  /\ (cmd_mv now fs args = (msg, fs') ->
      fs' = fs
      \/ exists source dest rest,
           args = source :: dest :: rest
           /\ msg = (Colors.GREEN ++ "Moved " ++ source ++ " to " ++ dest
                     ++ Colors.RESET)%string
           /\ move_item now fs source dest = (true, fs')
           /\ exists_ fs source = true).
Proof.
  split; [apply cmd_cp_cases|apply cmd_mv_cases].
Qed.

Lemma cp_mv_all_or_nothing_witness :
  snd (cmd_cp "t1" init ["/home/user"; "/tmp/u"]) = init
  /\ exists_ (snd (cmd_cp "t1" init ["-r"; "/home/user"; "/tmp/u"]))
       "/tmp/u/projects/script.py" = true
  /\ snd (cmd_mv "t1" init ["/nothing"; "/tmp/u"]) = init.
Proof.
  split; [|split].
  - destruct (cp_mv_all_or_nothing "t1" init
                (snd (cmd_cp "t1" init ["/home/user"; "/tmp/u"]))
                ["/home/user"; "/tmp/u"]
                (fst (cmd_cp "t1" init ["/home/user"; "/tmp/u"]))) as [A _].
    destruct (A eq_refl) as [E|[s [d [M _]]]]; [exact E|].
    vm_compute in M. discriminate M.
  - reflexivity.
  - reflexivity.
Defined.

(** The directory of [p] is a directory exactly when the names before
    the last of its address lead to one. *)
Lemma parent_directory_walk (fs : VirtualFileSystem) (p : string) :
  is_directory fs (dirname (normalize_path fs p))
  = match walk (removelast (address fs p)) (root fs) with
    | Some n => is_dir_node n
    | None => false
    end.
Proof.
  unfold is_directory. rewrite get_node_walk.
  pose proof (parent_address_eq fs p) as Pa. unfold parent_address in Pa.
  rewrite normalize_path_idem in Pa. rewrite Pa. reflexivity.
Qed.

Lemma cp_cat (now : string) (fs : VirtualFileSystem) (source dest : string) :
  startswith source "-" = false -> startswith dest "-" = false ->
  is_file fs source = true ->
  is_directory fs (dirname (normalize_path fs dest)) = true ->
  normalize_path fs dest <> "/" ->
  exists fs' c,
    cmd_cp now fs [source; dest]
    = ((Colors.GREEN ++ "Copied " ++ source ++ " to " ++ dest
        ++ Colors.RESET)%string, fs')
    /\ read_file fs source = Some c
    /\ cmd_cat fs [source] = c
    /\ cmd_cat fs' [dest] = c.
Proof.
  intros Hs Hd F P Hp.
  unfold cmd_cp. cbn [filter mem existsb]. rewrite Hs, Hd. cbn [negb].
  assert (Es : exists c cr m pm sz,
             get_node fs source = Some (File c cr m pm sz)).
  { unfold is_file in F. destruct (get_node fs source) as [[c cr m pm sz|]|];
      try discriminate. eauto 6. }
  destruct Es as [c [cr [m [pm [sz G]]]]].
  assert (E : exists_ fs source = true) by (unfold exists_; rewrite G; reflexivity).
  assert (D : is_directory fs source = false)
    by (unfold is_directory; rewrite G; reflexivity).
  rewrite E, D. cbn [negb andb].
  assert (C : fst (copy_item now fs source dest) = true).
  { rewrite copy_item_eq. rewrite get_node_walk in G. rewrite G.
    rewrite parent_directory_walk in P.
    destruct (walk (removelast (address fs dest)) (root fs)) as [[]|];
      try discriminate. reflexivity. }
  destruct (copy_item now fs source dest) as [ok fs'] eqn:Cp.
  cbn [fst] in C. subst ok.
  destruct (CopyMoveFacts.copy_item_same _ _ _ _ _ Cp Hp) as [_ [_ [_ R]]].
  exists fs', c.
  assert (Rs : read_file fs source = Some c)
    by (unfold read_file; rewrite G; reflexivity).
  split; [reflexivity|]. split; [exact Rs|].
  unfold cmd_cat, cat_one. cbn [map join]. rewrite R, Rs. split; reflexivity.
Qed.

(** X15.  [cp] then [cat]: copying a file to a destination other than
    the root whose directory exists reports success, and [cat] of the
    destination then prints what [cat] of the source printed. *)
Theorem cp_then_cat (now : string) (fs : VirtualFileSystem)
  (source dest : string) :
  startswith source "-" = false -> startswith dest "-" = false ->
  is_file fs source = true ->
  is_directory fs (dirname (normalize_path fs dest)) = true ->
  normalize_path fs dest <> "/" ->
  exists fs' c,
    cmd_cp now fs [source; dest]
    = ((Colors.GREEN ++ "Copied " ++ source ++ " to " ++ dest
        ++ Colors.RESET)%string, fs')
    /\ read_file fs source = Some c
    /\ cmd_cat fs [source] = c
    /\ cmd_cat fs' [dest] = c.
Proof. exact (cp_cat now fs source dest). Qed.

Lemma cp_then_cat_witness :
  exists fs' c,
    cmd_cp "t1" init ["documents/readme.txt"; "/tmp/r"]
    = ((Colors.GREEN ++ "Copied documents/readme.txt to /tmp/r"
        ++ Colors.RESET)%string, fs')
    /\ read_file init "documents/readme.txt" = Some c
    /\ cmd_cat init ["documents/readme.txt"] = c
    /\ cmd_cat fs' ["/tmp/r"] = c.
Proof.
  apply (cp_then_cat "t1" init "documents/readme.txt" "/tmp/r");
    try reflexivity.
  discriminate.
Defined.
End ShellFacts.

(** ** What [touch] and [mkdir] add *)

Module AddFacts.
Import PyStr PosixPath VirtualFS FileOperations PyFacts PathFacts ParentFacts
       TreeFacts OpFacts MoveFacts FrameFacts FsFacts ShellFacts.


(** What was there before the command is there after it, unchanged. *)
Definition only_adds (fs fs' : VirtualFileSystem) : Prop :=
  forall q, exists_ fs q = true -> same_at fs fs' q.

Lemma only_adds_refl (fs : VirtualFileSystem) : only_adds fs fs.
Proof. intros q _. apply same_at_refl. Qed.

Lemma only_adds_trans (fs1 fs2 fs3 : VirtualFileSystem) :
  only_adds fs1 fs2 -> only_adds fs2 fs3 -> only_adds fs1 fs3.
Proof.
  intros H1 H2 q E. pose proof (H1 q E) as S1.
  assert (E2 : exists_ fs2 q = true).
  { destruct S1 as [S1 _]. rewrite S1. exact E. }
  exact (same_at_trans _ _ _ _ S1 (H2 q E2)).
Qed.

Lemma walk_set_modified (t : string) (y : string) (c : list string)
  (n : Node) :
  walk (y :: c) (set_modified t n) = walk (y :: c) n.
Proof. destruct n; reflexivity. Qed.

Lemma view_set_modified (t : string) (n : Node) :
  view (set_modified t n) = view n.
Proof. destruct n; reflexivity. Qed.

(** A new time stamp is not seen by the four queries. *)
Lemma look_set_modified (a : list string) (t : string) (r : Node)
  (b : list string) :
  look (update a (set_modified t) r) b = look r b.
Proof.
  unfold look. destruct (prefix_cases a b) as [E|[E|E]].
  - apply is_prefix_app in E as [c ->].
    rewrite walk_update_below, walk_app.
    destruct (walk a r) as [n|]; [|reflexivity].
    destruct c as [|y c].
    + simpl. rewrite view_set_modified. reflexivity.
    + rewrite walk_set_modified. reflexivity.
  - apply is_prefix_app in E as [c ->].
    rewrite walk_update_above.
    destruct (walk b r) as [n|]; [|reflexivity]. simpl.
    rewrite view_update; [reflexivity|]. right. apply view_set_modified.
  - rewrite (walk_update_diverge _ _ _ _ E). reflexivity.
Qed.

(** A new entry of a directory is not seen at an address that had a
    node before. *)
Lemma look_new_entry (init : list string) (l : string) (v : Node)
  (r : Node) (cr m pm : string) (ch : PyDict.t Node) (b : list string) :
  walk init r = Some (Directory cr m pm ch) ->
  PyDict.get l ch = None ->
  walk b r <> None ->
  look (update init (set_child l v) r) b = look r b.
Proof.
  intros W G B.
  destruct (is_prefix (init ++ [l]) b) eqn:P.
  - exfalso. apply B. apply is_prefix_app in P as [c ->].
    rewrite <- app_assoc, walk_app, W. simpl. rewrite G. reflexivity.
  - apply look_entry with (l := l); [apply set_child_entry_only|exact P].
Qed.

Lemma exists_walk (fs : VirtualFileSystem) (q : string) :
  exists_ fs q = true -> walk (address fs q) (root fs) <> None.
Proof.
  unfold exists_. rewrite get_node_walk.
  destruct (walk (address fs q) (root fs)); [discriminate|discriminate].
Qed.

Lemma create_directory_only_adds (now : string) (fs : VirtualFileSystem)
  (p : string) :
  only_adds fs (snd (create_directory now fs p)).
Proof.
  rewrite create_directory_eq.
  destruct (walk (removelast (address fs p)) (root fs))
    as [[|cr m pm ch]|] eqn:W; try apply only_adds_refl.
  rewrite mem_get.
  destruct (PyDict.get (last (address fs p) "") ch) eqn:G;
    [apply only_adds_refl|].
  cbn [negb snd]. intros q E. apply same_at_look.
  exact (look_new_entry _ _ _ _ _ _ _ _ _ W G (exists_walk _ _ E)).
Qed.

(** [create_file] on a path that does not exist. *)
Lemma create_file_only_adds (now : string) (fs : VirtualFileSystem)
  (p c : string) :
  exists_ fs p = false ->
  only_adds fs (snd (create_file now fs p c)).
Proof.
  intros N. rewrite create_file_eq.
  destruct (walk (removelast (address fs p)) (root fs))
    as [[|cr m pm ch]|] eqn:W; try apply only_adds_refl.
  cbn [snd]. intros q E. apply same_at_look.
  apply (look_new_entry _ _ _ _ _ _ _ _ _ W); [|exact (exists_walk _ _ E)].
  unfold exists_ in N. rewrite get_node_walk in N.
  destruct (list_snoc_cases (address fs p)) as [A|[init [l A]]].
  - rewrite A in N. discriminate.
  - rewrite A, removelast_last in W. rewrite A, last_last.
    rewrite A, walk_app, W in N. simpl in N.
    destruct (PyDict.get l ch); [discriminate|reflexivity].
Qed.

Lemma touch_one_only_adds (now name : string) (fs : VirtualFileSystem)
  (results : list string) :
  only_adds fs (fst (touch_one now name (fs, results))).
Proof.
  unfold touch_one. destruct (exists_ fs name) eqn:E.
  - destruct (get_node fs name) as [[]|]; try apply only_adds_refl.
    cbn [fst]. intros q _. apply same_at_look, look_set_modified.
  - pose proof (create_file_only_adds now fs name "" E) as H.
    destruct (create_file now fs name "") as [[|] fs']; exact H.
Qed.

Lemma touch_loop_only_adds (clock : nat -> string) (args : list string) :
  forall i st, only_adds (fst st) (fst (touch_loop clock i args st)).
Proof.
  induction args as [|name args IH]; intros i [fs results];
    cbn [touch_loop fst].
  - apply only_adds_refl.
  - eapply only_adds_trans; [apply touch_one_only_adds|apply IH].
Qed.

Lemma cmd_touch_loop (clock : nat -> string) (fs : VirtualFileSystem)
  (args : list string) :
  snd (cmd_touch clock fs args) = fst (touch_loop clock 0 args (fs, [])).
Proof.
  unfold cmd_touch. destruct args as [|a args]; [reflexivity|].
  destruct (touch_loop clock 0 (a :: args) (fs, [])). reflexivity.
Qed.

Section MkdirAdds.
Variable World : Type.
Variable os_makedirs : string -> World -> option string * World.

Lemma mkdir_one_only_adds (now : string) (fs : VirtualFileSystem)
  (d : string) :
  exists fs',
    snd (mkdir_one World os_makedirs now (Sandbox fs) d) = Sandbox fs'
    /\ only_adds fs fs'.
Proof.
  unfold mkdir_one.
  pose proof (create_directory_only_adds now fs d) as H.
  destruct (create_directory now fs d) as [[|] fs']; exists fs';
    (split; [reflexivity|exact H]).
Qed.

Lemma mkdir_loop_only_adds (now : string) (fs : VirtualFileSystem)
  (args : list string) :
  exists fs',
    snd (mkdir_loop World os_makedirs now (Sandbox fs) args) = Sandbox fs'
    /\ only_adds fs fs'.
Proof.
  induction args as [|a args IH]; cbn [mkdir_loop].
  - exists fs. split; [reflexivity|apply only_adds_refl].
  - destruct (startswith a "-"); [exact IH|apply mkdir_one_only_adds].
Qed.

Lemma cmd_mkdir_only_adds (now : string) (fs : VirtualFileSystem)
  (args : list string) :
  exists fs',
    snd (cmd_mkdir World os_makedirs now (Sandbox fs) args) = Sandbox fs'
    /\ only_adds fs fs'.
Proof.
  unfold cmd_mkdir. destruct args as [|a args].
  - exists fs. split; [reflexivity|apply only_adds_refl].
  - apply mkdir_loop_only_adds.
Qed.

End MkdirAdds.

(** X16.  [touch] and [mkdir] only add: at every path that exists
    before the command, [exists], [is_directory], [is_file] and
    [read_file] answer after it as they did before, whatever the
    arguments. *)
Theorem touch_mkdir_only_add (fs : VirtualFileSystem) (args : list string)
  (q : string) :
  exists_ fs q = true ->
  (forall clock, same_at fs (snd (cmd_touch clock fs args)) q)
  /\ (forall World os_makedirs now,
        exists fs',
          snd (cmd_mkdir World os_makedirs now (Sandbox fs) args)
          = Sandbox fs'
          /\ same_at fs fs' q).
Proof.
  intros E. split.
  - intros clock. rewrite cmd_touch_loop.
    exact (touch_loop_only_adds clock args 0 (fs, []) q E).
  - intros World os_makedirs now.
    destruct (cmd_mkdir_only_adds World os_makedirs now fs args)
      as [fs' [H A]].
    exists fs'. split; [exact H|exact (A q E)].
Qed.

Lemma touch_mkdir_only_add_witness :
  (forall clock,
     same_at init
       (snd (cmd_touch clock init ["/etc/hosts"; "/tmp/new"; "/etc"]))
       "/etc/hosts")
  /\ (forall World os_makedirs now,
        exists fs',
          snd (cmd_mkdir World os_makedirs now (Sandbox init)
                 ["/etc/hosts"; "/tmp/new"; "/etc"])
          = Sandbox fs'
          /\ same_at init fs' "/etc/hosts").
Proof.
  apply (touch_mkdir_only_add init ["/etc/hosts"; "/tmp/new"; "/etc"]
           "/etc/hosts").
  reflexivity.
Defined.

(** The files [touch] creates. *)

Lemma touch_one_current_path (now name : string) (fs : VirtualFileSystem)
  (results : list string) :
  current_path (fst (touch_one now name (fs, results))) = current_path fs.
Proof.
  unfold touch_one. destruct (exists_ fs name).
  - destruct (get_node fs name) as [[]|]; reflexivity.
  - rewrite create_file_eq.
    destruct (walk (removelast (address fs name)) (root fs)) as [[]|];
      reflexivity.
Qed.

(** What is new since [fs0] is an empty file. *)
Definition new_is_empty (fs0 fs : VirtualFileSystem) : Prop :=
  forall q, exists_ fs0 q = false -> exists_ fs q = true ->
            read_file fs q = Some "".

Lemma same_path_address (fs fs' : VirtualFileSystem) (q : string) :
  current_path fs' = current_path fs -> address fs' q = address fs q.
Proof. intros H. unfold address, normalize_path. rewrite H. reflexivity. Qed.

Lemma touch_one_new_is_empty (now name : string) (fs : VirtualFileSystem)
  (results : list string) (q : string) :
  exists_ fs q = false ->
  exists_ (fst (touch_one now name (fs, results))) q = true ->
  read_file (fst (touch_one now name (fs, results))) q = Some "".
Proof.
  unfold touch_one. destruct (exists_ fs name) eqn:E.
  - destruct (get_node fs name) as [[]|]; cbn [fst]; try congruence.
    intros N X. exfalso.
    destruct (same_at_look fs
                (update (address fs name) (set_modified now) (root fs)) q
                (look_set_modified _ _ _ _)) as [S _].
    congruence.
  - unfold exists_ in E. rewrite get_node_walk in E.
    destruct (list_snoc_cases (address fs name)) as [A|[init [l A]]];
      [rewrite A in E; discriminate|].
    rewrite create_file_eq, A, removelast_last, last_last.
    destruct (walk init (root fs)) as [[|cr m pm ch]|] eqn:W; cbn [fst];
      try congruence.
    intros N X.
    destruct (is_prefix (init ++ [l]) (address fs q)) eqn:P.
    + apply is_prefix_app in P as [c P].
      unfold read_file. unfold exists_ in X.
      rewrite get_node_with_root, P in X |- *.
      rewrite <- app_assoc in X |- *.
      rewrite walk_update_below, W in X |- *.
      simpl in X |- *. rewrite get_set_same in X |- *.
      destruct c; simpl in X |- *; [reflexivity|discriminate].
    + exfalso.
      destruct (same_at_look fs
                  (update init
                     (set_child l
                        (File "" now now "-rw-r--r--" (String.length "")))
                     (root fs)) q) as [S _]; [|congruence].
      apply look_entry with (l := l); [apply set_child_entry_only|exact P].
Qed.

Lemma touch_loop_new_is_empty (clock : nat -> string) (args : list string) :
  forall i fs0 st,
    only_adds fs0 (fst st) -> new_is_empty fs0 (fst st) ->
    new_is_empty fs0 (fst (touch_loop clock i args st)).
Proof.
  induction args as [|name args IH]; intros i fs0 [fs results] A J;
    cbn [touch_loop fst] in *.
  - exact J.
  - apply IH.
    + eapply only_adds_trans; [exact A|apply touch_one_only_adds].
    + intros q N X. cbn [fst] in *.
      destruct (exists_ fs q) eqn:E.
      * destruct (touch_one_only_adds (clock i) name fs results q E)
          as [_ [_ [_ R]]].
        rewrite R. apply J; assumption.
      * apply touch_one_new_is_empty; assumption.
Qed.

Lemma touch_one_creates (now name : string) (fs : VirtualFileSystem)
  (results : list string) :
  is_directory fs (dirname (normalize_path fs name)) = true ->
  exists_ (fst (touch_one now name (fs, results))) name = true.
Proof.
  intros P.
  destruct (exists_ fs name) eqn:E.
  - destruct (touch_one_only_adds now name fs results name E) as [S _].
    congruence.
  - unfold touch_one. rewrite E.
    rewrite parent_directory_walk in P.
    unfold exists_ in E. rewrite get_node_walk in E.
    destruct (list_snoc_cases (address fs name)) as [A|[init [l A]]];
      [rewrite A in E; discriminate|].
    rewrite create_file_eq, A, removelast_last, last_last in *.
    destruct (walk init (root fs)) as [[|cr m pm ch]|] eqn:W;
      try discriminate.
    cbn [fst]. unfold exists_.
    rewrite get_node_with_root, A, (walk_set_child _ _ _ _ _ _ _ _ W).
    reflexivity.
Qed.

Lemma touch_loop_current_path (clock : nat -> string) (args : list string) :
  forall i st,
    current_path (fst (touch_loop clock i args st)) = current_path (fst st).
Proof.
  induction args as [|name args IH]; intros i [fs results];
    cbn [touch_loop fst]; [reflexivity|].
  rewrite IH. apply touch_one_current_path.
Qed.

Lemma same_path_dirname (fs fs' : VirtualFileSystem) (q : string) :
  current_path fs' = current_path fs ->
  dirname (normalize_path fs' q) = dirname (normalize_path fs q).
Proof. intros H. unfold normalize_path. rewrite H. reflexivity. Qed.

Lemma is_directory_exists (fs : VirtualFileSystem) (q : string) :
  is_directory fs q = true -> exists_ fs q = true.
Proof.
  unfold is_directory, exists_.
  destruct (get_node fs q); [reflexivity|discriminate].
Qed.

Lemma touch_loop_creates (clock : nat -> string) (args : list string) :
  forall i st name,
    In name args ->
    is_directory (fst st) (dirname (normalize_path (fst st) name)) = true ->
    exists_ (fst (touch_loop clock i args st)) name = true.
Proof.
  induction args as [|a args IH]; intros i [fs results] name I P;
    [contradiction I|].
  destruct I as [<-|I]; cbn [touch_loop fst] in *.
  - pose proof (touch_one_creates (clock i) a fs results P) as X.
    destruct (touch_loop_only_adds clock args (S i)
                (touch_one (clock i) a (fs, results)) a X) as [S _].
    congruence.
  - apply IH; [exact I|].
    rewrite (same_path_dirname fs _ name (touch_one_current_path _ _ _ _)).
    destruct (touch_one_only_adds (clock i) a fs results _
                (is_directory_exists _ _ P)) as [_ [D _]].
    congruence.
Qed.

Lemma cmd_touch_creates (clock : nat -> string) (fs : VirtualFileSystem)
  (args : list string) (name : string) :
  In name args ->
  is_directory fs (dirname (normalize_path fs name)) = true ->
  exists_ (snd (cmd_touch clock fs args)) name = true
  /\ (exists_ fs name = false ->
      read_file (snd (cmd_touch clock fs args)) name = Some "").
Proof.
  intros I P. rewrite cmd_touch_loop.
  pose proof (touch_loop_creates clock args 0 (fs, []) name I P) as X.
  split; [exact X|].
  intros N.
  apply (touch_loop_new_is_empty clock args 0 fs (fs, []));
    [apply only_adds_refl| |exact N|exact X].
  intros q N' X'. cbn [fst] in X'. congruence.
Qed.

(** X17.  [touch] creates what is missing: after the command every
    argument whose directory existed before it exists, and one that did
    not exist before is a file that reads as the empty text. *)
Theorem touch_creates_empty_files (clock : nat -> string)
  (fs : VirtualFileSystem) (args : list string) (name : string) :
  In name args ->
  is_directory fs (dirname (normalize_path fs name)) = true ->
  exists_ (snd (cmd_touch clock fs args)) name = true
  /\ (exists_ fs name = false ->
      read_file (snd (cmd_touch clock fs args)) name = Some "").
Proof. exact (cmd_touch_creates clock fs args name). Qed.

Lemma touch_creates_empty_files_witness :
  let fs' := snd (cmd_touch (fun _ => "t1") init
                    ["/tmp/a"; "/etc/hosts"; "/tmp/b"]) in
  exists_ fs' "/tmp/b" = true
  /\ (exists_ init "/tmp/b" = false -> read_file fs' "/tmp/b" = Some "").
Proof.
  apply (touch_creates_empty_files (fun _ => "t1") init
           ["/tmp/a"; "/etc/hosts"; "/tmp/b"] "/tmp/b").
  - simpl. tauto.
  - reflexivity.
Defined.

End AddFacts.

(** ** Words and quotes in a command line *)

Module WordFacts.
Import PyStr Py CommandParser PathFacts ParserFacts.

(** A word: not empty, and made of characters that [shlex] takes as
    they are and [str.strip] leaves in place. *)
Fixpoint all_plain (s : string) : bool :=
  match s with
  | EmptyString => true
  | String c s' => plain c && all_plain s'
  end.

Definition is_word (w : string) : Prop := w <> "" /\ all_plain w = true.

Lemma plain_cases (c : ascii) :
  plain c = true ->
  is_whitespace c = false /\ is_quote c = false /\ is_escape c = false
  /\ isspace c = false.
Proof.
  unfold plain. intros P.
  apply andb_true_iff in P as [P Hs].
  apply andb_true_iff in P as [P He].
  apply andb_true_iff in P as [Hw Hq].
  apply negb_true_iff in Hs, He, Hw, Hq. auto.
Qed.

Lemma lex_plain (w : string) :
  forall s esc tok quoted,
    all_plain w = true ->
    lex (w ++ s) InWord esc tok quoted = lex s InWord esc (tok ++ w) quoted.
Proof.
  induction w as [|c w IH]; intros s esc tok quoted H.
  - rewrite append_nil_r. reflexivity.
  - cbn [all_plain] in H. apply andb_true_iff in H as [Pc Pw].
    destruct (plain_cases c Pc) as [Hw [Hq [He _]]].
    cbn [append lex]. rewrite Hw, Hq, He.
    rewrite IH by exact Pw. unfold snoc.
    rewrite append_assoc. reflexivity.
Qed.

Lemma lex_word (w s : string) :
  is_word w ->
  lex (w ++ s) InSpace InSpace "" false = lex s InWord InSpace w false.
Proof.
  intros [Hn H]. destruct w as [|c w]; [contradiction Hn; reflexivity|].
  cbn [all_plain] in H. apply andb_true_iff in H as [Pc Pw].
  destruct (plain_cases c Pc) as [Hw [Hq [He _]]].
  cbn [append lex]. rewrite Hw, Hq, He.
  rewrite lex_plain by exact Pw. reflexivity.
Qed.

Lemma word_nonempty (w : string) :
  is_word w -> String.eqb w "" = false.
Proof.
  intros [Hn _]. destruct w; [contradiction Hn; reflexivity|reflexivity].
Qed.

Lemma word_app_nonempty (w s : string) :
  is_word w -> String.eqb (w ++ s) "" = false.
Proof.
  intros [Hn _]. destruct w; [contradiction Hn; reflexivity|reflexivity].
Qed.

Lemma join_two (sep p q : string) (ps : list string) :
  join sep (p :: q :: ps) = (p ++ sep ++ join sep (q :: ps))%string.
Proof. reflexivity. Qed.

(** [shlex.split] undoes [' '.join] on words. *)
Lemma shlex_split_words (ws : list string) :
  Forall is_word ws -> shlex_split (join " " ws) = Ok ws.
Proof.
  unfold shlex_split. induction ws as [|w ws IH]; intros H.
  - reflexivity.
  - inversion H as [|? ? Hw Hws]; subst.
    destruct ws as [|w' ws].
    + cbn [join]. rewrite <- (append_nil_r w) at 1.
      rewrite lex_word by exact Hw. cbn [lex]. unfold emit.
      rewrite (word_nonempty w Hw). reflexivity.
    + rewrite join_two, lex_word by exact Hw.
      cbn [append lex is_whitespace]. cbn [nat_of_ascii].
      change (is_whitespace " ") with true. cbv iota.
      rewrite (word_nonempty w Hw). cbn [negb orb].
      rewrite (IH Hws). unfold emit. rewrite (word_nonempty w Hw).
      rewrite andb_false_r. reflexivity.
Qed.

(** What [strip] leaves in place. *)
Definition starts_plain (s : string) : Prop :=
  exists x t, s = String x t /\ isspace x = false.

Lemma lstrip_starts_plain (s : string) :
  starts_plain s -> lstrip_by isspace s = s.
Proof. intros [x [t [-> H]]]. simpl. rewrite H. reflexivity. Qed.

Lemma strip_fixed (s : string) :
  starts_plain s -> starts_plain (rev_string s) -> strip s = s.
Proof.
  intros A B. unfold strip, strip_by, rstrip_by.
  rewrite (lstrip_starts_plain s A), (lstrip_starts_plain _ B).
  apply rev_string_involutive.
Qed.

Lemma starts_plain_app (a b : string) :
  starts_plain a -> starts_plain (a ++ b).
Proof. intros [x [t [-> H]]]. exists x, (t ++ b)%string. auto. Qed.

Lemma all_plain_app (a b : string) :
  all_plain (a ++ b) = all_plain a && all_plain b.
Proof.
  induction a as [|c a IH]; [reflexivity|].
  simpl. rewrite IH, andb_assoc. reflexivity.
Qed.

Lemma all_plain_rev (s : string) : all_plain (rev_string s) = all_plain s.
Proof.
  induction s as [|c s IH]; [reflexivity|].
  simpl. rewrite all_plain_app, IH. simpl.
  rewrite andb_true_r. apply andb_comm.
Qed.

Lemma word_starts_plain (w : string) : is_word w -> starts_plain w.
Proof.
  intros [Hn H]. destruct w as [|c w]; [contradiction Hn; reflexivity|].
  cbn [all_plain] in H. apply andb_true_iff in H as [Pc _].
  exists c, w. split; [reflexivity|]. apply (plain_cases c Pc).
Qed.

Lemma word_rev (w : string) : is_word w -> is_word (rev_string w).
Proof.
  intros [Hn H]. split; [apply rev_nonempty, Hn|].
  rewrite all_plain_rev. exact H.
Qed.

Lemma join_starts_plain (w : string) (ws : list string) :
  is_word w -> starts_plain (join " " (w :: ws)).
Proof.
  intros H. destruct ws as [|w' ws].
  - apply word_starts_plain, H.
  - rewrite join_two. apply starts_plain_app, word_starts_plain, H.
Qed.

Lemma join_ends_plain (ws : list string) :
  ws <> [] -> Forall is_word ws ->
  starts_plain (rev_string (join " " ws)).
Proof.
  induction ws as [|w ws IH]; intros Hn H; [contradiction Hn; reflexivity|].
  inversion H as [|? ? Hw Hws]; subst.
  destruct ws as [|w' ws].
  - apply word_starts_plain, word_rev, Hw.
  - rewrite join_two, !rev_string_app.
    apply starts_plain_app, starts_plain_app, IH; [discriminate|exact Hws].
Qed.

Lemma parse_words (cmd : string) (args : list string) :
  Forall is_word (cmd :: args) ->
  parse (join " " (cmd :: args)) = Ok (cmd, args).
Proof.
  intros H. inversion H as [|? ? Hc Ha]; subst.
  unfold parse.
  rewrite strip_fixed;
    [|apply join_starts_plain, Hc|apply join_ends_plain; [discriminate|exact H]].
  destruct (join_starts_plain cmd args Hc) as [x [t [E _]]].
  rewrite E at 1. cbn [String.eqb].
  rewrite (shlex_split_words _ H). reflexivity.
Qed.

(** X18.  [parse] undoes [' '.join] on words: for a command and
    arguments that are not empty and hold no white space, quote or
    backslash, the line made of them with single blanks between parses
    to that command and those arguments. *)
Theorem parse_plain_words (cmd : string) (args : list string) :
  Forall is_word (cmd :: args) ->
  parse (join " " (cmd :: args)) = Ok (cmd, args).
Proof. exact (parse_words cmd args). Qed.

Lemma parse_plain_words_witness :
  parse "cp -r /home/user/documents /tmp/backup.d"
  = Ok ("cp", ["-r"; "/home/user/documents"; "/tmp/backup.d"]).
Proof.
  apply (parse_plain_words "cp" ["-r"; "/home/user/documents"; "/tmp/backup.d"]).
  repeat constructor; discriminate.
Defined.

(** *** Quoted arguments *)

Definition apostrophe : ascii := ascii_of_nat 39.

Lemma lex_to_closing_quote (t : string) :
  forall s tok quoted,
    contains_char apostrophe t = false ->
    lex (t ++ String apostrophe s) (InQuote apostrophe) InSpace tok quoted
    = lex s InWord InSpace (tok ++ t) true.
Proof.
  induction t as [|c t IH]; intros s tok quoted H.
  - rewrite append_nil_r. cbn [append lex]. rewrite Ascii.eqb_refl.
    reflexivity.
  - cbn [contains_char] in H. apply orb_false_iff in H as [Hc Ht].
    cbn [append lex]. rewrite Hc.
    change (is_escapedquote apostrophe) with false.
    rewrite andb_false_r. rewrite IH by exact Ht. unfold snoc.
    rewrite append_assoc. reflexivity.
Qed.

Lemma lex_no_closing_quote (t : string) :
  forall tok quoted,
    contains_char apostrophe t = false ->
    lex t (InQuote apostrophe) InSpace tok quoted
    = Raise "No closing quotation".
Proof.
  induction t as [|c t IH]; intros tok quoted H; [reflexivity|].
  cbn [contains_char] in H. apply orb_false_iff in H as [Hc Ht].
  cbn [lex]. rewrite Hc.
  change (is_escapedquote apostrophe) with false.
  rewrite andb_false_r. apply IH, Ht.
Qed.

Lemma lstrip_keeps (f : ascii -> bool) (a : string) (x : ascii) (b : string) :
  f x = false ->
  lstrip_by f (a ++ String x b) = (lstrip_by f a ++ String x b)%string.
Proof.
  intros Hx. induction a as [|c a IH]; simpl.
  - rewrite Hx. reflexivity.
  - destruct (f c); [exact IH|reflexivity].
Qed.

Lemma contains_char_lstrip (f : ascii -> bool) (c : ascii) (s : string) :
  contains_char c s = false -> contains_char c (lstrip_by f s) = false.
Proof.
  induction s as [|d s IH]; [reflexivity|].
  simpl. intros H. apply orb_false_iff in H as [Hd Hs].
  destruct (f d); [apply IH, Hs|]. simpl. rewrite Hd, Hs. reflexivity.
Qed.

(** The line [cmd 'text], with or without the closing quote, after
    [strip]. *)
Lemma strip_open_quote (cmd t : string) :
  is_word cmd -> contains_char apostrophe t = false ->
  exists t',
    strip (cmd ++ " " ++ String apostrophe t)
    = (cmd ++ " " ++ String apostrophe t')%string
    /\ contains_char apostrophe t' = false.
Proof.
  intros Hc Ht. unfold strip, strip_by.
  rewrite (lstrip_starts_plain _ (starts_plain_app _ _ (word_starts_plain _ Hc))).
  unfold rstrip_by.
  replace (cmd ++ " " ++ String apostrophe t)%string
    with ((cmd ++ " ") ++ String apostrophe t)%string
    by (rewrite append_assoc; reflexivity).
  rewrite rev_string_app. cbn [rev_string].
  rewrite append_assoc. cbn [append].
  rewrite lstrip_keeps by reflexivity.
  rewrite rev_string_app. cbn [rev_string]. rewrite rev_string_involutive.
  exists (rev_string (lstrip_by isspace (rev_string t))).
  split.
  - rewrite !append_assoc. reflexivity.
  - rewrite contains_char_rev. apply contains_char_lstrip.
    rewrite contains_char_rev. exact Ht.
Qed.

Lemma lex_open_quote (cmd t : string) :
  is_word cmd ->
  lex (cmd ++ " " ++ String apostrophe t) InSpace InSpace "" false
  = emit cmd false (lex t (InQuote apostrophe) InSpace "" false).
Proof.
  intros Hc. rewrite lex_word by exact Hc.
  cbn [append lex]. change (is_whitespace " ") with true. cbv iota.
  rewrite (word_nonempty cmd Hc). cbn [negb orb].
  change (is_whitespace apostrophe) with false.
  change (is_escape apostrophe) with false.
  change (is_quote apostrophe) with true. cbv iota.
  reflexivity.
Qed.

Lemma parse_quoted_argument (cmd t : string) :
  is_word cmd -> contains_char apostrophe t = false ->
  parse (cmd ++ " " ++ String apostrophe (t ++ String apostrophe ""))
  = Ok (cmd, [t])
  /\ parse (cmd ++ " " ++ String apostrophe t)
     = Raise "Invalid command syntax: No closing quotation".
Proof.
  intros Hc Ht. split.
  - unfold parse. rewrite strip_fixed.
    + rewrite (word_app_nonempty cmd _ Hc). unfold shlex_split.
      rewrite (lex_open_quote cmd (t ++ String apostrophe "") Hc).
      rewrite lex_to_closing_quote by exact Ht.
      cbn [lex append]. unfold emit at 2. cbn [negb andb].
      unfold emit. rewrite (word_nonempty cmd Hc).
      rewrite andb_false_r. reflexivity.
    + apply starts_plain_app, word_starts_plain, Hc.
    + replace (cmd ++ " " ++ String apostrophe (t ++ String apostrophe ""))%string
        with ((cmd ++ " " ++ String apostrophe t) ++ String apostrophe "")%string.
      * rewrite rev_string_app. cbn [rev_string append].
        exists apostrophe. eexists. split; reflexivity.
      * rewrite !append_assoc. reflexivity.
  - unfold parse.
    destruct (strip_open_quote cmd t Hc Ht) as [t' [-> Ht']].
    rewrite (word_app_nonempty cmd _ Hc).
    unfold shlex_split. rewrite lex_open_quote by assumption.
    rewrite lex_no_closing_quote by exact Ht'.
    unfold emit. rewrite (word_nonempty cmd Hc).
    rewrite andb_false_r. reflexivity.
Qed.

(** X19.  A quoted argument: what stands between two apostrophes after
    the command is one argument, taken as it is, blanks included and
    also when it is empty; without the closing apostrophe [parse]
    raises the error for an invalid command syntax. *)
Theorem parse_quoted (cmd t : string) :
  is_word cmd -> contains_char apostrophe t = false ->
  parse (cmd ++ " " ++ String apostrophe (t ++ String apostrophe ""))
  = Ok (cmd, [t])
  /\ parse (cmd ++ " " ++ String apostrophe t)
     = Raise "Invalid command syntax: No closing quotation".
Proof. exact (parse_quoted_argument cmd t). Qed.

Lemma parse_quoted_witness :
  parse "echo 'two  words '" = Ok ("echo", ["two  words "])
  /\ parse "echo 'two  words " = Raise "Invalid command syntax: No closing quotation".
Proof.
  apply (parse_quoted "echo" "two  words ").
  - split; [discriminate|reflexivity].
  - reflexivity.
Defined.

End WordFacts.

(** ** Redirections and the background mark *)

Module RedirectionFacts.
Import PyStr Py CommandParser PyFacts PathFacts WordFacts.

(** An argument that is no redirection. *)
Definition plain_arg (a : string) : Prop :=
  startswith a ">" = false /\ startswith a "<" = false
  /\ startswith a "2>" = false.

(** The operators that stand alone, with their keys. *)
Definition operators : list (string * string) :=
  [(">", "stdout"); (">>", "stdout_append"); ("2>", "stderr");
   ("<", "stdin")].

Lemma startswith_twice (a : string) :
  startswith a ">>" = true -> startswith a ">" = true.
Proof.
  destruct a as [|c a]; [discriminate|].
  cbn [startswith]. intros H. apply andb_true_iff in H as [H _].
  rewrite H. reflexivity.
Qed.

Lemma plain_arg_step (a : string) (rest clean : list string)
  (r : PyDict.t string) :
  plain_arg a ->
  redirections_loop (a :: rest) clean r
  = redirections_loop rest (clean ++ [a]) r.
Proof.
  intros [H1 [H2 H3]]. cbn [redirections_loop].
  destruct (String.eqb a ">") eqn:E1;
    [apply String.eqb_eq in E1; subst; vm_compute in H1; discriminate H1|].
  destruct (String.eqb a ">>") eqn:E2;
    [apply String.eqb_eq in E2; subst; vm_compute in H1; discriminate H1|].
  destruct (String.eqb a "2>") eqn:E3;
    [apply String.eqb_eq in E3; subst; vm_compute in H3; discriminate H3|].
  destruct (String.eqb a "<") eqn:E4;
    [apply String.eqb_eq in E4; subst; vm_compute in H2; discriminate H2|].
  rewrite H1, H2, H3.
  destruct (startswith a ">>") eqn:E5; [|reflexivity].
  apply startswith_twice in E5. congruence.
Qed.

Lemma plain_args_loop (a1 : list string) :
  forall rest clean r,
    Forall plain_arg a1 ->
    redirections_loop (a1 ++ rest) clean r
    = redirections_loop rest (clean ++ a1) r.
Proof.
  induction a1 as [|a a1 IH]; intros rest clean r H.
  - rewrite app_nil_r. reflexivity.
  - inversion H as [|? ? Ha Ha1]; subst.
    cbn [app]. rewrite plain_arg_step by exact Ha.
    rewrite IH by exact Ha1. rewrite <- app_assoc. reflexivity.
Qed.

Lemma operator_step (op key target : string) (rest clean : list string)
  (r : PyDict.t string) :
  In (op, key) operators ->
  redirections_loop (op :: target :: rest) clean r
  = redirections_loop rest clean (PyDict.set key target r)
  /\ redirections_loop [op] clean r = (clean ++ [op], r).
Proof.
  unfold operators. simpl In.
  intros [E|[E|[E|[E|[]]]]]; injection E as <- <-; split; reflexivity.
Qed.

Lemma redirections_separate (a1 a2 : list string) :
  Forall plain_arg a1 -> Forall plain_arg a2 ->
  parse_redirections a1 = (a1, [])
  /\ forall op key,
       In (op, key) operators ->
       (forall target,
          parse_redirections (a1 ++ op :: target :: a2)
          = (a1 ++ a2, [(key, target)]))
       /\ parse_redirections (a1 ++ [op]) = (a1 ++ [op], []).
Proof.
  intros H1 H2. unfold parse_redirections. split.
  - rewrite <- (app_nil_r a1) at 1. rewrite plain_args_loop by exact H1.
    reflexivity.
  - intros op key I. split.
    + intros target. rewrite plain_args_loop by exact H1.
      destruct (operator_step op key target a2 ([] ++ a1) [] I) as [-> _].
      rewrite <- (app_nil_r a2) at 1. rewrite plain_args_loop by exact H2.
      reflexivity.
    + rewrite plain_args_loop by exact H1.
      destruct (operator_step op key "" [] ([] ++ a1) [] I) as [_ ->].
      reflexivity.
Qed.

(** X20.  Redirections written apart: arguments none of which starts
    with [>], [<] or [2>] are returned as they are, with no
    redirection; among such arguments one of the operators [>], [>>],
    [2>], [<] followed by any target is taken out with its target,
    which is recorded under [stdout], [stdout_append], [stderr] or
    [stdin]; and an operator that comes last, without a target, stays
    an argument. *)
Theorem parse_redirections_separate (a1 a2 : list string) :
  Forall plain_arg a1 -> Forall plain_arg a2 ->
  parse_redirections a1 = (a1, [])
  /\ forall op key,
       In (op, key) operators ->
       (forall target,
          parse_redirections (a1 ++ op :: target :: a2)
          = (a1 ++ a2, [(key, target)]))
       /\ parse_redirections (a1 ++ [op]) = (a1 ++ [op], []).
Proof. exact (redirections_separate a1 a2). Qed.

Lemma parse_redirections_separate_witness :
  parse_redirections ["-l"; "/tmp"] = (["-l"; "/tmp"], [])
  /\ parse_redirections ["-l"; ">>"; "out.txt"; "/tmp"]
     = (["-l"; "/tmp"], [("stdout_append", "out.txt")])
  /\ parse_redirections ["-l"; "2>"] = (["-l"; "2>"], []).
Proof.
  assert (P1 : Forall plain_arg ["-l"]) by (repeat constructor).
  assert (P2 : Forall plain_arg ["/tmp"]) by (repeat constructor).
  assert (P3 : Forall plain_arg ["-l"; "/tmp"]) by (repeat constructor).
  destruct (parse_redirections_separate ["-l"; "/tmp"] [] P3 (Forall_nil _))
    as [A _].
  destruct (parse_redirections_separate ["-l"] ["/tmp"] P1 P2) as [_ B].
  destruct (parse_redirections_separate ["-l"] [] P1 (Forall_nil _))
    as [_ C].
  split; [exact A|split].
  - apply (B ">>" "stdout_append"). simpl. tauto.
  - apply (C "2>" "stderr"). simpl. tauto.
Defined.

(** *** Redirections written in one word *)

Lemma glued_step (f : string) (rest clean : list string)
  (r : PyDict.t string) :
  f <> "" -> f <> ">" ->
  redirections_loop ((">" ++ f)%string :: rest) clean r
  = redirections_loop rest clean (PyDict.set "stdout" f r).
Proof.
  intros H1 H2. cbn [redirections_loop].
  assert (E1 : String.eqb (">" ++ f) ">" = false).
  { destruct f; [contradiction H1; reflexivity|reflexivity]. }
  assert (E2 : String.eqb (">" ++ f) ">>" = false).
  { apply String.eqb_neq. intros E. injection E as E. contradiction. }
  rewrite E1, E2. cbn [append String.eqb Ascii.eqb Bool.eqb andb].
  cbn [startswith]. rewrite Ascii.eqb_refl. cbn [andb].
  unfold slice_from. cbn [String.length Nat.sub substring].
  rewrite Nat.sub_0_r, ParentFacts.substring_all. reflexivity.
Qed.

(** The key [stdout_append] is set from an operator that stands alone
    only. *)
Lemma append_only_separate (args : list string) :
  (forall clean r v,
     PyDict.get "stdout_append" (snd (redirections_loop args clean r))
     = Some v ->
     PyDict.get "stdout_append" r = Some v
     \/ exists l1 l2, args = l1 ++ ">>" :: v :: l2)
  /\ (forall x clean r v,
        PyDict.get "stdout_append"
          (snd (redirections_loop (x :: args) clean r)) = Some v ->
        PyDict.get "stdout_append" r = Some v
        \/ exists l1 l2, x :: args = l1 ++ ">>" :: v :: l2).
Proof.
  assert (Later : forall x args v,
            (exists l1 l2, args = l1 ++ ">>" :: v :: l2) ->
            exists l1 l2, x :: args = l1 ++ ">>" :: v :: l2).
  { intros x l v [l1 [l2 ->]]. exists (x :: l1), l2. reflexivity. }
  assert (Other : forall key t (r : PyDict.t string),
            key <> "stdout_append" ->
            PyDict.get "stdout_append" (PyDict.set key t r)
            = PyDict.get "stdout_append" r).
  { intros key t r Hk. apply get_set_other. congruence. }
  induction args as [|a args [IH0 IH1]].
  - split.
    + intros clean r v H. left. exact H.
    + intros x clean r v. cbn [redirections_loop].
      destruct (String.eqb x ">"); [intros H; left; exact H|].
      destruct (String.eqb x ">>"); [intros H; left; exact H|].
      destruct (String.eqb x "2>"); [intros H; left; exact H|].
      destruct (String.eqb x "<"); [intros H; left; exact H|].
      destruct (startswith x ">") eqn:S1;
        [cbn [snd]; rewrite Other by discriminate; intros H; left; exact H|].
      destruct (startswith x ">>") eqn:S2;
        [apply startswith_twice in S2; congruence|].
      destruct (startswith x "2>");
        [cbn [snd]; rewrite Other by discriminate; intros H; left; exact H|].
      destruct (startswith x "<");
        [cbn [snd]; rewrite Other by discriminate; intros H; left; exact H|].
      intros H. left. exact H.
  - split; [exact (IH1 a)|].
    intros x clean r v. cbn [redirections_loop].
    destruct (String.eqb x ">").
    { intros H. destruct (IH0 _ _ _ H) as [G|G].
      - left. rewrite Other in G by discriminate. exact G.
      - right. apply Later, Later, G. }
    destruct (String.eqb x ">>") eqn:E.
    { apply String.eqb_eq in E. subst x.
      intros H. destruct (IH0 _ _ _ H) as [G|G].
      - right. rewrite get_set_same in G. injection G as <-.
        exists [], args. reflexivity.
      - right. apply Later, Later, G. }
    destruct (String.eqb x "2>").
    { intros H. destruct (IH0 _ _ _ H) as [G|G].
      - left. rewrite Other in G by discriminate. exact G.
      - right. apply Later, Later, G. }
    destruct (String.eqb x "<").
    { intros H. destruct (IH0 _ _ _ H) as [G|G].
      - left. rewrite Other in G by discriminate. exact G.
      - right. apply Later, Later, G. }
    destruct (startswith x ">") eqn:S1.
    { intros H. destruct (IH1 a _ _ _ H) as [G|G].
      - left. rewrite Other in G by discriminate. exact G.
      - right. apply Later, G. }
    destruct (startswith x ">>") eqn:S2.
    { apply startswith_twice in S2. congruence. }
    destruct (startswith x "2>").
    { intros H. destruct (IH1 a _ _ _ H) as [G|G].
      - left. rewrite Other in G by discriminate. exact G.
      - right. apply Later, G. }
    destruct (startswith x "<").
    { intros H. destruct (IH1 a _ _ _ H) as [G|G].
      - left. rewrite Other in G by discriminate. exact G.
      - right. apply Later, G. }
    intros H. destruct (IH1 a _ _ _ H) as [G|G].
    + left. exact G.
    + right. apply Later, G.
Qed.

Lemma redirections_glued (a1 a2 : list string) (f : string) :
  Forall plain_arg a1 -> Forall plain_arg a2 -> f <> "" ->
  (f <> ">" ->
   parse_redirections (a1 ++ (">" ++ f)%string :: a2)
   = (a1 ++ a2, [("stdout", f)]))
  /\ parse_redirections (a1 ++ (">>" ++ f)%string :: a2)
     = (a1 ++ a2, [("stdout", (">" ++ f)%string)])
  /\ forall args v,
       PyDict.get "stdout_append" (snd (parse_redirections args)) = Some v ->
       exists l1 l2, args = l1 ++ ">>" :: v :: l2.
Proof.
  intros H1 H2 Hf.
  assert (G : forall g, g <> "" -> g <> ">" ->
            parse_redirections (a1 ++ (">" ++ g)%string :: a2)
            = (a1 ++ a2, [("stdout", g)])).
  { intros g Hg Hg'. unfold parse_redirections.
    rewrite plain_args_loop by exact H1.
    rewrite glued_step by assumption.
    rewrite <- (app_nil_r a2) at 1. rewrite plain_args_loop by exact H2.
    reflexivity. }
  split; [apply G, Hf|]. split.
  - apply (G (">" ++ f)%string); [discriminate|].
    intros E. injection E as E. contradiction.
  - intros args v H. unfold parse_redirections in H.
    destruct (proj1 (append_only_separate args) _ _ _ H) as [X|X];
      [discriminate X|exact X].
Qed.

(** X21.  Redirections written in one word: [>file] among arguments
    that are no redirections records [file] under [stdout]; the form
    [>>file] is read the same way, as a redirection of [stdout] to the
    name [>file]; and for any arguments, whatever is recorded under
    [stdout_append] stood in the arguments right after an operator
    [>>] that stood alone. *)
Theorem parse_redirections_glued (a1 a2 : list string) (f : string) :
  Forall plain_arg a1 -> Forall plain_arg a2 -> f <> "" ->
  (f <> ">" ->
   parse_redirections (a1 ++ (">" ++ f)%string :: a2)
   = (a1 ++ a2, [("stdout", f)]))
  /\ parse_redirections (a1 ++ (">>" ++ f)%string :: a2)
     = (a1 ++ a2, [("stdout", (">" ++ f)%string)])
  /\ forall args v,
       PyDict.get "stdout_append" (snd (parse_redirections args)) = Some v ->
       exists l1 l2, args = l1 ++ ">>" :: v :: l2.
Proof. exact (redirections_glued a1 a2 f). Qed.

Lemma parse_redirections_glued_witness :
  parse_redirections ["hello"; ">out.txt"] = (["hello"], [("stdout", "out.txt")])
  /\ parse_redirections ["hello"; ">>out.txt"]
     = (["hello"], [("stdout", ">out.txt")]).
Proof.
  assert (P1 : Forall plain_arg ["hello"]) by (repeat constructor).
  destruct (parse_redirections_glued ["hello"] [] "out.txt" P1 (Forall_nil _))
    as [A [B _]]; [discriminate|].
  split; [apply A; discriminate|exact B].
Defined.

(** *** The background mark *)

Fixpoint all_space (s : string) : bool :=
  match s with
  | EmptyString => true
  | String c s' => isspace c && all_space s'
  end.

Lemma lstrip_all_space (ws rest : string) :
  all_space ws = true ->
  lstrip_by isspace (ws ++ rest) = lstrip_by isspace rest.
Proof.
  induction ws as [|c ws IH]; [reflexivity|].
  cbn [all_space append lstrip_by]. intros H.
  apply andb_true_iff in H as [-> H]. apply IH, H.
Qed.

Lemma all_space_rev (ws : string) :
  all_space (rev_string ws) = all_space ws.
Proof.
  assert (A : forall a b, all_space (a ++ b) = all_space a && all_space b).
  { induction a as [|c a IH]; intros b; [reflexivity|].
    simpl. rewrite IH, andb_assoc. reflexivity. }
  induction ws as [|c ws IH]; [reflexivity|].
  simpl. rewrite A, IH. simpl. rewrite andb_true_r. apply andb_comm.
Qed.

Lemma lstrip_idem (f : ascii -> bool) (s : string) :
  lstrip_by f (lstrip_by f s) = lstrip_by f s.
Proof.
  induction s as [|c s IH]; [reflexivity|].
  simpl. destruct (f c) eqn:E; [exact IH|]. simpl. rewrite E. reflexivity.
Qed.

Definition ampersand : ascii := "&"%char.

(** The line [s&] followed by white space, after [strip]. *)
Lemma strip_marked (s ws : string) :
  all_space ws = true ->
  strip (s ++ String ampersand ws)
  = (lstrip_by isspace s ++ String ampersand "")%string.
Proof.
  intros H. unfold strip, strip_by, rstrip_by.
  rewrite lstrip_keeps by reflexivity.
  rewrite rev_string_app. cbn [rev_string].
  rewrite append_assoc. cbn [append].
  rewrite lstrip_all_space by (rewrite all_space_rev; exact H).
  change (lstrip_by isspace (String ampersand (rev_string (lstrip_by isspace s))))
    with (String ampersand (rev_string (lstrip_by isspace s))).
  cbn [rev_string]. rewrite rev_string_involutive. reflexivity.
Qed.

Lemma background_marked (s ws : string) :
  all_space ws = true ->
  is_background_command (s ++ String ampersand ws) = (strip s, true).
Proof.
  intros H. unfold is_background_command.
  rewrite (strip_marked s ws H).
  unfold endswith. rewrite rev_string_app. cbn [rev_string append startswith].
  rewrite Ascii.eqb_refl. cbn [andb].
  rewrite ParentFacts.length_app. cbn [String.length].
  replace (String.length (lstrip_by isspace s) + 1 - 1)
    with (String.length (lstrip_by isspace s)) by lia.
  rewrite ParentFacts.substring_prefix.
  unfold strip, strip_by. rewrite lstrip_idem. reflexivity.
Qed.

(** X22.  The background mark: a line that ends with [&], followed by
    white space or not, is a background command, and the text returned
    is what stands before that [&], stripped of leading and trailing
    white space; a line whose stripped form does not end with [&] is
    returned stripped and is no background command. *)
Theorem background_mark (s ws : string) :
  all_space ws = true ->
  is_background_command (s ++ String ampersand ws) = (strip s, true)
  /\ (endswith (strip s) "&" = false ->
      is_background_command s = (strip s, false)).
Proof.
  intros H. split; [exact (background_marked s ws H)|].
  intros E. unfold is_background_command. rewrite E. reflexivity.
Qed.

Lemma background_mark_witness :
  is_background_command " sleep 5 & " = ("sleep 5", true)
  /\ is_background_command "make &&" = ("make &", true)
  /\ is_background_command " ls -l " = ("ls -l", false).
Proof.
  destruct (background_mark " sleep 5 " " " eq_refl) as [A _].
  destruct (background_mark "make &" "" eq_refl) as [B _].
  destruct (background_mark " ls -l " "" eq_refl) as [_ C].
  split; [exact A|]. split; [exact B|]. apply C. reflexivity.
Defined.

End RedirectionFacts.
